(** * Audio graph utility nodes: LatencyAudioNode, SummingAudioNode and
      LiveMidiOutputNode

    A shallow embedding of
      - examples/AudioNodeDev/UtilityNodes.h
      - modules/tracktion_engine/playback/graph/tracktion_LiveMidiOutputNode.cpp
    followed by the properties of the delay line, of the latency-alignment
    transform, of the mixer and of the MIDI monitoring bridge.

    Conventions.  A C++ [int] is a [Z]; the sizes that the code holds as
    [size_t] (channel and sample counts of a block) are [nat].  A sample is
    a [float] in the code: every definition is generic in the sample type
    and only uses its zero and its addition, so no rounding behaviour is
    assumed anywhere; [float32] gives the samples their binary32
    arithmetic where a property depends on it.  A pointer to a node is the
    node value together with the address it lives at. *)

From Stdlib Require Import ZArith List Bool Lia Permutation QArith.
From Stdlib Require SpecFloat.
Import ListNotations.
Local Open Scope Z_scope.

Set Implicit Arguments.
Set Warnings "-register-all".

(* ===================================================================== *)
(** ** Samples and audio blocks *)
(* ===================================================================== *)

(** The two operations on samples that the nodes use: silence and [+=]. *)
Class Sample (sample : Type) : Type := {
  szero : sample;
  sadd  : sample -> sample -> sample
}.

(** Exact integer samples, used to run the definitions on concrete input. *)
#[export] Instance Z_Sample : Sample Z := {| szero := 0; sadd := Z.add |}.

(** The samples of the code: a C++ [float] is an IEEE 754 binary32 number
    (24 bits of precision, exponents below 128), silence is +0 and [+=]
    rounds to nearest, ties to even. *)
Definition float32 : Type := SpecFloat.spec_float.

#[export] Instance float32_Sample : Sample float32 :=
  {| szero := SpecFloat.S754_zero false; sadd := SpecFloat.SFadd 24 128 |}.

Section Blocks.
Context {sample : Type} `{Sample sample}.

(** juce::dsp::AudioBlock<float>: [getNumSamples] samples on each of its
    channels.  The sample count is a field of its own, as in the code, so
    that a block without channels still spans a number of samples. *)
Record AudioBlock : Type := mkBlock {
  getNumSamples : nat;
  channelData   : list (list sample)
}.

Definition getNumChannels (b : AudioBlock) : nat := length (channelData b).

(** Every channel holds exactly [getNumSamples] samples. *)
Definition block_ok (b : AudioBlock) : Prop :=
  Forall (fun ch => length ch = getNumSamples b) (channelData b).

(** A cleared block of the given shape. *)
Definition silentBlock (numChannels numSamples : nat) : AudioBlock :=
  mkBlock numSamples (repeat (repeat szero numSamples) numChannels).

(** FloatVectorOperations::add (dst, src, n) with n the shorter length:
    [dst[i] += src[i]] on the common prefix, the rest of [dst] is kept. *)
Fixpoint add_samples (dst src : list sample) : list sample :=
  match dst, src with
  | d :: dst', s :: src' => sadd d s :: add_samples dst' src'
  | _, _ => dst
  end.

(** Channel by channel, over the channels both sides have. *)
Fixpoint add_channels (dst src : list (list sample)) : list (list sample) :=
  match dst, src with
  | d :: dst', s :: src' => add_samples d s :: add_channels dst' src'
  | _, _ => dst
  end.

(** AudioBlock::getSubsetChannelBlock (0, n): the first [n] channels. *)
Definition getSubsetChannelBlock (b : AudioBlock) (n : nat) : AudioBlock :=
  mkBlock (getNumSamples b) (firstn n (channelData b)).

(** AudioBlock::add: [this += src].  The block is a view, so the sum
    lands in the channels it refers to. *)
Definition AudioBlock_add (dst src : AudioBlock) : AudioBlock :=
  mkBlock (getNumSamples dst) (add_channels (channelData dst) (channelData src)).

(** [dst.getSubsetChannelBlock (0, n).add (src.getSubsetChannelBlock (0, n))]
    seen from [dst]: its first [n] channels are summed into, the channels
    from [n] on are not part of the view and stay as they are. *)
Definition addToSubset (dst src : AudioBlock) (n : nat) : AudioBlock :=
  mkBlock (getNumSamples dst)
          (channelData (AudioBlock_add (getSubsetChannelBlock dst n)
                                       (getSubsetChannelBlock src n))
           ++ skipn n (channelData dst)).

(** FloatVectorOperations::copy on the common prefix. *)
Fixpoint copy_samples (dst src : list sample) : list sample :=
  match dst, src with
  | _ :: dst', s :: src' => s :: copy_samples dst' src'
  | _, _ => dst
  end.

Fixpoint copy_channels (dst src : list (list sample)) : list (list sample) :=
  match dst, src with
  | d :: dst', s :: src' => copy_samples d s :: copy_channels dst' src'
  | _, _ => dst
  end.

(** AudioBlock::copyFrom: overwrites the region both blocks share. *)
Definition AudioBlock_copyFrom (dst src : AudioBlock) : AudioBlock :=
  mkBlock (getNumSamples dst) (copy_channels (channelData dst) (channelData src)).

End Blocks.

Arguments AudioBlock sample : clear implicits.

(* ===================================================================== *)
(** ** juce::MidiBuffer *)
(* ===================================================================== *)

Module MidiBuffer.

(** The raw bytes of one MIDI message. *)
Definition MidiMessage : Type := list Byte.byte.

(** One entry of the buffer: a message and its sample position, which is
    relative to the start of the block the buffer belongs to. *)
Record MidiEvent : Type := mkEvent {
  samplePosition : Z;
  message        : MidiMessage
}.

(** Modelled from the spec: juce::MidiBuffer is a library type whose
    source is not part of src/; the spec only says that it is an ordered
    sequence of timestamped events with per-block-relative offsets.  The
    three operations the nodes call are written after the library's
    documented behaviour: events are kept in the order of their sample
    positions, a new event goes behind the events of the same position. *)
Definition t : Type := list MidiEvent.

Definition empty : t := [].

Fixpoint takeWhile (p : MidiEvent -> bool) (l : t) : t :=
  match l with
  | [] => []
  | e :: l' => if p e then e :: takeWhile p l' else []
  end.

Fixpoint dropWhile (p : MidiEvent -> bool) (l : t) : t :=
  match l with
  | [] => []
  | e :: l' => if p e then dropWhile p l' else l
  end.

(** addEvent (message, sampleNumber): inserted in front of the first
    event whose position is greater than [sampleNumber]. *)
Fixpoint addEvent (buf : t) (m : MidiMessage) (sampleNumber : Z) : t :=
  match buf with
  | [] => [mkEvent sampleNumber m]
  | e :: rest =>
      if sampleNumber <? samplePosition e
      then mkEvent sampleNumber m :: buf
      else e :: addEvent rest m sampleNumber
  end.

(** The events that addEvents visits: it starts at the first event at or
    after [startSample] and stops at the first one at or after
    [startSample + numSamples]; a negative [numSamples] means no end. *)
Definition eventsInRange (other : t) (startSample numSamples : Z) : t :=
  takeWhile (fun e => (samplePosition e <? startSample + numSamples)
                      || (numSamples <? 0))
            (dropWhile (fun e => samplePosition e <? startSample) other).

(** addEvents (otherBuffer, startSample, numSamples, sampleDeltaToAdd):
    every visited event is added at its position plus the delta. *)
Definition addEvents (buf other : t)
           (startSample numSamples sampleDeltaToAdd : Z) : t :=
  fold_left (fun b e => addEvent b (message e)
                                 (samplePosition e + sampleDeltaToAdd))
            (eventsInRange other startSample numSamples) buf.

(** clear (startSample, numSamples): removes the run of events from the
    first one at or after [startSample] up to the first one at or after
    [startSample + numSamples]. *)
Definition clear (buf : t) (startSample numSamples : Z) : t :=
  takeWhile (fun e => samplePosition e <? startSample) buf
  ++ dropWhile (fun e => samplePosition e <? startSample + numSamples)
               (dropWhile (fun e => samplePosition e <? startSample) buf).

(** Positions never decrease along the buffer. *)
Fixpoint sorted (buf : t) : Prop :=
  match buf with
  | [] => True
  | e :: rest =>
      Forall (fun e' => samplePosition e <= samplePosition e') rest
      /\ sorted rest
  end.

End MidiBuffer.

(* ===================================================================== *)
(** ** tracktion_engine::AudioFifo *)
(* ===================================================================== *)

Module AudioFifo.
Section Fifo.
Context {sample : Type} `{Sample sample}.

(** Modelled from the spec: tracktion_engine::AudioFifo (a
    juce::AbstractFifo over a multichannel buffer) is not part of src/.
    The spec calls it a circular buffer per channel that is written at
    one end and read at the other, and that must never be asked for more
    samples than it holds ready.  The ring is modelled by its contents:
    per channel the samples that are ready, oldest first, with the
    capacity [totalSize] and the count [numReady] kept beside them.  As in
    juce::AbstractFifo one slot of the ring always stays unused, which is
    why the node asks for one sample more than it needs. *)
Record t : Type := mkFifo {
  totalSize : Z;
  numReady  : Z;
  buffer    : list (list sample)
}.

(** AudioFifo fifo { 1, 32 }: the member initialiser of the node. *)
Definition make (channels : nat) (numSamples : Z) : t :=
  mkFifo numSamples 0 (repeat [] channels).

Definition getNumChannels (f : t) : nat := length (buffer f).
Definition getNumReady (f : t) : Z := numReady f.
Definition getFreeSpace (f : t) : Z := totalSize f - numReady f - 1.

(** setSize (numChannels, numSamples): a new, empty ring. *)
Definition setSize (f : t) (numChannels : Z) (numSamples : Z) : t :=
  mkFifo numSamples 0 (repeat [] (Z.to_nat numChannels)).

(** Appends [src], channel by channel, behind what is ready. *)
Fixpoint append_channels (buf src : list (list sample)) : list (list sample) :=
  match buf, src with
  | b :: buf', s :: src' => (b ++ s) :: append_channels buf' src'
  | _, _ => buf
  end.

(** writeSilence (numSamples): refused (nothing written, [false]) when
    the free space is too small. *)
Definition writeSilence (f : t) (numSamples : Z) : t * bool :=
  if numSamples <=? 0 then (f, true)
  else if getFreeSpace f <? numSamples then (f, false)
  else (mkFifo (totalSize f) (numReady f + numSamples)
               (map (fun ch => ch ++ repeat szero (Z.to_nat numSamples))
                    (buffer f)),
        true).

(** write (block): refused when the free space is too small. *)
Definition write (f : t) (src : AudioBlock sample) : t * bool :=
  let n := Z.of_nat (getNumSamples src) in
  if n <=? 0 then (f, true)
  else if getFreeSpace f <? n then (f, false)
  else (mkFifo (totalSize f) (numReady f + n)
               (append_channels (buffer f) (channelData src)),
        true).

(** readAdding (dest): takes [dest.getNumSamples()] samples off the read
    end and adds them into [dest]; refused (nothing read, [dest] as it
    was, [false]) when fewer samples are ready. *)
Definition readAdding (f : t) (dest : AudioBlock sample)
  : t * AudioBlock sample * bool :=
  let n := getNumSamples dest in
  if Z.of_nat n <=? 0 then (f, dest, true)
  else if numReady f <? Z.of_nat n then (f, dest, false)
  else (mkFifo (totalSize f) (numReady f - Z.of_nat n)
               (map (skipn n) (buffer f)),
        mkBlock (getNumSamples dest)
                (add_channels (channelData dest)
                              (map (firstn n) (buffer f))),
        true).

End Fifo.
Arguments t sample : clear implicits.
End AudioFifo.

(* ===================================================================== *)
(** ** The node graph (UtilityNodes.h) *)
(* ===================================================================== *)

(** struct AudioNodeProperties. *)
Record AudioNodeProperties : Type := mkProps {
  hasAudio          : bool;
  hasMidi           : bool;
  numberOfChannels  : Z;
  latencyNumSamples : Z
}.

(** Modelled from the spec: struct AudioNodeProperties is declared in
    AudioNode.h, which is not part of src/.  A freshly declared
    [AudioNodeProperties props;] is taken to start with latency 0: it is
    the one field that SummingAudioNode::getAudioNodeProperties reads
    before it has assigned it. *)
Definition AudioNodeProperties_default : AudioNodeProperties :=
  mkProps false false 0 0.

(** struct PlaybackInitialisationInfo. *)
Record PlaybackInitialisationInfo : Type := mkInfo {
  sampleRate : Q;
  blockSize  : Z
}.

(** The address of a node object. *)
Definition ptr : Type := nat.

Section Nodes.
Context {sample : Type} `{Sample sample}.

(** The audio and MIDI of one block: [pc.buffers], and what
    [getProcessedOutput()] of an input hands out. *)
Record AudioAndMidiBuffer : Type := mkBuffers {
  audio : AudioBlock sample;
  midi  : MidiBuffer.t
}.

(** The members of a LatencyAudioNode that [process] changes: [fifo] and
    the MIDI buffer [midi], here [storedMidi]. *)
Record LatencyAudioNode_state : Type := mkLatencyState {
  fifo       : AudioFifo.t sample;
  storedMidi : MidiBuffer.t
}.

(** [AudioFifo fifo { 1, 32 }; juce::MidiBuffer midi;] *)
Definition LatencyAudioNode_state_init : LatencyAudioNode_state :=
  mkLatencyState (AudioFifo.make 1 32) MidiBuffer.empty.

(** The nodes of a graph.  [OtherNode] is a node of any class that is not
    defined in UtilityNodes.h, seen through the properties it declares.
    [ownedInput] says whether the unique_ptr of the node holds [input];
    [ownedNodes] lists the addresses of the nodes the unique_ptrs of a
    summing node hold. *)
Inductive AudioNode : Type :=
| OtherNode (self : ptr) (props : AudioNodeProperties)
| LatencyAudioNode (self : ptr) (ownedInput : bool) (input : AudioNode)
                   (latencyNumSamples : Z) (state : LatencyAudioNode_state)
| SummingAudioNode (self : ptr) (ownedNodes : list ptr)
                   (nodes : list AudioNode).

(** The value of an [AudioNode*]. *)
Definition addressOf (n : AudioNode) : ptr :=
  match n with
  | OtherNode self _ => self
  | LatencyAudioNode self _ _ _ _ => self
  | SummingAudioNode self _ _ => self
  end.

(** One round of the loop of SummingAudioNode::getAudioNodeProperties. *)
Definition mergeProperties (props nodeProps : AudioNodeProperties)
  : AudioNodeProperties :=
  mkProps (hasAudio props || hasAudio nodeProps)
          (hasMidi props || hasMidi nodeProps)
          (Z.max (numberOfChannels props) (numberOfChannels nodeProps))
          (Z.max (latencyNumSamples props) (latencyNumSamples nodeProps)).

(** The virtual getAudioNodeProperties(). *)
Fixpoint getAudioNodeProperties (n : AudioNode) : AudioNodeProperties :=
  match n with
  | OtherNode _ props => props
  | LatencyAudioNode _ _ input latency _ =>
      let props := getAudioNodeProperties input in
      mkProps (hasAudio props) (hasMidi props) (numberOfChannels props)
              (latencyNumSamples props + latency)
  | SummingAudioNode _ _ nodes =>
      fold_left (fun props node =>
                   mergeProperties props (getAudioNodeProperties node))
                nodes
                (mkProps false false 0
                         (latencyNumSamples AudioNodeProperties_default))
  end.

(** The virtual getDirectInputNodes(). *)
Definition getDirectInputNodes (n : AudioNode) : list AudioNode :=
  match n with
  | OtherNode _ _ => []
  | LatencyAudioNode _ _ input _ _ => [input]
  | SummingAudioNode _ _ nodes => nodes
  end.

(* ------------------------------------------------------------------- *)
(** *** LatencyAudioNode *)

(** LatencyAudioNode (std::unique_ptr<AudioNode> inputNode, int). *)
Definition LatencyAudioNode_owning (self : ptr) (inputNode : AudioNode)
           (numSamplesToDelay : Z) : AudioNode :=
  LatencyAudioNode self true inputNode numSamplesToDelay
                   LatencyAudioNode_state_init.

(** LatencyAudioNode (AudioNode* inputNode, int). *)
Definition LatencyAudioNode_referencing (self : ptr) (inputNode : AudioNode)
           (numSamplesToDelay : Z) : AudioNode :=
  LatencyAudioNode self false inputNode numSamplesToDelay
                   LatencyAudioNode_state_init.

(** LatencyAudioNode::isReadyToProcess; [hasProcessed] is the flag of
    the base class. *)
Definition LatencyAudioNode_isReadyToProcess
           (hasProcessed : AudioNode -> bool) (input : AudioNode) : bool :=
  hasProcessed input.

(** LatencyAudioNode::prepareToPlay, on the members it touches;
    [numChannels] is [getAudioNodeProperties().numberOfChannels]. *)
Definition LatencyAudioNode_prepareToPlay (numChannels latencyNumSamples : Z)
           (info : PlaybackInitialisationInfo) (st : LatencyAudioNode_state)
  : LatencyAudioNode_state :=
  let fifo1 := AudioFifo.setSize (fifo st) numChannels
                                 (latencyNumSamples + blockSize info + 1) in
  let fifo2 := fst (AudioFifo.writeSilence fifo1 latencyNumSamples) in
  mkLatencyState fifo2 (storedMidi st).

(** LatencyAudioNode::process.  [inputOutput] is
    [input->getProcessedOutput()]; the result is the node's members and
    [pc.buffers] after the call. *)
Definition LatencyAudioNode_process (latencyNumSamples : Z)
           (st : LatencyAudioNode_state)
           (inputOutput pc : AudioAndMidiBuffer)
  : LatencyAudioNode_state * AudioAndMidiBuffer :=
  let outputBlock := audio pc in
  let inputBuffer := audio inputOutput in
  let inputMidi := midi inputOutput in
  let numSamples := Z.of_nat (getNumSamples inputBuffer) in
  (* Write to delay buffers *)
  let fifo1 := fst (AudioFifo.write (fifo st) inputBuffer) in
  let midi1 := MidiBuffer.addEvents (storedMidi st) inputMidi 0 (-1)
                                    latencyNumSamples in
  (* Then read from them *)
  let '(fifo2, outputBlock', _) := AudioFifo.readAdding fifo1 outputBlock in
  let pcMidi := MidiBuffer.addEvents (midi pc) midi1 latencyNumSamples
                                     numSamples (- latencyNumSamples) in
  let midi2 := MidiBuffer.clear midi1 latencyNumSamples numSamples in
  (mkLatencyState fifo2 midi2, mkBuffers outputBlock' pcMidi).

(** The three jasserts of LatencyAudioNode::process, each evaluated where
    the code has it. *)
Definition LatencyAudioNode_process_asserts (st : LatencyAudioNode_state)
           (inputOutput pc : AudioAndMidiBuffer) : bool :=
  let outputBlock := audio pc in
  let inputBuffer := audio inputOutput in
  let fifo1 := fst (AudioFifo.write (fifo st) inputBuffer) in
  Nat.eqb (getNumSamples inputBuffer) (getNumSamples outputBlock)
  && Nat.eqb (AudioFifo.getNumChannels (fifo st)) (getNumChannels inputBuffer)
  && (Z.of_nat (getNumSamples outputBlock) <=? AudioFifo.getNumReady fifo1).

(* ------------------------------------------------------------------- *)
(** *** SummingAudioNode *)

(** SummingAudioNode (std::vector<std::unique_ptr<AudioNode>> inputs). *)
Definition SummingAudioNode_owning (self : ptr) (inputs : list AudioNode)
  : AudioNode :=
  SummingAudioNode self (map addressOf inputs) inputs.

(** SummingAudioNode (std::vector<AudioNode*> inputs). *)
Definition SummingAudioNode_referencing (self : ptr)
           (inputs : list AudioNode) : AudioNode :=
  SummingAudioNode self [] inputs.

(** SummingAudioNode (ownedInputs, referencedInputs): the referenced
    inputs are inserted in front of the owned ones. *)
Definition SummingAudioNode_mixed (self : ptr)
           (ownedInputs referencedInputs : list AudioNode) : AudioNode :=
  SummingAudioNode self (map addressOf ownedInputs)
                   (referencedInputs ++ ownedInputs).

(** makeSummingAudioNode: every node of the list becomes owned. *)
Definition makeSummingAudioNode (self : ptr) (nodes : list AudioNode)
  : AudioNode :=
  SummingAudioNode_owning self nodes.

(** SummingAudioNode::isReadyToProcess. *)
Definition SummingAudioNode_isReadyToProcess
           (hasProcessed : AudioNode -> bool) (nodes : list AudioNode) : bool :=
  forallb hasProcessed nodes.

(** The lambda getOwnedNode of createLatencyNodes: the first unique_ptr
    that holds [nodeToFind] is moved out, which leaves a null in its
    place; without one the result is a null unique_ptr. *)
Fixpoint getOwnedNode (ownedNodes : list (option ptr)) (nodeToFind : ptr)
  : list (option ptr) * option ptr :=
  match ownedNodes with
  | [] => ([], None)
  | ownedNode :: rest =>
      if match ownedNode with
         | Some p => Nat.eqb p nodeToFind
         | None => false
         end
      then (None :: rest, ownedNode)
      else let '(rest', found) := getOwnedNode rest nodeToFind in
           (ownedNode :: rest', found)
  end.

(** Modelled from the spec: AudioNode::initialise is a method of the base
    class, which is not part of src/; by the spec a node that the
    transform adds is prepared with the playback info before it is used.
    On a LatencyAudioNode, the only class createLatencyNodes makes, that
    is LatencyAudioNode::prepareToPlay. *)
Definition initialise (info : PlaybackInitialisationInfo) (n : AudioNode)
  : AudioNode :=
  match n with
  | LatencyAudioNode self owned input latency st =>
      LatencyAudioNode self owned input latency
        (LatencyAudioNode_prepareToPlay
           (numberOfChannels (getAudioNodeProperties n)) latency info st)
  | _ => n
  end.

(** The first loop of createLatencyNodes.  It runs over [nodes] by
    reference: an entry is either kept or overwritten with a null.  The
    result is [nodes] after the loop, [ownedNodes] after the loop,
    [ownedNodesToAdd] and the next free address; [next] is the address
    the next make_unique returns. *)
Fixpoint createLatencyNodes_loop (info : PlaybackInitialisationInfo)
         (maxLatency : Z) (nodes : list AudioNode)
         (ownedNodes : list (option ptr)) (ownedNodesToAdd : list AudioNode)
         (next : ptr)
  : list (option AudioNode) * list (option ptr) * list AudioNode * ptr :=
  match nodes with
  | [] => ([], ownedNodes, ownedNodesToAdd, next)
  | node :: rest =>
      let nodeLatency := latencyNumSamples (getAudioNodeProperties node) in
      let latencyToAdd := maxLatency - nodeLatency in
      if latencyToAdd =? 0
      then
        let '(rest', owned', toAdd', next') :=
          createLatencyNodes_loop info maxLatency rest
                                  ownedNodes ownedNodesToAdd next in
        (Some node :: rest', owned', toAdd', next')
      else
        let '(owned1, ownedNode) := getOwnedNode ownedNodes (addressOf node) in
        let latencyNode :=
          match ownedNode with
          | Some _ => LatencyAudioNode_owning next node latencyToAdd
          | None => LatencyAudioNode_referencing next node latencyToAdd
          end in
        let latencyNode := initialise info latencyNode in
        let '(rest', owned', toAdd', next') :=
          createLatencyNodes_loop info maxLatency rest owned1
                                  (ownedNodesToAdd ++ [latencyNode])
                                  (S next) in
        (None :: rest', owned', toAdd', next')
  end.

(** [v.erase (std::remove_if (v.begin(), v.end(), is null), v.end())]. *)
Fixpoint remove_null {A : Type} (v : list (option A)) : list A :=
  match v with
  | [] => []
  | Some a :: v' => a :: remove_null v'
  | None :: v' => remove_null v'
  end.

(** SummingAudioNode::createLatencyNodes on the members [ownedNodes] and
    [nodes] of the node at [self]; the result is the two members after
    the call and the next free address. *)
Definition createLatencyNodes (info : PlaybackInitialisationInfo)
           (self : ptr) (ownedNodes : list ptr) (nodes : list AudioNode)
           (next : ptr)
  : list ptr * list AudioNode * ptr :=
  let maxLatency :=
    latencyNumSamples
      (getAudioNodeProperties (SummingAudioNode self ownedNodes nodes)) in
  let '(nodes1, ownedNodes1, ownedNodesToAdd, next') :=
    createLatencyNodes_loop info maxLatency nodes
                            (map Some ownedNodes) [] next in
  (* Take ownership of any new nodes and also ensure they're referenced
     in the raw array *)
  let nodes2 := nodes1 ++ map Some ownedNodesToAdd in
  let ownedNodes2 :=
    ownedNodes1 ++ map (fun n => Some (addressOf n)) ownedNodesToAdd in
  (remove_null ownedNodes2, remove_null nodes2, next').

(** SummingAudioNode::prepareToPlay. *)
Definition SummingAudioNode_prepareToPlay (info : PlaybackInitialisationInfo)
           (n : AudioNode) (next : ptr) : AudioNode * ptr :=
  match n with
  | SummingAudioNode self ownedNodes nodes =>
      let '(ownedNodes', nodes', next') :=
        createLatencyNodes info self ownedNodes nodes next in
      (SummingAudioNode self ownedNodes' nodes', next')
  | _ => (n, next)
  end.

(** One round of the loop of SummingAudioNode::process, for the input
    [node]; [numChannels] is the channel count of the destination, read
    before the loop. *)
Definition SummingAudioNode_addInput
           (getProcessedOutput : AudioNode -> AudioAndMidiBuffer)
           (numChannels : nat) (pc : AudioAndMidiBuffer) (node : AudioNode)
  : AudioAndMidiBuffer :=
  let inputFromNode := getProcessedOutput node in
  let numChannelsToAdd :=
    Nat.min (getNumChannels (audio inputFromNode)) numChannels in
  mkBuffers
    (if (0 <? numChannelsToAdd)%nat
     then addToSubset (audio pc) (audio (getProcessedOutput node))
                      numChannelsToAdd
     else audio pc)
    (MidiBuffer.addEvents (midi pc) (midi inputFromNode) 0 (-1) 0).

(** SummingAudioNode::process.  [getProcessedOutput node] is
    [node->getProcessedOutput()], the block that the input has produced;
    the result is [pc.buffers] after the call. *)
Definition SummingAudioNode_process
           (getProcessedOutput : AudioNode -> AudioAndMidiBuffer)
           (nodes : list AudioNode) (pc : AudioAndMidiBuffer)
  : AudioAndMidiBuffer :=
  let numChannels := getNumChannels (audio pc) in
  (* Get each of the inputs and add them to dest *)
  fold_left (SummingAudioNode_addInput getProcessedOutput numChannels)
            nodes pc.

End Nodes.

Arguments AudioAndMidiBuffer sample : clear implicits.
Arguments LatencyAudioNode_state sample : clear implicits.
Arguments AudioNode sample : clear implicits.
Arguments OtherNode {sample} self props.

(* ===================================================================== *)
(** ** LiveMidiOutputNode (tracktion_LiveMidiOutputNode.cpp) *)
(* ===================================================================== *)

Module LiveMidiOutputNode.
Section Live.
Context {sample : Type} `{Sample sample}.

(** MidiMessageArray::MidiMessageWithSource: a time-stamped message and
    the id of the source it came from. *)
Record MidiMessageWithSource : Type := mkMessage {
  rawData     : list Byte.byte;
  timeStamp   : Q;
  mpeSourceID : Z
}.

(** Modelled from the spec: tracktion_engine::MidiMessageArray is not
    part of src/; it is the ordered sequence of messages of one block. *)
Definition MidiMessageArray : Type := list MidiMessageWithSource.

(** MidiMessageArray::copyFrom: the array becomes a copy of [source]. *)
Definition MidiMessageArray_copyFrom (dst source : MidiMessageArray)
  : MidiMessageArray := source.

(** MidiMessageArray::add: the message goes to the end. *)
Definition MidiMessageArray_add (a : MidiMessageArray)
           (m : MidiMessageWithSource) : MidiMessageArray := a ++ [m].

(** [pc.buffers] and [input->getProcessedOutput()] of this graph. *)
Record AudioAndMidiBuffer : Type := mkBuffers {
  audio : AudioBlock sample;
  midi  : MidiMessageArray
}.

(** The members of the node that [process] and [handleAsyncUpdate] use,
    with the state of its juce::AsyncUpdater base and with what the
    track's listeners have been called with, oldest call first.

    Modelled from the spec: juce::AsyncUpdater is a library class;
    [updatePending] is its flag that a callback has been asked for and
    not yet made.  [requests] counts the calls of triggerAsyncUpdate and
    [dispatches] the runs of handleAsyncUpdate. *)
Record t : Type := mkNode {
  pendingMessages     : MidiMessageArray;
  dispatchingMessages : MidiMessageArray;
  updatePending       : bool;
  requests            : nat;
  dispatches          : nat;
  listenerCalls       : list MidiMessageWithSource
}.

(** The node as its constructor leaves it. *)
Definition make : t := mkNode [] [] false 0 0 [].

(** AsyncUpdater::triggerAsyncUpdate: asks for one callback; asking
    again before the callback has been made changes nothing. *)
Definition triggerAsyncUpdate (n : t) : t :=
  mkNode (pendingMessages n) (dispatchingMessages n) true
         (S (requests n)) (dispatches n) (listenerCalls n).

(** LiveMidiOutputNode::process.  The result is the node after the call
    with [pc.buffers] as the call leaves them.  [destAudioBlock] is a
    view on the audio of the output context, so what is copied into it is
    in the context.  [auto destMidiBlock = pc.buffers.midi] makes an array
    of its own, a copy of the one of the context: [copyFrom] fills this
    copy, which is gone when the call returns, and the MIDI of the context
    is not written. *)
Definition process (n : t) (sourceBuffers pc : AudioAndMidiBuffer)
  : t * AudioAndMidiBuffer :=
  let destAudioBlock := audio pc in
  let destMidiBlock := midi pc in
  let destMidiBlock := MidiMessageArray_copyFrom destMidiBlock
                                                 (midi sourceBuffers) in
  let destAudioBlock := AudioBlock_copyFrom destAudioBlock
                                            (audio sourceBuffers) in
  let pending := fold_left MidiMessageArray_add (midi sourceBuffers)
                           (pendingMessages n) in
  let n1 := mkNode pending (dispatchingMessages n) (updatePending n)
                   (requests n) (dispatches n) (listenerCalls n) in
  let n2 := match pending with
            | [] => n1
            | _ :: _ => triggerAsyncUpdate n1
            end in
  (n2, mkBuffers destAudioBlock (midi pc)).

(** LiveMidiOutputNode::handleAsyncUpdate. *)
Definition handleAsyncUpdate (n : t) : t :=
  (* pendingMessages.swapWith (dispatchingMessages) *)
  let pending := dispatchingMessages n in
  let dispatching := pendingMessages n in
  (* one call of the listeners per message *)
  let calls := fold_left (fun log m => log ++ [m]) dispatching
                         (listenerCalls n) in
  (* dispatchingMessages.clear() *)
  mkNode pending [] (updatePending n) (requests n)
         (S (dispatches n)) calls.

(** The message thread getting to the callback of the AsyncUpdater: the
    handler runs if a callback is pending, and the flag is taken down
    before it runs. *)
Definition serviceAsyncUpdate (n : t) : t :=
  if updatePending n
  then handleAsyncUpdate
         (mkNode (pendingMessages n) (dispatchingMessages n) false
                 (requests n) (dispatches n) (listenerCalls n))
  else n.

(** The bridge as a sequential system: the audio thread processes a
    block, or the message thread services the updater. *)
Inductive step : Type :=
| Block (sourceBuffers pc : AudioAndMidiBuffer)
| Service.

Definition run_step (n : t) (s : step) : t :=
  match s with
  | Block sourceBuffers pc => fst (process n sourceBuffers pc)
  | Service => serviceAsyncUpdate n
  end.

Definition run (n : t) (trace : list step) : t := fold_left run_step trace n.

(** The messages that the blocks of a trace carry, in order. *)
Definition injected (trace : list step) : list MidiMessageWithSource :=
  flat_map (fun s => match s with
                     | Block sourceBuffers _ => midi sourceBuffers
                     | Service => []
                     end) trace.

(** Whether this call of [process] calls triggerAsyncUpdate. *)
Definition requestsNotification (n : t)
           (sourceBuffers pc : AudioAndMidiBuffer) : bool :=
  negb (Nat.eqb (requests (fst (process n sourceBuffers pc))) (requests n)).

(** Whether the pending queue is longer after this call of [process]. *)
Definition queueGained (n : t)
           (sourceBuffers pc : AudioAndMidiBuffer) : bool :=
  (length (pendingMessages n)
   <? length (pendingMessages (fst (process n sourceBuffers pc))))%nat.

(** Whether every step of a trace is a block of the audio thread. *)
Definition blocksOnly (trace : list step) : bool :=
  forallb (fun s => match s with Block _ _ => true | Service => false end)
          trace.

(** The invariant of the bridge along any trace from the constructed
    node: nothing stays in the scratch queue, what has been delivered
    followed by what is pending is what was injected, and a non-empty
    pending queue has a callback pending. *)
Definition bridge_inv (n : t) (all : list MidiMessageWithSource) : Prop :=
  dispatchingMessages n = []
  /\ listenerCalls n ++ pendingMessages n = all
  /\ (pendingMessages n <> [] -> updatePending n = true).

End Live.
Arguments AudioAndMidiBuffer sample : clear implicits.
Arguments step sample : clear implicits.
End LiveMidiOutputNode.

(* ===================================================================== *)
(** ** Vocabulary of the properties *)
(* ===================================================================== *)

(** [m] is the maximum of the counts [l]; no counts at all have maximum 0. *)
Definition maximumOf (m : Z) (l : list Z) : Prop :=
  Forall (fun x => x <= m) l /\ (In m l \/ (l = [] /\ m = 0)).

Section GraphVocabulary.
Context {sample : Type} `{Sample sample}.

(** The latency a node declares. *)
Definition latencyOf (n : AudioNode sample) : Z :=
  latencyNumSamples (getAudioNodeProperties n).

(** [new] is a LatencyAudioNode around [orig] that brings it to the
    latency [maxLatency] and that has been prepared with [info]. *)
Definition insertedFor (info : PlaybackInitialisationInfo) (maxLatency : Z)
           (orig new : AudioNode sample) : Prop :=
  exists (self : ptr) (owned : bool),
    new = LatencyAudioNode self owned orig (maxLatency - latencyOf orig)
            (LatencyAudioNode_prepareToPlay
               (numberOfChannels (getAudioNodeProperties orig))
               (maxLatency - latencyOf orig) info
               LatencyAudioNode_state_init).

(** Whether the input already is at the latency [maxLatency]. *)
Definition atLatency (maxLatency : Z) (n : AudioNode sample) : bool :=
  maxLatency - latencyOf n =? 0.

(** The node is a LatencyAudioNode whose ring has room for its delay
    and one block of [info], plus the unused slot, and holds exactly its
    delay in samples, all of them silence. *)
Definition delayLinePrimed (info : PlaybackInitialisationInfo)
           (n : AudioNode sample) : Prop :=
  match n with
  | LatencyAudioNode _ _ input latency st =>
      AudioFifo.totalSize (fifo st) = latency + blockSize info + 1
      /\ AudioFifo.getNumReady (fifo st) = latency
      /\ AudioFifo.buffer (fifo st)
         = repeat (repeat szero (Z.to_nat latency))
                  (Z.to_nat (numberOfChannels (getAudioNodeProperties input)))
  | _ => False
  end.

End GraphVocabulary.

Section DelayVocabulary.
Context {sample : Type} `{Sample sample}.

(** The samples of channel [c] of a block. *)
Definition channel (b : AudioBlock sample) (c : nat) : list sample :=
  nth c (channelData b) [].

(** Channel [c] of consecutive blocks, as one stream of samples. *)
Definition channelStream (c : nat) (blocks : list (AudioBlock sample))
  : list sample :=
  flat_map (fun b => channel b c) blocks.

(** The value that [fifo.readAdding] returns in a call of
    LatencyAudioNode::process (the code does not look at it): [false]
    says that the ring held too few samples and nothing was read. *)
Definition LatencyAudioNode_process_readOk
           (st : LatencyAudioNode_state sample)
           (inputOutput pc : AudioAndMidiBuffer sample) : bool :=
  snd (AudioFifo.readAdding
         (fst (AudioFifo.write (fifo st) (audio inputOutput))) (audio pc)).

(** LatencyAudioNode::process block after block: each call comes with
    the output of the input and with the context to fill. *)
Fixpoint LatencyAudioNode_processAll (latency : Z)
         (st : LatencyAudioNode_state sample)
         (calls : list (AudioAndMidiBuffer sample * AudioAndMidiBuffer sample))
  : LatencyAudioNode_state sample * list (AudioAndMidiBuffer sample) :=
  match calls with
  | [] => (st, [])
  | (inputOutput, pc) :: rest =>
      let r := LatencyAudioNode_process latency st inputOutput pc in
      let rs := LatencyAudioNode_processAll latency (fst r) rest in
      (fst rs, snd r :: snd rs)
  end.

(** For each call of such a run: whether the jasserts of [process] hold
    and whether the ring had the samples to read. *)
Fixpoint LatencyAudioNode_checks (latency : Z)
         (st : LatencyAudioNode_state sample)
         (calls : list (AudioAndMidiBuffer sample * AudioAndMidiBuffer sample))
  : list (bool * bool) :=
  match calls with
  | [] => []
  | (inputOutput, pc) :: rest =>
      (LatencyAudioNode_process_asserts st inputOutput pc,
       LatencyAudioNode_process_readOk st inputOutput pc)
      :: LatencyAudioNode_checks
           latency (fst (LatencyAudioNode_process latency st inputOutput pc))
           rest
  end.

(** The context that the graph hands to [process]: cleared audio of the
    shape of the block, no MIDI. *)
Definition clearedContext (numChannels numSamples : nat)
  : AudioAndMidiBuffer sample :=
  mkBuffers (silentBlock numChannels numSamples) MidiBuffer.empty.

(** The state of a delay line between two blocks: a ring of the size
    that prepareToPlay asks for, holding [latency] samples on each of its
    [numChannels] channels. *)
Definition delayLineReady (latency blockSize : Z) (numChannels : nat)
           (f : AudioFifo.t sample) : Prop :=
  AudioFifo.totalSize f = latency + blockSize + 1
  /\ AudioFifo.numReady f = latency
  /\ length (AudioFifo.buffer f) = numChannels
  /\ Forall (fun ch => length ch = Z.to_nat latency) (AudioFifo.buffer f).

(** Sample [i] of channel [c] of a block. *)
Definition sampleAt (b : AudioBlock sample) (c i : nat) : sample :=
  nth i (channel b c) szero.

(** What a call of [process] reads from channel [c] of the ring: the
    oldest samples of what the ring held followed by the block just
    written, as many as the block is long. *)
Definition delayedSamples (st : LatencyAudioNode_state sample)
           (inputOutput : AudioAndMidiBuffer sample) (c : nat) : list sample :=
  firstn (getNumSamples (audio inputOutput))
         (nth c (AudioFifo.buffer (fifo st)) []
          ++ channel (audio inputOutput) c).

(** The samples that the inputs with a channel [c] hold at sample [i] of
    that channel, in the order of the inputs. *)
Definition contributions
           (getProcessedOutput : AudioNode sample -> AudioAndMidiBuffer sample)
           (nodes : list (AudioNode sample)) (c i : nat) : list sample :=
  map (fun n => sampleAt (audio (getProcessedOutput n)) c i)
      (filter (fun n => (c <? getNumChannels (audio (getProcessedOutput n)))%nat)
              nodes).

(** The MIDI events of consecutive output blocks of [blockSize] samples
    each, with their positions counted from the start of the first block
    ([firstSample] is the position of that start). *)
Fixpoint globalMidi (blockSize firstSample : Z)
         (outs : list (AudioAndMidiBuffer sample)) : MidiBuffer.t :=
  match outs with
  | [] => []
  | out :: rest =>
      map (fun e => MidiBuffer.mkEvent
                      (firstSample + MidiBuffer.samplePosition e)
                      (MidiBuffer.message e))
          (midi out)
      ++ globalMidi blockSize (firstSample + blockSize) rest
  end.

End DelayVocabulary.

(* ===================================================================== *)
(** ** Concrete graphs and blocks *)
(* ===================================================================== *)

(** The properties are run on these inputs, with exact integer samples. *)

(** A note-on message. *)
Definition noteOn : MidiBuffer.MidiMessage := [Byte.x90; Byte.x3c; Byte.x64].

(** 44.1 kHz, blocks of 4 samples. *)
Definition demoInfo : PlaybackInitialisationInfo := mkInfo (44100 # 1) 4.

(** Two stereo sources: A without latency, B with a latency of 10. *)
Definition demoSourceA : AudioNode Z := OtherNode 1%nat (mkProps true true 2 0).
Definition demoSourceB : AudioNode Z := OtherNode 2%nat (mkProps true false 2 10).

(** A summing node at address 0 that owns A and B. *)
Definition demoSumming : AudioNode Z :=
  SummingAudioNode_owning 0%nat [demoSourceA; demoSourceB].

(** A mono delay line of 3 samples, prepared for blocks of 4 samples. *)
Definition demoDelayLine : LatencyAudioNode_state Z :=
  LatencyAudioNode_prepareToPlay 1 3 demoInfo LatencyAudioNode_state_init.

(** Three blocks of input for it: an impulse at sample 0 and a note-on at
    offset 1 of the first block, then silence. *)
Definition demoBlocks : list (AudioAndMidiBuffer Z) :=
  [ mkBuffers (mkBlock 4 [[1; 0; 0; 0]]) [MidiBuffer.mkEvent 1 noteOn];
    mkBuffers (mkBlock 4 [[0; 0; 0; 0]]) [];
    mkBuffers (mkBlock 4 [[0; 0; 0; 0]]) [] ].

(** The calls of [process] for these blocks, each into a cleared context. *)
Definition demoCalls : list (AudioAndMidiBuffer Z * AudioAndMidiBuffer Z) :=
  map (fun i => (i, clearedContext 1 4)) demoBlocks.


(** What A and B have produced for one block: A is stereo, B is mono. *)
Definition demoProcessedOutput (n : AudioNode Z) : AudioAndMidiBuffer Z :=
  match addressOf n with
  | 1%nat => mkBuffers (mkBlock 4 [[1; 1; 1; 1]; [2; 2; 2; 2]]) []
  | _ => mkBuffers (mkBlock 4 [[1; 1; 1; 1]]) []
  end.

(** A stereo context that already holds audio. *)
Definition demoStereoContext : AudioAndMidiBuffer Z :=
  mkBuffers (mkBlock 4 [[10; 10; 10; 10]; [20; 20; 20; 20]]) [].

(** A block of the monitoring bridge with one message, and one without. *)
Definition demoMessage : LiveMidiOutputNode.MidiMessageWithSource :=
  LiveMidiOutputNode.mkMessage [Byte.x90; Byte.x3c; Byte.x64] (0 # 1) 0.

Definition demoLiveBlock : LiveMidiOutputNode.AudioAndMidiBuffer Z :=
  LiveMidiOutputNode.mkBuffers (mkBlock 2 [[7; 8]]) [demoMessage].

Definition demoLiveQuietBlock : LiveMidiOutputNode.AudioAndMidiBuffer Z :=
  LiveMidiOutputNode.mkBuffers (mkBlock 2 [[0; 0]]) [].

Definition demoLiveContext : LiveMidiOutputNode.AudioAndMidiBuffer Z :=
  LiveMidiOutputNode.mkBuffers (mkBlock 2 [[0; 0]]) [].

(** The bridge after it has processed the block with the message. *)
Definition demoLiveNode : LiveMidiOutputNode.t :=
  fst (LiveMidiOutputNode.process LiveMidiOutputNode.make
                                  demoLiveBlock demoLiveContext).

(* ===================================================================== *)
(** ** Further vocabulary: ownership and delays in the graph *)
(* ===================================================================== *)

(** Whether the address [p] is one of [addresses]. *)
Definition holds (addresses : list ptr) (p : ptr) : bool :=
  existsb (Nat.eqb p) addresses.

Section OwnershipVocabulary.
Context {sample : Type} `{Sample sample}.

(** Whether the unique_ptr [ownedInput] of a delay node holds its input. *)
Definition ownsInput (n : AudioNode sample) : bool :=
  match n with
  | LatencyAudioNode _ owned _ _ _ => owned
  | _ => false
  end.

(** The member [latencyNumSamples] of a delay node. *)
Definition delayOf (n : AudioNode sample) : option Z :=
  match n with
  | LatencyAudioNode _ _ _ latency _ => Some latency
  | _ => None
  end.

(** The addresses that the unique_ptrs of a summing node hold. *)
Definition ownedNodesOf (n : AudioNode sample) : list ptr :=
  match n with
  | SummingAudioNode _ ownedNodes _ => ownedNodes
  | _ => []
  end.

End OwnershipVocabulary.

(* ===================================================================== *)
(** ** The shared data of EditFileOperations (second part of
       UtilityNodes.h) *)
(* ===================================================================== *)

Module EditFileOperations.

(** One element of [SharedEditFileDataCache::sharedData]: a
    std::shared_ptr<Data>, seen through the address of the Edit its Data
    refers to and through its use_count(), which counts the vector itself
    and every SharedDataPimpl that holds the Data. *)
Record Entry : Type := mkEntry {
  edit      : ptr;
  use_count : nat
}.

Definition SharedEditFileDataCache : Type := list Entry.

(** SharedEditFileDataCache::get: the first element for the edit is
    handed out, which adds a holder; without one a new Data is made and
    pushed back, held by the vector and by the caller. *)
Fixpoint get (sharedData : SharedEditFileDataCache) (e : ptr)
  : SharedEditFileDataCache :=
  match sharedData with
  | [] => [mkEntry e 2]
  | en :: rest =>
      if Nat.eqb (edit en) e
      then mkEntry (edit en) (S (use_count en)) :: rest
      else en :: get rest e
  end.

(** [data.reset()] of a SharedDataPimpl that holds the Data of the edit:
    one holder less. *)
Fixpoint reset (sharedData : SharedEditFileDataCache) (e : ptr)
  : SharedEditFileDataCache :=
  match sharedData with
  | [] => []
  | en :: rest =>
      if Nat.eqb (edit en) e
      then mkEntry (edit en) (Nat.pred (use_count en)) :: rest
      else en :: reset rest e
  end.

(** SharedEditFileDataCache::cleanUp: every element that only the vector
    holds is erased. *)
Definition cleanUp (sharedData : SharedEditFileDataCache)
  : SharedEditFileDataCache :=
  filter (fun en => negb (Nat.eqb (use_count en) 1)) sharedData.

(** SharedDataPimpl::SharedDataPimpl (Edit& e), on the shared cache. *)
Definition SharedDataPimpl_construct (cache : SharedEditFileDataCache)
           (e : ptr) : SharedEditFileDataCache :=
  get cache e.

(** SharedDataPimpl::~SharedDataPimpl of a pimpl made for [e]. *)
Definition SharedDataPimpl_destroy (cache : SharedEditFileDataCache)
           (e : ptr) : SharedEditFileDataCache :=
  cleanUp (reset cache e).

(** The number of pimpls that hold the Data of the edit. *)
Fixpoint holders (sharedData : SharedEditFileDataCache) (e : ptr) : nat :=
  match sharedData with
  | [] => 0
  | en :: rest =>
      if Nat.eqb (edit en) e then Nat.pred (use_count en)
      else holders rest e
  end.

(** Between two calls every cached Data is held by some pimpl, and no
    edit has two of them. *)
Definition cache_ok (sharedData : SharedEditFileDataCache) : Prop :=
  NoDup (map edit sharedData)
  /\ Forall (fun en => (2 <= use_count en)%nat) sharedData.

(** What the calls made by writeToFile answer: whether the file can be
    written, whether it is a directory, whether there is an edit snapshot,
    whether the state could be turned into XML and whether the XML got
    written. *)
Record WriteAnswers : Type := mkAnswers {
  hasWriteAccess : bool;
  isDirectory    : bool;
  hasSnapshot    : bool;
  xmlCreated     : bool;
  xmlWritten     : bool
}.

(** What writeToFile does besides computing its result, in order. *)
Inductive Action : Type :=
| DisableRealtimePriority
| ShowWaitCursor
| FlushAllFiles
| QueueTreeWrite
| FlushState
| SetSnapshotState
| WriteXml
| SetTimeOfLastSave.

(** EditFileOperations::writeToFile: the result and what was done. *)
Definition writeToFile (answers : WriteAnswers)
           (writeQuickBinaryVersion : bool) : bool * list Action :=
  let ok := false in
  let done :=
    if negb writeQuickBinaryVersion
    then [DisableRealtimePriority; ShowWaitCursor; FlushAllFiles]
    else [] in
  let '(ok, done) :=
    if hasWriteAccess answers && negb (isDirectory answers)
    then
      if writeQuickBinaryVersion
      then (ok, done ++ [QueueTreeWrite])
      else
        let done := done ++ [FlushState] in
        let done := if hasSnapshot answers
                    then done ++ [SetSnapshotState] else done in
        if xmlCreated answers
        then (xmlWritten answers, done ++ [WriteXml])
        else (ok, done)
    else (ok, done) in
  if ok then (ok, done ++ [SetTimeOfLastSave]) else (ok, done).

(** EditFileOperations::saveTempVersion; [hasChangedSinceSaved] is what
    the edit answers. *)
Definition saveTempVersion (answers : WriteAnswers)
           (hasChangedSinceSaved forceSaveEvenIfUnchanged : bool)
  : bool * list Action :=
  if negb (forceSaveEvenIfUnchanged || hasChangedSinceSaved)
  then (true, [])
  else writeToFile answers (negb forceSaveEvenIfUnchanged).

End EditFileOperations.

(* ===================================================================== *)
(** ** Further concrete inputs *)
(* ===================================================================== *)

(** Two mono blocks that carry the samples 1 to 8. *)
Definition demoSignalBlocks : list (AudioAndMidiBuffer Z) :=
  [ mkBuffers (mkBlock 4 [[1; 2; 3; 4]]) [];
    mkBuffers (mkBlock 4 [[5; 6; 7; 8]]) [] ].

(** A block of 6 samples with a note at offset 1, more than the 4
    samples the delay line was prepared for. *)
Definition demoOversizedBlock : AudioAndMidiBuffer Z :=
  mkBuffers (mkBlock 6 [[1; 2; 3; 4; 5; 6]]) [MidiBuffer.mkEvent 1 noteOn].

(** What A and B have produced for one block of MIDI: A a note at offset
    2, B a note at offset 0. *)
Definition demoMidiOutput (n : AudioNode Z) : AudioAndMidiBuffer Z :=
  match addressOf n with
  | 1%nat => mkBuffers (mkBlock 4 [[0; 0; 0; 0]]) [MidiBuffer.mkEvent 2 noteOn]
  | _ => mkBuffers (mkBlock 4 [[0; 0; 0; 0]]) [MidiBuffer.mkEvent 0 noteOn]
  end.

(** A context that already holds a note at offset 1. *)
Definition demoMidiContext : AudioAndMidiBuffer Z :=
  mkBuffers (mkBlock 4 [[0; 0; 0; 0]]) [MidiBuffer.mkEvent 1 noteOn].

(** A block of 4 samples with a note stamped at offset 5, past its end. *)
Definition demoLateBlock : AudioAndMidiBuffer Z :=
  mkBuffers (mkBlock 4 [[0; 0; 0; 0]]) [MidiBuffer.mkEvent 5 noteOn].

(** A cache with the Data of the edits at 7 and 9, held by one and by two
    pimpls. *)
Definition demoCache : EditFileOperations.SharedEditFileDataCache :=
  [ EditFileOperations.mkEntry 7%nat 2%nat;
    EditFileOperations.mkEntry 9%nat 3%nat ].





(* ===================================================================== *)
(** * Properties *)
(* ===================================================================== *)

(** ** Lists and blocks *)

Lemma fold_left_snoc (A : Type) (l acc : list A) :
  fold_left (fun p m => p ++ [m]) l acc = acc ++ l.
Proof.
  revert acc. induction l as [|a l IH]; intros acc; simpl.
  - now rewrite app_nil_r.
  - rewrite IH, <- app_assoc. reflexivity.
Qed.

Section BlockFacts.
Context {sample : Type} `{Sample sample}.

Lemma copy_samples_same_length (dst src : list sample) :
  length dst = length src -> copy_samples dst src = src.
Proof.
  revert src. induction dst as [|d dst IH]; intros [|s src] E;
    simpl in *; try discriminate; auto.
  f_equal. apply IH. lia.
Qed.

Lemma copy_channels_same_shape (dst src : list (list sample)) :
  Forall2 (fun d s => length d = length s) dst src ->
  copy_channels dst src = src.
Proof.
  induction 1 as [|d s dst src E _ IH]; simpl; auto.
  now rewrite copy_samples_same_length, IH.
Qed.

Lemma same_shape_Forall2 (n : nat) (dst src : list (list sample)) :
  length dst = length src ->
  Forall (fun ch => length ch = n) dst ->
  Forall (fun ch => length ch = n) src ->
  Forall2 (fun d s => length d = length s) dst src.
Proof.
  revert src. induction dst as [|d dst IH]; intros [|s src] E Hd Hs;
    simpl in *; try discriminate; constructor.
  - inversion Hd; inversion Hs; subst; congruence.
  - inversion Hd; inversion Hs; subst. apply IH; auto.
Qed.

(** Two blocks of one shape: after copyFrom the destination is the source. *)
Lemma AudioBlock_copyFrom_same_shape (dst src : AudioBlock sample) :
  getNumSamples dst = getNumSamples src ->
  getNumChannels dst = getNumChannels src ->
  block_ok dst -> block_ok src ->
  AudioBlock_copyFrom dst src = src.
Proof.
  destruct dst as [n dc], src as [m sc]; unfold getNumChannels, block_ok;
    simpl; intros -> E Hd Hs.
  unfold AudioBlock_copyFrom; simpl. f_equal.
  apply copy_channels_same_shape. eapply same_shape_Forall2; eauto.
Qed.

End BlockFacts.

(* ===================================================================== *)
(** ** LiveMidiOutputNode: the monitoring bridge *)
(* ===================================================================== *)

Section LiveMidiFacts.
Context {sample : Type} `{Sample sample}.
Import LiveMidiOutputNode.

Local Abbreviation node := LiveMidiOutputNode.t.
Local Abbreviation buffers := (LiveMidiOutputNode.AudioAndMidiBuffer sample).
Local Abbreviation step := (LiveMidiOutputNode.step sample).

Lemma fold_MidiMessageArray_add (l acc : MidiMessageArray) :
  fold_left MidiMessageArray_add l acc = acc ++ l.
Proof. exact (fold_left_snoc l acc). Qed.

Lemma process_pending (n : node) (src pc : buffers) :
  pendingMessages (fst (process n src pc)) = pendingMessages n ++ midi src.
Proof.
  unfold process; simpl. rewrite fold_MidiMessageArray_add.
  destruct (pendingMessages n ++ midi src); reflexivity.
Qed.

Lemma process_requests (n : node) (src pc : buffers) :
  requests (fst (process n src pc)) =
  match pendingMessages n ++ midi src with
  | [] => requests n
  | _ :: _ => S (requests n)
  end.
Proof.
  unfold process; simpl. rewrite fold_MidiMessageArray_add.
  destruct (pendingMessages n ++ midi src); reflexivity.
Qed.

Lemma process_updatePending (n : node) (src pc : buffers) :
  updatePending (fst (process n src pc)) =
  match pendingMessages n ++ midi src with
  | [] => updatePending n
  | _ :: _ => true
  end.
Proof.
  unfold process; simpl. rewrite fold_MidiMessageArray_add.
  destruct (pendingMessages n ++ midi src); reflexivity.
Qed.

Lemma process_frame (n : node) (src pc : buffers) :
  dispatchingMessages (fst (process n src pc)) = dispatchingMessages n
  /\ dispatches (fst (process n src pc)) = dispatches n
  /\ listenerCalls (fst (process n src pc)) = listenerCalls n.
Proof.
  unfold process; simpl. rewrite fold_MidiMessageArray_add.
  destruct (pendingMessages n ++ midi src); simpl; auto.
Qed.

(** Over a run of blocks the request counter never goes down, the
    dispatch counter stands still, and once a request was made the
    updater has a callback pending. *)
Lemma run_blocks_requests (trace : list step) (n : node) :
  blocksOnly trace = true ->
  dispatches (run n trace) = dispatches n
  /\ (requests n <= requests (run n trace))%nat
  /\ (requests (run n trace) <> requests n ->
      updatePending (run n trace) = true)
  /\ (updatePending n = true -> updatePending (run n trace) = true).
Proof.
  revert n. induction trace as [|s trace IH]; intros n Hb.
  - cbn. repeat split; auto; congruence.
  - cbn [blocksOnly forallb] in Hb. apply andb_prop in Hb as [Hs Hb].
    destruct s as [src pc|]; [|discriminate].
    change (run n (Block src pc :: trace))
      with (run (fst (process n src pc)) trace).
    destruct (IH (fst (process n src pc)) Hb) as (Hd & Hle & Hreq & Hup).
    pose proof (process_requests n src pc) as Er.
    pose proof (process_updatePending n src pc) as Eu.
    destruct (process_frame n src pc) as (_ & Ed & _).
    rewrite Ed in Hd.
    destruct (pendingMessages n ++ midi src) eqn:Ep.
    + rewrite Er in *. repeat split; auto.
      intros Hu. apply Hup. congruence.
    + repeat split; auto; lia.
Qed.

Lemma service_idle (n : node) (k : nat) :
  updatePending n = false -> run n (repeat (Service (sample:=sample)) k) = n.
Proof.
  intros Hu. induction k as [|k IH]; simpl; auto.
  unfold run in *; simpl. unfold serviceAsyncUpdate at 1. rewrite Hu. exact IH.
Qed.

Lemma bridge_inv_step (n : node) (all : list MidiMessageWithSource) (s : step) :
  bridge_inv n all -> bridge_inv (run_step n s) (all ++ injected [s]).
Proof.
  intros (Hd & Hall & Hup).
  destruct s as [src pc|]; cbn [run_step injected flat_map].
  - rewrite app_nil_r. destruct (process_frame n src pc) as (Ed & _ & El).
    unfold bridge_inv. rewrite Ed, El, process_pending, process_updatePending.
    split; [assumption|]. split.
    + now rewrite app_assoc, Hall.
    + destruct (pendingMessages n ++ midi src) eqn:Ep; [congruence|auto].
  - rewrite app_nil_r. unfold serviceAsyncUpdate.
    destruct (updatePending n) eqn:Eu.
    + unfold handleAsyncUpdate, bridge_inv; simpl.
      rewrite fold_left_snoc, Hd. split; [reflexivity|]. split.
      * now rewrite app_nil_r.
      * intros E; now elim E.
    + unfold bridge_inv. rewrite Eu. repeat split; auto.
Qed.

Lemma injected_app (t1 t2 : list step) :
  injected (t1 ++ t2) = injected t1 ++ @injected sample t2.
Proof. unfold injected. apply flat_map_app. Qed.

Lemma bridge_inv_run (trace : list step) (n : node)
      (all : list MidiMessageWithSource) :
  bridge_inv n all -> bridge_inv (run n trace) (all ++ injected trace).
Proof.
  revert n all. induction trace as [|s trace IH]; intros n all Hinv.
  - simpl. now rewrite app_nil_r.
  - change (s :: trace) with ([s] ++ trace).
    rewrite injected_app, app_assoc. unfold run; simpl.
    apply IH. now apply bridge_inv_step.
Qed.

Lemma bridge_inv_make : bridge_inv make [].
Proof. unfold bridge_inv, make; simpl. repeat split; auto; congruence. Qed.

End LiveMidiFacts.

Section LiveMidiBridge.
Context {sample : Type} `{Sample sample}.
Import LiveMidiOutputNode.

Local Abbreviation node := LiveMidiOutputNode.t.
Local Abbreviation buffers := (LiveMidiOutputNode.AudioAndMidiBuffer sample).
Local Abbreviation step := (LiveMidiOutputNode.step sample).

Lemma service_once (n : node) (k : nat) :
  updatePending n = true ->
  dispatches (run n (repeat (Service (sample:=sample)) (S k)))
  = S (dispatches n).
Proof.
  intros Hu.
  change (run n (repeat (Service (sample:=sample)) (S k)))
    with (run (serviceAsyncUpdate n) (repeat (Service (sample:=sample)) k)).
  rewrite service_idle.
  - unfold serviceAsyncUpdate. rewrite Hu. reflexivity.
  - unfold serviceAsyncUpdate. rewrite Hu. reflexivity.
Qed.

(** C7, as amended.  One call of [process], on an output block of the
    shape of the input block: the audio of the input is copied unchanged
    into the output context; the messages of the block are appended, in
    order, to the pending queue; triggerAsyncUpdate is called exactly when
    the pending queue is not empty after the appending, so in particular
    whenever the queue gained messages in this call; and after any run of
    blocks in which a request was made, servicing the updater once or
    more often runs the handler exactly once. *)
Theorem LiveMidiOutputNode_process_passthrough_and_wake
        (n : node) (sourceBuffers pc : buffers) :
  getNumSamples (audio pc) = getNumSamples (audio sourceBuffers) ->
  getNumChannels (audio pc) = getNumChannels (audio sourceBuffers) ->
  block_ok (audio pc) -> block_ok (audio sourceBuffers) ->
  let n' := fst (process n sourceBuffers pc) in
  let out := snd (process n sourceBuffers pc) in
  audio out = audio sourceBuffers
  /\ pendingMessages n' = pendingMessages n ++ midi sourceBuffers
  /\ (requestsNotification n sourceBuffers pc = true
      <-> pendingMessages n' <> [])
  /\ (queueGained n sourceBuffers pc = true
      -> requestsNotification n sourceBuffers pc = true)
  /\ (forall (blocks : list step) (k : nat),
        blocksOnly blocks = true ->
        requests (run n blocks) <> requests n ->
        dispatches (run (run n blocks) (repeat (Service (sample:=sample)) (S k)))
        = S (dispatches n)).
Proof.
  intros Hs Hc Hpc Hsrc n' out.
  assert (Hreq : requestsNotification n sourceBuffers pc = true
                 <-> pendingMessages n' <> []).
  { unfold requestsNotification, n'.
    rewrite process_pending, process_requests.
    destruct (pendingMessages n ++ midi sourceBuffers) eqn:Ep.
    - rewrite Nat.eqb_refl. simpl. split; [discriminate|congruence].
    - replace (Nat.eqb (S (requests n)) (requests n)) with false.
      + simpl. split; [discriminate|reflexivity].
      + symmetry. apply Nat.eqb_neq. lia. }
  split; [|split; [|split; [|split]]].
  - unfold out, process; simpl.
    now apply AudioBlock_copyFrom_same_shape.
  - apply process_pending.
  - exact Hreq.
  - intros Hg. apply Hreq. unfold queueGained in Hg.
    apply Nat.ltb_lt in Hg. fold n' in Hg.
    intros E. rewrite E in Hg. simpl in Hg. lia.
  - intros blocks k Hb Hr.
    destruct (run_blocks_requests blocks n Hb) as (Hd & _ & Hu & _).
    rewrite service_once; [now rewrite Hd | now apply Hu].
Qed.

(** C8.  Along any trace of blocks and services from the constructed
    node, the listener calls made so far followed by the pending queue
    are the injected messages, in the order they were injected.  So when
    handleAsyncUpdate runs after the trace, whether called directly or by
    the updater, the listeners have been called with every injected
    message once, in order, and both queues are empty; and when the trace
    consists of blocks only, however many, nothing was delivered before
    that run of the handler: one run delivers them all. *)
Theorem LiveMidiOutputNode_exactly_once_delivery (trace : list step) :
  let n := run make trace in
  listenerCalls n ++ pendingMessages n = injected trace
  /\ listenerCalls (handleAsyncUpdate n) = injected trace
  /\ pendingMessages (handleAsyncUpdate n) = []
  /\ dispatchingMessages (handleAsyncUpdate n) = []
  /\ listenerCalls (serviceAsyncUpdate n) = injected trace
  /\ pendingMessages (serviceAsyncUpdate n) = []
  /\ (blocksOnly trace = true ->
      listenerCalls n = [] /\ pendingMessages n = injected trace).
Proof.
  intros n.
  destruct (bridge_inv_run trace bridge_inv_make) as (Hd & Hall & Hup).
  fold n in Hd, Hall, Hup. simpl in Hall.
  assert (Hh : listenerCalls (handleAsyncUpdate n) = injected trace).
  { unfold handleAsyncUpdate; simpl. now rewrite fold_left_snoc. }
  split; [exact Hall|]. split; [exact Hh|].
  split; [exact Hd|]. split; [reflexivity|].
  assert (Hsvc : listenerCalls (serviceAsyncUpdate n) = injected trace
                 /\ pendingMessages (serviceAsyncUpdate n) = []).
  { unfold serviceAsyncUpdate. destruct (updatePending n) eqn:Eu.
    - unfold handleAsyncUpdate; simpl. rewrite fold_left_snoc. auto.
    - destruct (pendingMessages n) eqn:Ep.
      + rewrite app_nil_r in Hall. auto.
      + exfalso. assert (false = true) by (apply Hup; discriminate).
        discriminate. }
  destruct Hsvc as [Hs1 Hs2].
  split; [exact Hs1|]. split; [exact Hs2|].
  intros Hb.
  assert (Hl : listenerCalls n = []).
  { clear - Hb. unfold n. change [] with (listenerCalls make).
    generalize make. induction trace as [|s tr IH]; intros m; [reflexivity|].
    cbn [blocksOnly forallb] in Hb. apply andb_prop in Hb as [Hs Hb].
    destruct s as [src pc|]; [|discriminate].
    change (run m (Block src pc :: tr)) with (run (fst (process m src pc)) tr).
    rewrite (IH Hb). apply process_frame. }
  split; [exact Hl|]. rewrite Hl in Hall. exact Hall.
Qed.

End LiveMidiBridge.

(* ===================================================================== *)
(** ** SummingAudioNode: properties and the latency-alignment transform *)
(* ===================================================================== *)

Lemma fold_max_ge_init (l : list Z) (a : Z) : a <= fold_left Z.max l a.
Proof.
  revert a. induction l as [|x l IH]; intros a; simpl; [lia|].
  specialize (IH (Z.max a x)). lia.
Qed.

Lemma fold_max_ge_all (l : list Z) (a : Z) :
  Forall (fun x => x <= fold_left Z.max l a) l.
Proof.
  revert a. induction l as [|x l IH]; intros a; simpl; constructor.
  - pose proof (fold_max_ge_init l (Z.max a x)). lia.
  - apply IH.
Qed.

Lemma fold_max_attained (l : list Z) (a : Z) :
  fold_left Z.max l a = a \/ In (fold_left Z.max l a) l.
Proof.
  revert a. induction l as [|x l IH]; intros a; simpl; [now left|].
  destruct (IH (Z.max a x)) as [E|Hin].
  - rewrite E. destruct (Z.max_spec a x) as [[_ ->]|[_ ->]]; auto.
  - auto.
Qed.

Lemma fold_max_maximumOf (l : list Z) :
  Forall (fun x => 0 <= x) l -> maximumOf (fold_left Z.max l 0) l.
Proof.
  intros Hpos. split; [apply fold_max_ge_all|].
  destruct (fold_max_attained l 0) as [E|Hin]; [|now left].
  destruct l as [|x l]; [right; auto|left].
  rewrite E. pose proof (fold_max_ge_all (x :: l) 0) as Hle. rewrite E in Hle.
  inversion Hle; inversion Hpos; subst. left. lia.
Qed.

Lemma fold_max_constant (l : list Z) (m : Z) :
  0 <= m -> l <> [] -> Forall (fun x => x = m) l -> fold_left Z.max l 0 = m.
Proof.
  intros Hm Hne Hall.
  destruct (fold_max_attained l 0) as [E|Hin].
  - pose proof (fold_max_ge_all l 0) as Hle. rewrite E in *.
    destruct l as [|x l]; [congruence|].
    inversion Hle; inversion Hall; subst. lia.
  - rewrite Forall_forall in Hall. now apply Hall.
Qed.

Section SummingFacts.
Context {sample : Type} `{Sample sample}.

Local Abbreviation node := (AudioNode sample).

Lemma fold_merge (nodes : list node) (p : AudioNodeProperties) :
  fold_left (fun props n => mergeProperties props (getAudioNodeProperties n))
            nodes p
  = mkProps
      (fold_left orb (map (fun n => hasAudio (getAudioNodeProperties n)) nodes)
                 (hasAudio p))
      (fold_left orb (map (fun n => hasMidi (getAudioNodeProperties n)) nodes)
                 (hasMidi p))
      (fold_left Z.max
                 (map (fun n => numberOfChannels (getAudioNodeProperties n)) nodes)
                 (numberOfChannels p))
      (fold_left Z.max (map latencyOf nodes) (latencyNumSamples p)).
Proof.
  revert p. induction nodes as [|n nodes IH]; intros p; simpl.
  - now destruct p.
  - rewrite IH. reflexivity.
Qed.

Lemma fold_orb_existsb (l : list bool) (a : bool) :
  fold_left orb l a = a || existsb (fun b => b) l.
Proof.
  revert a. induction l as [|b l IH]; intros a; simpl.
  - now rewrite orb_false_r.
  - rewrite IH. now rewrite orb_assoc.
Qed.

Lemma existsb_map (A : Type) (f : A -> bool) (l : list A) :
  existsb (fun b => b) (map f l) = existsb f l.
Proof. induction l as [|a l IH]; simpl; congruence. Qed.

Lemma summing_latency (self : ptr) (ownedNodes : list ptr) (nodes : list node) :
  latencyOf (SummingAudioNode self ownedNodes nodes)
  = fold_left Z.max (map latencyOf nodes) 0.
Proof. unfold latencyOf at 1; simpl. now rewrite fold_merge. Qed.

(** C4.  The properties of a summing node whose inputs declare channel
    counts and latencies that are not negative: hasAudio and hasMidi are
    the OR of the flags of the direct inputs, numberOfChannels and
    latencyNumSamples are the maxima over the direct inputs. *)
Theorem SummingAudioNode_property_aggregation
        (self : ptr) (ownedNodes : list ptr) (nodes : list node) :
  Forall (fun n => 0 <= numberOfChannels (getAudioNodeProperties n)
                   /\ 0 <= latencyOf n) nodes ->
  let props := getAudioNodeProperties (SummingAudioNode self ownedNodes nodes) in
  hasAudio props = existsb (fun n => hasAudio (getAudioNodeProperties n)) nodes
  /\ hasMidi props = existsb (fun n => hasMidi (getAudioNodeProperties n)) nodes
  /\ maximumOf (numberOfChannels props)
               (map (fun n => numberOfChannels (getAudioNodeProperties n)) nodes)
  /\ maximumOf (latencyNumSamples props) (map latencyOf nodes).
Proof.
  intros Hpos props. unfold props; simpl. rewrite fold_merge; simpl.
  rewrite !fold_orb_existsb, !existsb_map; simpl.
  repeat split; try reflexivity.
  - apply fold_max_ge_all.
  - apply fold_max_maximumOf. rewrite Forall_map.
    eapply Forall_impl; [|exact Hpos]. simpl; tauto.
  - apply fold_max_ge_all.
  - apply fold_max_maximumOf. rewrite Forall_map.
    eapply Forall_impl; [|exact Hpos]. simpl; tauto.
Qed.

End SummingFacts.

Section TransformFacts.
Context {sample : Type} `{Sample sample}.

Local Abbreviation node := (AudioNode sample).

Lemma remove_null_app (A : Type) (a b : list (option A)) :
  remove_null (a ++ b) = remove_null a ++ remove_null b.
Proof.
  induction a as [|[x|] a IH]; simpl; auto. now rewrite IH.
Qed.

Lemma remove_null_map_Some (A : Type) (l : list A) :
  remove_null (map Some l) = l.
Proof. induction l as [|x l IH]; simpl; congruence. Qed.

Lemma remove_null_keep (A : Type) (p : A -> bool) (l : list A) :
  remove_null (map (fun n => if p n then Some n else None) l) = filter p l.
Proof.
  induction l as [|x l IH]; simpl; auto.
  destruct (p x); simpl; congruence.
Qed.

Lemma filter_split_Permutation (A : Type) (p : A -> bool) (l : list A) :
  Permutation (filter p l ++ filter (fun x => negb (p x)) l) l.
Proof.
  induction l as [|x l IH]; simpl; auto.
  destruct (p x); simpl.
  - now constructor.
  - apply Permutation_sym, Permutation_cons_app, Permutation_sym, IH.
Qed.

(** The first loop of the transform: an entry at the maximum stays, any
    other entry becomes a null and has a prepared delay node queued for
    it, in the order of the entries. *)
Lemma createLatencyNodes_loop_spec (info : PlaybackInitialisationInfo)
      (maxLatency : Z) (nodes : list node) :
  forall (owned : list (option ptr)) (toAdd : list node) (next : ptr),
  exists (owned' : list (option ptr)) (inserted : list node),
    createLatencyNodes_loop info maxLatency nodes owned toAdd next
    = (map (fun n => if atLatency maxLatency n then Some n else None) nodes,
       owned', toAdd ++ inserted, (next + length inserted)%nat)
    /\ Forall2 (insertedFor info maxLatency)
               (filter (fun n => negb (atLatency maxLatency n)) nodes)
               inserted.
Proof.
  induction nodes as [|n nodes IH]; intros owned toAdd next.
  - exists owned, []. simpl. rewrite app_nil_r, Nat.add_0_r. auto.
  - cbn [createLatencyNodes_loop map filter].
    change (maxLatency - latencyNumSamples (getAudioNodeProperties n) =? 0)
      with (atLatency maxLatency n).
    destruct (atLatency maxLatency n) eqn:Ek.
    + destruct (IH owned toAdd next) as (owned' & inserted & E & F).
      rewrite E. exists owned', inserted. simpl. auto.
    + destruct (getOwnedNode owned (addressOf n)) as [owned1 ownedNode].
      match goal with
      | |- context [initialise info ?x] => set (latencyNode := initialise info x)
      end.
      destruct (IH owned1 (toAdd ++ [latencyNode]) (S next))
        as (owned' & inserted & E & F).
      rewrite E. exists owned', (latencyNode :: inserted). split.
      * rewrite <- app_assoc. simpl. do 2 f_equal. lia.
      * simpl. constructor; [|exact F].
        unfold latencyNode.
        destruct ownedNode; [exists next, true | exists next, false];
          reflexivity.
Qed.

(** The direct inputs after the transform. *)
Lemma createLatencyNodes_nodes (info : PlaybackInitialisationInfo)
      (self : ptr) (ownedNodes : list ptr) (nodes : list node) (next : ptr) :
  let maxLatency := latencyOf (SummingAudioNode self ownedNodes nodes) in
  exists inserted : list node,
    snd (fst (createLatencyNodes info self ownedNodes nodes next))
    = filter (atLatency maxLatency) nodes ++ inserted
    /\ Forall2 (insertedFor info maxLatency)
               (filter (fun n => negb (atLatency maxLatency n)) nodes)
               inserted.
Proof.
  intros maxLatency. unfold createLatencyNodes.
  fold (latencyOf (SummingAudioNode self ownedNodes nodes)).
  fold maxLatency.
  destruct (createLatencyNodes_loop_spec info maxLatency nodes
              (map Some ownedNodes) [] next) as (owned' & inserted & E & F).
  rewrite E. simpl. exists inserted. split; [|exact F].
  now rewrite remove_null_app, remove_null_keep, remove_null_map_Some.
Qed.

Lemma prepareToPlay_direct_inputs (info : PlaybackInitialisationInfo)
      (self : ptr) (ownedNodes : list ptr) (nodes : list node) (next : ptr) :
  getDirectInputNodes
    (fst (SummingAudioNode_prepareToPlay
            info (SummingAudioNode self ownedNodes nodes) next))
  = snd (fst (createLatencyNodes info self ownedNodes nodes next)).
Proof.
  unfold SummingAudioNode_prepareToPlay.
  destruct (createLatencyNodes info self ownedNodes nodes next)
    as [[owned' nodes'] next']. reflexivity.
Qed.

Lemma insertedFor_inputs (info : PlaybackInitialisationInfo) (maxLatency : Z)
      (origs inserted : list node) :
  Forall2 (insertedFor info maxLatency) origs inserted ->
  flat_map getDirectInputNodes inserted = origs.
Proof.
  induction 1 as [|o n origs inserted (self & owned & ->) _ IH]; simpl;
    congruence.
Qed.

Lemma insertedFor_latency (info : PlaybackInitialisationInfo) (maxLatency : Z)
      (origs inserted : list node) :
  Forall2 (insertedFor info maxLatency) origs inserted ->
  Forall (fun n => latencyOf n = maxLatency) inserted.
Proof.
  induction 1 as [|o n origs inserted (self & owned & ->) _ IH];
    constructor; auto.
  unfold latencyOf; simpl. unfold latencyOf. lia.
Qed.

Lemma atLatency_true (maxLatency : Z) (n : node) :
  atLatency maxLatency n = true <-> latencyOf n = maxLatency.
Proof. unfold atLatency. rewrite Z.eqb_eq. lia. Qed.

End TransformFacts.

Section TransformTheorems.
Context {sample : Type} `{Sample sample}.

Local Abbreviation node := (AudioNode sample).

Lemma map_repeat (A B : Type) (f : A -> B) (a : A) (n : nat) :
  map f (repeat a n) = repeat (f a) n.
Proof. induction n as [|n IH]; simpl; congruence. Qed.

(** A delay node made by prepareToPlay for a positive delay is primed. *)
Lemma prepareToPlay_primed (info : PlaybackInitialisationInfo)
      (self : ptr) (owned : bool) (input : node) (latency : Z)
      (st : LatencyAudioNode_state sample) :
  0 <= blockSize info -> 0 <= latency ->
  delayLinePrimed info
    (LatencyAudioNode self owned input latency
       (LatencyAudioNode_prepareToPlay
          (numberOfChannels (getAudioNodeProperties input)) latency info st)).
Proof.
  intros Hb Hl. unfold delayLinePrimed, LatencyAudioNode_prepareToPlay.
  cbn [fifo]. unfold AudioFifo.writeSilence, AudioFifo.getFreeSpace,
              AudioFifo.setSize, AudioFifo.getNumReady.
  cbn [AudioFifo.totalSize AudioFifo.numReady AudioFifo.buffer].
  destruct (latency <=? 0) eqn:E0.
  - apply Z.leb_le in E0. assert (latency = 0) as -> by lia.
    cbn [fst AudioFifo.totalSize AudioFifo.numReady AudioFifo.buffer].
    repeat split; auto.
  - replace (latency + blockSize info + 1 - 0 - 1 <? latency) with false
      by (symmetry; apply Z.ltb_ge; lia).
    cbn [fst AudioFifo.totalSize AudioFifo.numReady AudioFifo.buffer].
    repeat split; auto. now rewrite map_repeat.
Qed.

(** C10.  After createLatencyNodes the direct inputs are, first, the
    original inputs that already were at the maximum latency, in their
    original order, and then one new LatencyAudioNode for each of the
    other inputs, in their original order; each new node has exactly one
    direct input, the original it stands for, so that the originals
    reached through the new list are a permutation of the original list
    (none lost, none twice); and each new node has been prepared with the
    playback info: its delay line is primed for the block size. *)
Theorem createLatencyNodes_direct_inputs
        (info : PlaybackInitialisationInfo)
        (self : ptr) (ownedNodes : list ptr) (nodes : list node) (next : ptr) :
  0 <= blockSize info ->
  let maxLatency := latencyOf (SummingAudioNode self ownedNodes nodes) in
  let prepared := fst (SummingAudioNode_prepareToPlay
                         info (SummingAudioNode self ownedNodes nodes) next) in
  let kept := filter (atLatency maxLatency) nodes in
  let wrapped := filter (fun n => negb (atLatency maxLatency n)) nodes in
  exists inserted : list node,
    getDirectInputNodes prepared = kept ++ inserted
    /\ Forall2 (insertedFor info maxLatency) wrapped inserted
    /\ map getDirectInputNodes inserted = map (fun orig => [orig]) wrapped
    /\ Permutation (kept ++ flat_map getDirectInputNodes inserted) nodes
    /\ Forall (delayLinePrimed info) inserted.
Proof.
  intros Hb maxLatency prepared kept wrapped.
  destruct (createLatencyNodes_nodes info self ownedNodes nodes next)
    as (inserted & E & F).
  fold maxLatency in E, F. fold kept in E. fold wrapped in F.
  exists inserted. split; [|split; [|split; [|split]]].
  - unfold prepared. now rewrite prepareToPlay_direct_inputs.
  - exact F.
  - clear E. induction F as [|o n os ns (s & ow & ->) _ IH]; simpl; congruence.
  - rewrite (insertedFor_inputs F). apply filter_split_Permutation.
  - assert (Hge : Forall (fun n => 0 <= maxLatency - latencyOf n) wrapped).
    { unfold wrapped. apply Forall_forall. intros n Hn.
      apply filter_In in Hn as [Hn _].
      unfold maxLatency. rewrite summing_latency.
      pose proof (fold_max_ge_all (map latencyOf nodes) 0) as Hall.
      rewrite Forall_forall in Hall.
      specialize (Hall (latencyOf n) (in_map _ _ _ Hn)). lia. }
    clear E. induction F as [|o n os ns (s & ow & ->) _ IH]; constructor.
    + inversion Hge; subst. now apply prepareToPlay_primed.
    + inversion Hge; subst. now apply IH.
Qed.

(** C1.  A summing node whose direct inputs declare latencies that are
    not negative: after prepareToPlay the latency of the node is the
    maximum of the latencies its inputs declared before, and every direct
    input of the prepared node declares exactly that latency. *)
Theorem SummingAudioNode_latency_convergence
        (info : PlaybackInitialisationInfo)
        (self : ptr) (ownedNodes : list ptr) (nodes : list node) (next : ptr) :
  Forall (fun n => 0 <= latencyOf n) nodes ->
  let prepared := fst (SummingAudioNode_prepareToPlay
                         info (SummingAudioNode self ownedNodes nodes) next) in
  maximumOf (latencyOf prepared) (map latencyOf nodes)
  /\ Forall (fun n => latencyOf n = latencyOf prepared)
            (getDirectInputNodes prepared).
Proof.
  intros Hpos prepared.
  set (maxLatency := latencyOf (SummingAudioNode self ownedNodes nodes)).
  destruct (createLatencyNodes_nodes info self ownedNodes nodes next)
    as (inserted & E & F).
  fold maxLatency in E, F.
  assert (Hin : getDirectInputNodes prepared
                = filter (atLatency maxLatency) nodes ++ inserted).
  { unfold prepared. now rewrite prepareToPlay_direct_inputs. }
  assert (Hall : Forall (fun n => latencyOf n = maxLatency)
                        (getDirectInputNodes prepared)).
  { rewrite Hin. apply Forall_app. split.
    - apply Forall_forall. intros n Hn. apply filter_In in Hn as [_ Hk].
      now apply atLatency_true.
    - eapply insertedFor_latency; eauto. }
  assert (Hmax : maximumOf maxLatency (map latencyOf nodes)).
  { unfold maxLatency. rewrite summing_latency.
    apply fold_max_maximumOf. now rewrite Forall_map. }
  assert (Hsame : latencyOf prepared = maxLatency).
  { assert (Hp : prepared = SummingAudioNode
                              self
                              (fst (fst (createLatencyNodes
                                           info self ownedNodes nodes next)))
                              (getDirectInputNodes prepared)).
    { unfold prepared, SummingAudioNode_prepareToPlay.
      destruct (createLatencyNodes info self ownedNodes nodes next)
        as [[owned' nodes'] next']. reflexivity. }
    rewrite Hp, summing_latency.
    destruct (getDirectInputNodes prepared) as [|d ds] eqn:Ed.
    - (* no direct inputs after the transform: there were none before *)
      destruct nodes as [|n0 nodes0].
      + unfold maxLatency. now rewrite summing_latency.
      + exfalso. apply (f_equal (@length _)) in Hin.
        rewrite length_app in Hin.
        apply Forall2_length in F.
        pose proof (filter_split_Permutation (atLatency maxLatency) (n0 :: nodes0)) as P.
        apply Permutation_length in P. rewrite length_app in P.
        change (length (n0 :: nodes0)) with (S (length nodes0)) in P.
        change (@length node []) with 0%nat in Hin. lia.
    - apply fold_max_constant.
      + unfold maxLatency. rewrite summing_latency. apply fold_max_ge_init.
      + discriminate.
      + now rewrite Forall_map. }
  rewrite Hsame. split; assumption.
Qed.

End TransformTheorems.

(* ===================================================================== *)
(** ** LatencyAudioNode: the delay line *)
(* ===================================================================== *)

Section ChannelFacts.
Context {sample : Type} `{Sample sample}.

Lemma add_samples_nil_r (dst : list sample) : add_samples dst [] = dst.
Proof. now destruct dst. Qed.

Lemma length_add_samples (dst src : list sample) :
  length (add_samples dst src) = length dst.
Proof.
  revert src. induction dst as [|d dst IH]; intros [|s src]; simpl; auto.
Qed.

Lemma nth_add_samples (dst src : list sample) (i : nat) (z : sample) :
  (i < length dst)%nat -> (i < length src)%nat ->
  nth i (add_samples dst src) z = sadd (nth i dst z) (nth i src z).
Proof.
  revert src i. induction dst as [|d dst IH]; intros [|s src] [|i] Hd Hs;
    simpl in *; try lia; auto.
  apply IH; lia.
Qed.

Lemma add_samples_silence (n : nat) (src : list sample) :
  length src = n -> add_samples (repeat szero n) src = map (sadd szero) src.
Proof.
  revert src. induction n as [|n IH]; intros [|s src] E; simpl in *;
    try discriminate; auto.
  f_equal. apply IH. lia.
Qed.

Lemma length_add_channels (dst src : list (list sample)) :
  length (add_channels dst src) = length dst.
Proof.
  revert src. induction dst as [|d dst IH]; intros [|s src]; simpl; auto.
Qed.

Lemma nth_add_channels (dst src : list (list sample)) (c : nat) :
  nth c (add_channels dst src) []
  = add_samples (nth c dst []) (nth c src []).
Proof.
  revert src c. induction dst as [|d dst IH]; intros [|s src] [|c];
    simpl; auto using add_samples_nil_r.
Qed.

Lemma add_channels_nil_channels (dst src : list (list sample)) :
  Forall (fun s => s = []) src -> add_channels dst src = dst.
Proof.
  revert src. induction dst as [|d dst IH]; intros [|s src] Hs; simpl; auto.
  inversion Hs; subst. now rewrite add_samples_nil_r, IH.
Qed.

Lemma length_append_channels (buf src : list (list sample)) :
  length (AudioFifo.append_channels buf src) = length buf.
Proof.
  revert src. induction buf as [|b buf IH]; intros [|s src]; simpl; auto.
Qed.

Lemma nth_append_channels (buf src : list (list sample)) (c : nat) :
  (c < length buf)%nat ->
  nth c (AudioFifo.append_channels buf src) [] = nth c buf [] ++ nth c src [].
Proof.
  revert src c. induction buf as [|b buf IH]; intros [|s src] [|c] Hc;
    simpl in *; try lia; auto using app_nil_r.
  apply IH. lia.
Qed.

Lemma append_channels_nil_channels (buf src : list (list sample)) :
  Forall (fun s => s = []) src -> AudioFifo.append_channels buf src = buf.
Proof.
  revert src. induction buf as [|b buf IH]; intros [|s src] Hs; simpl; auto.
  inversion Hs; subst. now rewrite app_nil_r, IH.
Qed.

Lemma append_channels_lengths (buf src : list (list sample)) (a b : nat) :
  length buf = length src ->
  Forall (fun ch => length ch = a) buf ->
  Forall (fun ch => length ch = b) src ->
  Forall (fun ch => length ch = (a + b)%nat) (AudioFifo.append_channels buf src).
Proof.
  revert src. induction buf as [|x buf IH]; intros [|s src] E Hb Hs;
    simpl in *; try discriminate; constructor.
  - inversion Hb; inversion Hs; subst. now rewrite length_app.
  - inversion Hb; inversion Hs; subst. apply IH; auto.
Qed.

Lemma map_id_ext (A : Type) (f : A -> A) (l : list A) :
  (forall x, f x = x) -> map f l = l.
Proof. intros E. induction l as [|x l IH]; simpl; congruence. Qed.

Lemma firstn_plus (A : Type) (k n : nat) (l : list A) :
  firstn (k + n) l = firstn k l ++ firstn n (skipn k l).
Proof.
  revert l. induction k as [|k IH]; intros [|x l]; simpl; auto.
  - now rewrite firstn_nil.
  - now rewrite IH.
Qed.

(** A write that fits. *)
Lemma write_fits (f : AudioFifo.t sample) (b : AudioBlock sample) :
  Z.of_nat (getNumSamples b) <= AudioFifo.getFreeSpace f ->
  block_ok b ->
  AudioFifo.write f b
  = (AudioFifo.mkFifo (AudioFifo.totalSize f)
                      (AudioFifo.numReady f + Z.of_nat (getNumSamples b))
                      (AudioFifo.append_channels (AudioFifo.buffer f)
                                                 (channelData b)),
     true).
Proof.
  intros Hfree Hok. unfold AudioFifo.write.
  destruct (Z.of_nat (getNumSamples b) <=? 0) eqn:E0.
  - apply Z.leb_le in E0. assert (E : getNumSamples b = 0%nat) by lia.
    rewrite E. rewrite append_channels_nil_channels.
    + destruct f; simpl. now rewrite Z.add_0_r.
    + eapply Forall_impl; [|exact Hok]. simpl. intros ch Hch.
      rewrite E in Hch. now apply length_zero_iff_nil.
  - replace (AudioFifo.getFreeSpace f <? Z.of_nat (getNumSamples b))
      with false by (symmetry; apply Z.ltb_ge; lia).
    reflexivity.
Qed.

(** A read that finds its samples. *)
Lemma readAdding_enough (f : AudioFifo.t sample) (dest : AudioBlock sample) :
  Z.of_nat (getNumSamples dest) <= AudioFifo.numReady f ->
  AudioFifo.readAdding f dest
  = (AudioFifo.mkFifo (AudioFifo.totalSize f)
                      (AudioFifo.numReady f - Z.of_nat (getNumSamples dest))
                      (map (skipn (getNumSamples dest)) (AudioFifo.buffer f)),
     mkBlock (getNumSamples dest)
             (add_channels (channelData dest)
                           (map (firstn (getNumSamples dest))
                                (AudioFifo.buffer f))),
     true).
Proof.
  intros Hready. unfold AudioFifo.readAdding.
  destruct (Z.of_nat (getNumSamples dest) <=? 0) eqn:E0.
  - apply Z.leb_le in E0. assert (E : getNumSamples dest = 0%nat) by lia.
    rewrite E. rewrite add_channels_nil_channels.
    + rewrite map_id_ext by reflexivity.
      destruct f, dest; simpl in *. subst. now rewrite Z.sub_0_r.
    + apply Forall_forall. intros s Hs. apply in_map_iff in Hs.
      now destruct Hs as (x & <- & _).
  - replace (AudioFifo.numReady f <? Z.of_nat (getNumSamples dest))
      with false by (symmetry; apply Z.ltb_ge; lia).
    reflexivity.
Qed.

End ChannelFacts.

Section DelayFacts.
Context {sample : Type} `{Sample sample}.

Local Abbreviation state := (LatencyAudioNode_state sample).
Local Abbreviation buffers := (AudioAndMidiBuffer sample).

(** A freshly prepared delay line is ready. *)
Lemma prepareToPlay_ready (info : PlaybackInitialisationInfo)
      (numChannels latency : Z) (st : state) :
  0 <= latency -> 0 <= blockSize info ->
  let f := fifo (LatencyAudioNode_prepareToPlay numChannels latency info st) in
  delayLineReady latency (blockSize info) (Z.to_nat numChannels) f
  /\ AudioFifo.buffer f
     = repeat (repeat szero (Z.to_nat latency)) (Z.to_nat numChannels).
Proof.
  intros Hl Hb. unfold LatencyAudioNode_prepareToPlay, delayLineReady.
  cbn [fifo]. unfold AudioFifo.writeSilence, AudioFifo.getFreeSpace,
              AudioFifo.setSize.
  cbn [AudioFifo.totalSize AudioFifo.numReady AudioFifo.buffer].
  destruct (latency <=? 0) eqn:E0.
  - apply Z.leb_le in E0. assert (latency = 0) as -> by lia.
    cbn [fst AudioFifo.totalSize AudioFifo.numReady AudioFifo.buffer].
    rewrite repeat_length. repeat split; auto.
    apply Forall_forall. intros ch Hch. apply repeat_spec in Hch. now subst.
  - replace (latency + blockSize info + 1 - 0 - 1 <? latency) with false
      by (symmetry; apply Z.ltb_ge; lia).
    cbn [fst AudioFifo.totalSize AudioFifo.numReady AudioFifo.buffer].
    rewrite map_repeat, repeat_length. simpl.
    repeat split; auto.
    apply Forall_forall. intros ch Hch. apply repeat_spec in Hch.
    subst. apply repeat_length.
Qed.

(** One call of [process] on a ready delay line, for a block that is not
    longer than the block size of the preparation. *)
Lemma process_audio (latency blockSz : Z) (numChannels n : nat)
      (st : state) (inputOutput pc : buffers) :
  0 <= latency ->
  delayLineReady latency blockSz numChannels (fifo st) ->
  getNumSamples (audio inputOutput) = n ->
  Z.of_nat n <= blockSz ->
  getNumChannels (audio inputOutput) = numChannels ->
  block_ok (audio inputOutput) ->
  getNumSamples (audio pc) = n ->
  let r := LatencyAudioNode_process latency st inputOutput pc in
  let all := AudioFifo.append_channels (AudioFifo.buffer (fifo st))
                                       (channelData (audio inputOutput)) in
  AudioFifo.buffer (fifo (fst r)) = map (skipn n) all
  /\ audio (snd r)
     = mkBlock n (add_channels (channelData (audio pc)) (map (firstn n) all))
  /\ delayLineReady latency blockSz numChannels (fifo (fst r))
  /\ LatencyAudioNode_process_asserts st inputOutput pc = true
  /\ LatencyAudioNode_process_readOk st inputOutput pc = true.
Proof.
  intros Hl (Ht & Hr & Hlen & Hch) Hn Hle Hc Hok Hpc r all.
  assert (Hw : AudioFifo.write (fifo st) (audio inputOutput)
               = (AudioFifo.mkFifo (latency + blockSz + 1)
                                   (latency + Z.of_nat n) all, true)).
  { rewrite write_fits; auto.
    - now rewrite Ht, Hr, Hn.
    - unfold AudioFifo.getFreeSpace. lia. }
  assert (Hrd : AudioFifo.readAdding
                  (AudioFifo.mkFifo (latency + blockSz + 1)
                                    (latency + Z.of_nat n) all) (audio pc)
                = (AudioFifo.mkFifo (latency + blockSz + 1) latency
                                    (map (skipn n) all),
                   mkBlock n (add_channels (channelData (audio pc))
                                           (map (firstn n) all)),
                   true)).
  { rewrite readAdding_enough; rewrite Hpc; simpl; [|lia].
    do 3 f_equal. lia. }
  assert (Hall : Forall (fun ch => length ch = (Z.to_nat latency + n)%nat) all).
  { apply append_channels_lengths; auto.
    - unfold getNumChannels in Hc. congruence.
    - now rewrite <- Hn. }
  split; [|split; [|split; [|split]]].
  - unfold r, LatencyAudioNode_process. rewrite Hw. cbn [fst].
    rewrite Hrd. reflexivity.
  - unfold r, LatencyAudioNode_process. rewrite Hw. cbn [fst].
    rewrite Hrd. reflexivity.
  - unfold r, LatencyAudioNode_process. rewrite Hw. cbn [fst].
    rewrite Hrd. cbn [fst fifo]. unfold delayLineReady.
    cbn [AudioFifo.totalSize AudioFifo.numReady AudioFifo.buffer].
    rewrite length_map. unfold all at 1. rewrite length_append_channels.
    repeat split; auto.
    rewrite Forall_map. eapply Forall_impl; [|exact Hall].
    simpl. intros ch E. rewrite length_skipn. lia.
  - unfold LatencyAudioNode_process_asserts. rewrite Hw. cbn [fst].
    unfold AudioFifo.getNumChannels, AudioFifo.getNumReady.
    cbn [AudioFifo.numReady].
    rewrite Hn, Hpc, Hlen, Hc, !Nat.eqb_refl. simpl.
    apply Z.leb_le. lia.
  - unfold LatencyAudioNode_process_readOk. rewrite Hw. cbn [fst].
    now rewrite Hrd.
Qed.

(** Along a run of blocks of the prepared size the delay line stays
    ready and every check holds. *)
Lemma processAll_checks (latency blockSz : Z) (numChannels : nat)
      (calls : list (buffers * buffers)) :
  0 <= latency ->
  Forall (fun call =>
            Z.of_nat (getNumSamples (audio (fst call))) = blockSz
            /\ Z.of_nat (getNumSamples (audio (snd call))) = blockSz
            /\ getNumChannels (audio (fst call)) = numChannels
            /\ block_ok (audio (fst call))) calls ->
  forall st : state,
    delayLineReady latency blockSz numChannels (fifo st) ->
    Forall (fun c => c = (true, true))
           (LatencyAudioNode_checks latency st calls)
    /\ delayLineReady latency blockSz numChannels
         (fifo (fst (LatencyAudioNode_processAll latency st calls)))
    /\ Forall (fun out => Z.of_nat (getNumSamples (audio out)) = blockSz)
              (snd (LatencyAudioNode_processAll latency st calls))
    /\ length (snd (LatencyAudioNode_processAll latency st calls))
       = length calls.
Proof.
  intros Hl Hcalls. induction Hcalls as [|[i pc] calls (Hi & Hp & Hc & Hok) _ IH];
    intros st Hst.
  - simpl. split; [constructor|]. split; [exact Hst|].
    split; [constructor|reflexivity].
  - cbn [fst snd] in Hi, Hp, Hc, Hok.
    destruct (@process_audio latency blockSz numChannels
                (getNumSamples (audio i)) st i pc)
      as (_ & Ea & Hready & Has & Hrd); auto; try lia.
    destruct (IH _ Hready) as (IH1 & IH2 & IH3 & IH4).
    cbn [LatencyAudioNode_checks LatencyAudioNode_processAll fst snd].
    rewrite Has, Hrd. split; [constructor; auto|]. split; [exact IH2|].
    split.
    + constructor; auto. rewrite Ea. simpl. exact Hi.
    + simpl. now rewrite IH4.
Qed.

End DelayFacts.

Section DelayStreams.
Context {sample : Type} `{Sample sample}.

Local Abbreviation state := (LatencyAudioNode_state sample).
Local Abbreviation buffers := (AudioAndMidiBuffer sample).

Lemma nth_map_default (A B : Type) (f : A -> B) (l : list A)
      (d : A) (d' : B) (c : nat) :
  f d = d' -> nth c (map f l) d' = f (nth c l d).
Proof. intros <-. apply map_nth. Qed.

Lemma nth_channel_length (chans : list (list sample)) (n c : nat) :
  Forall (fun ch => length ch = n) chans -> (c < length chans)%nat ->
  length (nth c chans []) = n.
Proof.
  intros Hall Hc. rewrite Forall_forall in Hall. apply Hall. now apply nth_In.
Qed.

Lemma firstn_app_le (A : Type) (n : nat) (l1 l2 : list A) :
  (n <= length l1)%nat -> firstn n (l1 ++ l2) = firstn n l1.
Proof.
  intros Hn. rewrite firstn_app.
  replace (n - length l1)%nat with 0%nat by lia. simpl. apply app_nil_r.
Qed.

Lemma skipn_app_le (A : Type) (n : nat) (l1 l2 : list A) :
  (n <= length l1)%nat -> skipn n (l1 ++ l2) = skipn n l1 ++ l2.
Proof.
  intros Hn. rewrite skipn_app.
  replace (n - length l1)%nat with 0%nat by lia. reflexivity.
Qed.

(** What one call does to channel [c]: the output channel is the
    context's channel with the delayed samples added, and the ring keeps
    the rest. *)
Lemma process_channel (latency blockSz : Z) (numChannels n : nat)
      (st : state) (inputOutput pc : buffers) (c : nat) :
  0 <= latency ->
  delayLineReady latency blockSz numChannels (fifo st) ->
  getNumSamples (audio inputOutput) = n ->
  Z.of_nat n <= blockSz ->
  getNumChannels (audio inputOutput) = numChannels ->
  block_ok (audio inputOutput) ->
  getNumSamples (audio pc) = n ->
  (c < numChannels)%nat ->
  let r := LatencyAudioNode_process latency st inputOutput pc in
  channel (audio (snd r)) c
  = add_samples (channel (audio pc) c) (delayedSamples st inputOutput c)
  /\ nth c (AudioFifo.buffer (fifo (fst r))) []
     = skipn n (nth c (AudioFifo.buffer (fifo st)) []
                ++ channel (audio inputOutput) c)
  /\ length (delayedSamples st inputOutput c) = n.
Proof.
  intros Hl Hready Hn Hle Hc Hok Hpc Hlt r.
  destruct (@process_audio _ _ latency blockSz numChannels n st inputOutput pc)
    as (Eb & Ea & _); auto.
  destruct Hready as (_ & _ & Hlen & Hch).
  fold r in Eb, Ea. rewrite Eb, Ea. unfold channel, delayedSamples.
  cbn [channelData]. rewrite nth_add_channels.
  rewrite !(@nth_map_default _ _ _ _ [] []);
    [|apply skipn_nil|apply firstn_nil].
  rewrite nth_append_channels by lia. rewrite Hn.
  split; [reflexivity|]. split; [reflexivity|].
  rewrite length_firstn, length_app.
  rewrite (nth_channel_length (n:=Z.to_nat latency)) by (auto; lia).
  unfold channel. rewrite (nth_channel_length (n:=n)).
  - lia.
  - unfold block_ok in Hok. now rewrite Hn in Hok.
  - unfold getNumChannels in Hc. lia.
Qed.

(** The delay line over a run of blocks, each processed into a cleared
    context: on every channel the output stream is what the ring held
    followed by the input stream, cut to the length processed, each
    sample added to silence. *)
Lemma processAll_stream (latency blockSz : Z) (numChannels n : nat)
      (ins : list buffers) (c : nat) :
  0 <= latency -> Z.of_nat n <= blockSz -> (c < numChannels)%nat ->
  Forall (fun i => getNumSamples (audio i) = n
                   /\ getNumChannels (audio i) = numChannels
                   /\ block_ok (audio i)) ins ->
  forall st : state,
    delayLineReady latency blockSz numChannels (fifo st) ->
    channelStream c
      (map audio
           (snd (LatencyAudioNode_processAll
                   latency st
                   (map (fun i => (i, clearedContext numChannels n)) ins))))
    = map (sadd szero)
          (firstn (n * length ins)
                  (nth c (AudioFifo.buffer (fifo st)) []
                   ++ channelStream c (map audio ins))).
Proof.
  intros Hl Hle Hc Hins.
  induction Hins as [|i ins (Hn & Hch & Hok) _ IH]; intros st Hready.
  - simpl. now rewrite Nat.mul_0_r.
  - cbn [map LatencyAudioNode_processAll fst snd channelStream flat_map].
    fold (channelStream c (map audio ins)).
    match goal with
    | |- context [LatencyAudioNode_processAll latency ?s ?cs] =>
        fold (channelStream c
                (map audio (snd (LatencyAudioNode_processAll latency s cs))))
    end.
    destruct (@process_channel latency blockSz numChannels n st i
                (clearedContext numChannels n) c)
      as (Eo & Ef & Hd); auto.
    destruct (@process_audio _ _ latency blockSz numChannels n st i
                (clearedContext numChannels n))
      as (_ & _ & Hready' & _); auto.
    rewrite (IH _ Hready'), Eo, Ef.
    assert (Ez : channel (audio (clearedContext numChannels n)) c
                 = repeat szero n).
    { unfold channel, clearedContext, silentBlock; simpl.
      now apply nth_repeat_lt. }
    rewrite Ez, add_samples_silence by exact Hd.
    rewrite <- map_app. f_equal.
    cbn [length].
    replace (n * S (length ins))%nat with (n + n * length ins)%nat by lia.
    rewrite firstn_plus. unfold delayedSamples. rewrite Hn.
    destruct Hready as (_ & _ & Hlen & Hall).
    set (F := nth c (AudioFifo.buffer (fifo st)) []).
    set (B := channel (audio i) c).
    assert (HB : length B = n).
    { unfold B, channel. apply nth_channel_length; auto.
      - now rewrite <- Hn.
      - unfold getNumChannels in Hch. lia. }
    rewrite app_assoc.
    rewrite (@firstn_app_le _ n (F ++ B)), (@skipn_app_le _ n (F ++ B))
      by (rewrite length_app; lia).
    reflexivity.
Qed.

Lemma add_samples_app (a1 a2 b1 b2 : list sample) :
  length a1 = length b1 ->
  add_samples (a1 ++ a2) (b1 ++ b2) = add_samples a1 b1 ++ add_samples a2 b2.
Proof.
  revert b1. induction a1 as [|x a1 IH]; intros [|y b1] E;
    try discriminate E; [reflexivity|].
  simpl. f_equal. apply IH. now injection E.
Qed.

(** The delay line over a run of blocks into any contexts that have
    channel [c]: the output stream of the channel is the stream of the
    contexts with, sample by sample, what the ring held followed by the
    input stream added to it, as far as the run has got. *)
Lemma processAll_stream_adding (latency blockSz : Z) (numChannels n : nat)
      (calls : list (buffers * buffers)) (c : nat) :
  0 <= latency -> Z.of_nat n <= blockSz -> (c < numChannels)%nat ->
  Forall (fun call => getNumSamples (audio (fst call)) = n
                      /\ getNumChannels (audio (fst call)) = numChannels
                      /\ block_ok (audio (fst call))
                      /\ getNumSamples (audio (snd call)) = n
                      /\ length (channel (audio (snd call)) c) = n) calls ->
  forall st : state,
    delayLineReady latency blockSz numChannels (fifo st) ->
    channelStream c
      (map audio (snd (LatencyAudioNode_processAll latency st calls)))
    = add_samples
        (channelStream c (map (fun call => audio (snd call)) calls))
        (firstn (n * length calls)
                (nth c (AudioFifo.buffer (fifo st)) []
                 ++ channelStream c (map (fun call => audio (fst call))
                                         calls))).
Proof.
  intros Hl Hle Hc Hcalls.
  induction Hcalls as [|[i pc] calls (Hn & Hch & Hok & Hpn & Hpl) _ IH];
    intros st Hready.
  - reflexivity.
  - cbn [fst snd] in Hn, Hch, Hok, Hpn, Hpl.
    cbn [map LatencyAudioNode_processAll fst snd channelStream flat_map].
    fold (channelStream c (map (fun call : buffers * buffers =>
                                  audio (snd call)) calls)).
    fold (channelStream c (map (fun call : buffers * buffers =>
                                  audio (fst call)) calls)).
    match goal with
    | |- context [LatencyAudioNode_processAll latency ?s ?cs] =>
        fold (channelStream c
                (map audio (snd (LatencyAudioNode_processAll latency s cs))))
    end.
    destruct (@process_channel latency blockSz numChannels n st i pc c)
      as (Eo & Ef & Hd); auto.
    destruct (@process_audio _ _ latency blockSz numChannels n st i pc)
      as (_ & _ & Hready' & _); auto.
    rewrite (IH _ Hready'), Eo, Ef. cbn [length].
    replace (n * S (length calls))%nat with (n + n * length calls)%nat by lia.
    rewrite firstn_plus. unfold delayedSamples in *. rewrite Hn in *.
    set (F := nth c (AudioFifo.buffer (fifo st)) []) in *.
    set (B := channel (audio i) c) in *.
    assert (HFB : (n <= length (F ++ B))%nat).
    { rewrite length_firstn in Hd. lia. }
    rewrite app_assoc.
    rewrite (@firstn_app_le _ n (F ++ B)), (@skipn_app_le _ n (F ++ B))
      by exact HFB.
    symmetry. apply add_samples_app. now rewrite Hpl, Hd.
Qed.

(** C6.  A delay node that was prepared for a block size and is then
    called with input and output blocks of exactly that many samples: at
    every call the three jasserts of [process] hold, among them that the
    ring holds at least a block of samples when it is read, and the read
    is not refused; every call yields an output block of the block size;
    the ring is left holding its delay again; and no call abstains: on
    every channel that the output blocks have, the output stream is the
    stream that the blocks held before their calls with the delayed
    signal, the silence of the delay followed by the input, added to it
    sample by sample, as far as the run has got. *)
Theorem LatencyAudioNode_fifo_never_underflows
        (info : PlaybackInitialisationInfo) (numChannels latency : Z)
        (st0 : state) (calls : list (buffers * buffers)) :
  0 <= latency -> 0 <= blockSize info ->
  Forall (fun call =>
            Z.of_nat (getNumSamples (audio (fst call))) = blockSize info
            /\ Z.of_nat (getNumSamples (audio (snd call))) = blockSize info
            /\ getNumChannels (audio (fst call)) = Z.to_nat numChannels
            /\ block_ok (audio (fst call))) calls ->
  let st := LatencyAudioNode_prepareToPlay numChannels latency info st0 in
  AudioFifo.totalSize (fifo st) = latency + blockSize info + 1
  /\ AudioFifo.getNumReady (fifo st) = latency
  /\ Forall (fun c => c = (true, true))
            (LatencyAudioNode_checks latency st calls)
  /\ length (snd (LatencyAudioNode_processAll latency st calls))
     = length calls
  /\ Forall (fun out => Z.of_nat (getNumSamples (audio out)) = blockSize info)
            (snd (LatencyAudioNode_processAll latency st calls))
  /\ AudioFifo.getNumReady
       (fifo (fst (LatencyAudioNode_processAll latency st calls))) = latency
  /\ (forall c : nat,
        (c < Z.to_nat numChannels)%nat ->
        Forall (fun call => block_ok (audio (snd call))
                            /\ (c < getNumChannels (audio (snd call)))%nat)
               calls ->
        channelStream c
          (map audio (snd (LatencyAudioNode_processAll latency st calls)))
        = add_samples
            (channelStream c (map (fun call => audio (snd call)) calls))
            (firstn (Z.to_nat (blockSize info) * length calls)
                    (repeat szero (Z.to_nat latency)
                     ++ channelStream c (map (fun call => audio (fst call))
                                             calls)))).
Proof.
  intros Hl Hb Hcalls st.
  destruct (@prepareToPlay_ready _ _ info numChannels latency st0 Hl Hb)
    as [Hready Hbuf].
  fold st in Hready, Hbuf.
  destruct (processAll_checks Hl Hcalls st Hready) as (H1 & H2 & H3 & H4).
  pose proof Hready as (Ht & Hr & _). destruct H2 as (_ & Hr' & _).
  split; [exact Ht|]. split; [exact Hr|]. split; [exact H1|].
  split; [exact H4|]. split; [exact H3|]. split; [exact Hr'|].
  intros c Hc Hctx.
  rewrite (@processAll_stream_adding latency (blockSize info)
             (Z.to_nat numChannels) (Z.to_nat (blockSize info)) calls c);
    auto; try lia.
  - now rewrite Hbuf, nth_repeat_lt by exact Hc.
  - rewrite Forall_forall in Hcalls, Hctx. apply Forall_forall.
    intros call Hin.
    destruct (Hcalls call Hin) as (Hi & Hp & Hch & Hok).
    destruct (Hctx call Hin) as (Hpok & Hpc).
    split; [lia|]. split; [exact Hch|]. split; [exact Hok|].
    split; [lia|].
    unfold channel. rewrite (nth_channel_length (n:=getNumSamples
                                                      (audio (snd call)))).
    + lia.
    + exact Hpok.
    + exact Hpc.
Qed.

End DelayStreams.

Section DelayExactness.
Context {sample : Type} `{Sample sample}.

Local Abbreviation state := (LatencyAudioNode_state sample).
Local Abbreviation buffers := (AudioAndMidiBuffer sample).

Lemma nth_impulse (v : sample) (d k i : nat) :
  nth i (repeat szero d ++ v :: repeat szero k) szero
  = if Nat.eqb i d then v else szero.
Proof.
  destruct (Nat.eqb i d) eqn:E.
  - apply Nat.eqb_eq in E. subst.
    rewrite app_nth2 by (rewrite repeat_length; lia).
    rewrite repeat_length, Nat.sub_diag. reflexivity.
  - apply Nat.eqb_neq in E. destruct (Nat.lt_ge_cases i d) as [Hlt|Hge].
    + rewrite app_nth1 by (rewrite repeat_length; lia). apply nth_repeat.
    + rewrite app_nth2 by (rewrite repeat_length; lia).
      rewrite repeat_length.
      destruct (i - d)%nat as [|j] eqn:Ej; [lia|]. simpl. apply nth_repeat.
Qed.

(** C3.  A delay node prepared for block size [n] and fed, block after
    block and each time into a cleared context, an input whose stream on
    every channel is the impulse [v] at sample 0 and silence after it:
    on every channel the output stream is [latency] samples of silence,
    then [v], then silence, cut to the length processed; sample
    [latency] of the output is [v] itself and every other sample is the
    silent sample.  The block size [n] and the number of blocks are
    arbitrary.  Of the arithmetic of samples only [0 + 0 = 0] and
    [0 + v = v] are used. *)
Theorem LatencyAudioNode_delays_impulse
        (info : PlaybackInitialisationInfo) (numChannels latency : Z)
        (st0 : state) (n : nat) (ins : list buffers) (v : sample) :
  sadd szero szero = szero -> sadd szero v = v ->
  0 <= latency -> Z.of_nat n = blockSize info ->
  Forall (fun i => getNumSamples (audio i) = n
                   /\ getNumChannels (audio i) = Z.to_nat numChannels
                   /\ block_ok (audio i)) ins ->
  (forall c, (c < Z.to_nat numChannels)%nat ->
             channelStream c (map audio ins)
             = v :: repeat szero (n * length ins - 1)) ->
  let st := LatencyAudioNode_prepareToPlay numChannels latency info st0 in
  let outs := snd (LatencyAudioNode_processAll
                     latency st
                     (map (fun i => (i, clearedContext (Z.to_nat numChannels) n))
                          ins)) in
  forall c, (c < Z.to_nat numChannels)%nat ->
    channelStream c (map audio outs)
    = firstn (n * length ins)
             (repeat szero (Z.to_nat latency)
              ++ v :: repeat szero (n * length ins - 1))
    /\ (forall i, (i < n * length ins)%nat ->
                  nth i (channelStream c (map audio outs)) szero
                  = if Nat.eqb i (Z.to_nat latency) then v else szero).
Proof.
  intros H00 H0v Hl Hn Hins Himp st outs c Hc.
  destruct (@prepareToPlay_ready _ _ info numChannels latency st0)
    as [Hready Hbuf]; auto; try lia.
  fold st in Hready, Hbuf.
  assert (E : channelStream c (map audio outs)
              = firstn (n * length ins)
                       (repeat szero (Z.to_nat latency)
                        ++ v :: repeat szero (n * length ins - 1))).
  { unfold outs.
    rewrite (@processAll_stream _ _ latency (blockSize info)
               (Z.to_nat numChannels) n ins c); auto; try lia.
    rewrite Hbuf, (Himp c Hc), nth_repeat_lt by exact Hc.
    rewrite <- firstn_map, map_app, map_repeat. simpl.
    now rewrite map_repeat, H00, H0v. }
  split; [exact E|].
  intros i Hi. rewrite E, nth_firstn.
  replace (i <? n * length ins)%nat with true
    by (symmetry; apply Nat.ltb_lt; exact Hi).
  apply nth_impulse.
Qed.


End DelayExactness.

(* ===================================================================== *)
(** ** SummingAudioNode: mixing *)
(* ===================================================================== *)

Section SummingProcessFacts.
Context {sample : Type} `{Sample sample}.

Local Abbreviation node := (AudioNode sample).
Local Abbreviation buffers := (AudioAndMidiBuffer sample).

Lemma addToSubset_shape (dst src : AudioBlock sample) (k : nat) :
  getNumSamples (addToSubset dst src k) = getNumSamples dst
  /\ getNumChannels (addToSubset dst src k) = getNumChannels dst
  /\ (block_ok dst -> block_ok (addToSubset dst src k)).
Proof.
  unfold addToSubset, getNumChannels, block_ok; simpl.
  split; [reflexivity|]. split.
  - rewrite length_app, length_add_channels, <- length_app.
    now rewrite firstn_skipn.
  - intros Hok. rewrite <- (firstn_skipn k (channelData dst)) in Hok.
    apply Forall_app in Hok as [Hf Hs]. apply Forall_app. split; [|exact Hs].
    clear Hs. revert Hf. generalize (firstn k (channelData dst)).
    generalize (firstn k (channelData src)).
    intros s d. revert s. induction d as [|x d IH]; intros [|y s] Hf;
      simpl; auto.
    inversion Hf; subst. constructor.
    + now rewrite length_add_samples.
    + now apply IH.
Qed.

(** What summing one input into the first [k] channels does to channel
    [c] of the destination, for [k] the smaller of the two channel
    counts. *)
Lemma addToSubset_channel (dst src : AudioBlock sample) (k c : nat) :
  k = Nat.min (getNumChannels src) (getNumChannels dst) ->
  (c < getNumChannels dst)%nat ->
  channel (addToSubset dst src k) c
  = if (c <? getNumChannels src)%nat
    then add_samples (channel dst c) (channel src c)
    else channel dst c.
Proof.
  unfold getNumChannels, channel, addToSubset; simpl. intros Hk Hc.
  destruct (c <? length (channelData src))%nat eqn:E.
  - apply Nat.ltb_lt in E.
    rewrite app_nth1
      by (rewrite length_add_channels, length_firstn; lia).
    rewrite nth_add_channels, !nth_firstn.
    replace (c <? k)%nat with true by (symmetry; apply Nat.ltb_lt; lia).
    reflexivity.
  - apply Nat.ltb_ge in E.
    rewrite app_nth2
      by (rewrite length_add_channels, length_firstn; lia).
    rewrite length_add_channels, length_firstn, nth_skipn. f_equal. lia.
Qed.

(** One round of the mixer: channel [c] of the destination has the
    channel of the input added if the input has such a channel, and is as
    it was otherwise; the shape of the destination stays. *)
Lemma SummingAudioNode_addInput_spec
      (getProcessedOutput : node -> buffers) (n : node) (pc : buffers) :
  let out := audio (SummingAudioNode_addInput
                      getProcessedOutput (getNumChannels (audio pc)) pc n) in
  getNumSamples out = getNumSamples (audio pc)
  /\ getNumChannels out = getNumChannels (audio pc)
  /\ (block_ok (audio pc) -> block_ok out)
  /\ (forall c, (c < getNumChannels (audio pc))%nat ->
        channel out c
        = if (c <? getNumChannels (audio (getProcessedOutput n)))%nat
          then add_samples (channel (audio pc) c)
                           (channel (audio (getProcessedOutput n)) c)
          else channel (audio pc) c).
Proof.
  unfold SummingAudioNode_addInput; cbn [audio].
  destruct (0 <? _)%nat eqn:Ek.
  - destruct (addToSubset_shape (audio pc) (audio (getProcessedOutput n))
                (Nat.min (getNumChannels (audio (getProcessedOutput n)))
                         (getNumChannels (audio pc)))) as (E1 & E2 & E3).
    repeat split; auto.
    intros c Hc. now apply addToSubset_channel.
  - apply Nat.ltb_ge in Ek. repeat split; auto.
    intros c Hc.
    replace (c <? getNumChannels (audio (getProcessedOutput n)))%nat
      with false by (symmetry; apply Nat.ltb_ge; lia).
    reflexivity.
Qed.

(** The mixer takes its inputs one after the other. *)
Lemma SummingAudioNode_process_cons
      (getProcessedOutput : node -> buffers)
      (n : node) (nodes : list node) (pc : buffers) :
  SummingAudioNode_process getProcessedOutput (n :: nodes) pc
  = SummingAudioNode_process
      getProcessedOutput nodes
      (SummingAudioNode_addInput
         getProcessedOutput (getNumChannels (audio pc)) pc n).
Proof.
  unfold SummingAudioNode_process. cbn [fold_left].
  destruct (SummingAudioNode_addInput_spec getProcessedOutput n pc)
    as (_ & -> & _). reflexivity.
Qed.

Lemma fold_sadd_repeat_Z (v p : Z) (k : nat) :
  fold_left (@sadd Z Z_Sample) (repeat v k) p = p + Z.of_nat k * v.
Proof.
  revert p. induction k as [|k IH]; intros p.
  - simpl. lia.
  - cbn [repeat fold_left]. rewrite IH. simpl sadd. lia.
Qed.

End SummingProcessFacts.

Section SummingProcessTheorems.
Context {sample : Type} `{Sample sample}.

Local Abbreviation node := (AudioNode sample).
Local Abbreviation buffers := (AudioAndMidiBuffer sample).

Variable getProcessedOutput : node -> buffers.

Lemma SummingAudioNode_process_samples (n : nat) (nodes : list node) :
  Forall (fun x => getNumSamples (audio (getProcessedOutput x)) = n
                   /\ block_ok (audio (getProcessedOutput x))) nodes ->
  forall pc : buffers,
    getNumSamples (audio pc) = n -> block_ok (audio pc) ->
    let out := audio (SummingAudioNode_process getProcessedOutput nodes pc) in
    getNumSamples out = n
    /\ getNumChannels out = getNumChannels (audio pc)
    /\ (forall c i, (c < getNumChannels (audio pc))%nat -> (i < n)%nat ->
          sampleAt out c i
          = fold_left sadd (contributions getProcessedOutput nodes c i)
                      (sampleAt (audio pc) c i)).
Proof.
  induction 1 as [|x nodes (Hxn & Hxok) _ IH]; intros pc Hn Hok.
  - simpl. auto.
  - rewrite SummingAudioNode_process_cons.
    destruct (SummingAudioNode_addInput_spec getProcessedOutput x pc)
      as (E1 & E2 & E3 & E4).
    set (pc1 := SummingAudioNode_addInput
                  getProcessedOutput (getNumChannels (audio pc)) pc x) in *.
    destruct (IH pc1) as (I1 & I2 & I3); [congruence|auto|].
    split; [exact I1|]. split; [congruence|].
    intros c i Hc Hi. rewrite I3 by (rewrite ?E2; assumption).
    unfold contributions; cbn [filter].
    unfold sampleAt at 2. rewrite (E4 c Hc).
    destruct (c <? getNumChannels (audio (getProcessedOutput x)))%nat eqn:Ec.
    + cbn [map fold_left]. f_equal. apply Nat.ltb_lt in Ec.
      apply nth_add_samples.
      * unfold channel. rewrite (nth_channel_length (n:=n)); auto.
        unfold block_ok in Hok. now rewrite Hn in Hok.
      * unfold channel. rewrite (nth_channel_length (n:=n)); auto.
        unfold block_ok in Hxok. now rewrite Hxn in Hxok.
    + reflexivity.
Qed.

(** C5.  One call of SummingAudioNode::process on blocks of one length:
    the destination keeps its shape; every sample of a destination
    channel [c] is the sample that was there before with the samples of
    channel [c] of the inputs that have more than [c] channels added to
    it, in the order of the inputs.  So if every one of the [N] inputs
    has a channel [c] and holds [v] there, the destination holds its
    earlier sample with [v] added [N] times; and an input without a
    channel [c] could as well be left out of the list: it does not touch
    the channel. *)
Theorem SummingAudioNode_process_accumulates
        (n : nat) (nodes : list node) (pc : buffers) :
  getNumSamples (audio pc) = n -> block_ok (audio pc) ->
  Forall (fun x => getNumSamples (audio (getProcessedOutput x)) = n
                   /\ block_ok (audio (getProcessedOutput x))) nodes ->
  let out := audio (SummingAudioNode_process getProcessedOutput nodes pc) in
  getNumSamples out = n
  /\ getNumChannels out = getNumChannels (audio pc)
  /\ (forall c i, (c < getNumChannels (audio pc))%nat -> (i < n)%nat ->
        sampleAt out c i
        = fold_left sadd (contributions getProcessedOutput nodes c i)
                    (sampleAt (audio pc) c i))
  /\ (forall c i v, (c < getNumChannels (audio pc))%nat -> (i < n)%nat ->
        Forall (fun x => (c < getNumChannels (audio (getProcessedOutput x)))%nat
                         /\ sampleAt (audio (getProcessedOutput x)) c i = v)
               nodes ->
        sampleAt out c i
        = fold_left sadd (repeat v (length nodes)) (sampleAt (audio pc) c i))
  /\ (forall before x after c i,
        nodes = before ++ x :: after ->
        (getNumChannels (audio (getProcessedOutput x)) <= c)%nat ->
        (c < getNumChannels (audio pc))%nat -> (i < n)%nat ->
        sampleAt out c i
        = sampleAt (audio (SummingAudioNode_process
                             getProcessedOutput (before ++ after) pc)) c i).
Proof.
  intros Hn Hok Hnodes out.
  destruct (SummingAudioNode_process_samples Hnodes pc Hn Hok)
    as (E1 & E2 & E3).
  fold out in E1, E2, E3. unfold contributions in E3.
  split; [exact E1|]. split; [exact E2|]. split; [exact E3|]. split.
  - intros c i v Hc Hi Hall. rewrite E3 by assumption. f_equal.
    clear - Hall. induction Hall as [|x l (Hx & Hv) _ IH]; [reflexivity|].
    cbn [filter]. apply Nat.ltb_lt in Hx. rewrite Hx. simpl. now rewrite Hv, IH.
  - intros before x after c i -> Hx Hc Hi.
    assert (Hnodes' : Forall (fun x => getNumSamples (audio (getProcessedOutput x)) = n
                                       /\ block_ok (audio (getProcessedOutput x)))
                             (before ++ after)).
    { apply Forall_app in Hnodes as [Hb Ha]. inversion Ha; subst.
      apply Forall_app. split; assumption. }
    destruct (SummingAudioNode_process_samples Hnodes' pc Hn Hok)
      as (_ & _ & E3').
    rewrite E3, E3' by assumption. unfold contributions.
    rewrite !filter_app. cbn [filter].
    replace (c <? getNumChannels (audio (getProcessedOutput x)))%nat
      with false by (symmetry; apply Nat.ltb_ge; lia).
    reflexivity.
Qed.

End SummingProcessTheorems.

(* ===================================================================== *)
(** ** LatencyAudioNode: MIDI *)
(* ===================================================================== *)

Section MidiFacts.
Import MidiBuffer.

Lemma takeWhile_all (p : MidiEvent -> bool) (l : MidiBuffer.t) :
  Forall (fun e => p e = true) l -> takeWhile p l = l.
Proof. induction 1 as [|e l He _ IH]; simpl; [|rewrite He, IH]; auto. Qed.

Lemma dropWhile_all (p : MidiEvent -> bool) (l : MidiBuffer.t) :
  Forall (fun e => p e = true) l -> dropWhile p l = [].
Proof. induction 1 as [|e l He _ IH]; simpl; [|rewrite He]; auto. Qed.

Lemma takeWhile_none (p : MidiEvent -> bool) (l : MidiBuffer.t) :
  Forall (fun e => p e = false) l -> takeWhile p l = [].
Proof. destruct 1 as [|e l He _]; simpl; [|rewrite He]; auto. Qed.

Lemma dropWhile_none (p : MidiEvent -> bool) (l : MidiBuffer.t) :
  Forall (fun e => p e = false) l -> dropWhile p l = l.
Proof. destruct 1 as [|e l He _]; simpl; [|rewrite He]; auto. Qed.

(** An event at or after everything in the buffer goes to its end. *)
Lemma addEvent_at_end (buf : MidiBuffer.t) (m : MidiMessage) (pos : Z) :
  Forall (fun e => samplePosition e <= pos) buf ->
  addEvent buf m pos = buf ++ [mkEvent pos m].
Proof.
  induction 1 as [|e buf He _ IH]; simpl; auto.
  replace (pos <? samplePosition e) with false
    by (symmetry; apply Z.ltb_ge; lia).
  now rewrite IH.
Qed.

(** Adding the events of a sorted sequence, each moved by [delta], to a
    buffer that ends before them appends them in their order. *)
Lemma fold_addEvent_sorted (delta : Z) (l : MidiBuffer.t) :
  sorted l ->
  forall buf : MidiBuffer.t,
    Forall (fun b => Forall (fun e => samplePosition b
                                      <= samplePosition e + delta) l) buf ->
    fold_left (fun b e => addEvent b (message e) (samplePosition e + delta))
              l buf
    = buf ++ map (fun e => mkEvent (samplePosition e + delta) (message e)) l.
Proof.
  induction l as [|e l IH]; intros Hs buf Hbuf; simpl.
  - now rewrite app_nil_r.
  - destruct Hs as [Hle Hs]. rewrite addEvent_at_end.
    + rewrite IH; auto.
      * now rewrite <- app_assoc.
      * apply Forall_app. split.
        -- eapply Forall_impl; [|exact Hbuf]. simpl. intros b Hb.
           now inversion Hb.
        -- constructor; [|constructor]. simpl.
           eapply Forall_impl; [|exact Hle]. simpl. intros; lia.
    + eapply Forall_impl; [|exact Hbuf]. simpl. intros b Hb.
      now inversion Hb.
Qed.

Lemma map_event_id (l : MidiBuffer.t) (a b : Z) :
  a + b = 0 ->
  map (fun e => mkEvent (samplePosition e + b) (message e))
      (map (fun e => mkEvent (samplePosition e + a) (message e)) l)
  = l.
Proof.
  intros E. induction l as [|[p m] l IH]; simpl; [reflexivity|].
  rewrite IH. do 2 f_equal. lia.
Qed.

Lemma sorted_shift (l : MidiBuffer.t) (delta : Z) :
  sorted l ->
  sorted (map (fun e => mkEvent (samplePosition e + delta) (message e)) l).
Proof.
  induction l as [|e l IH]; simpl; auto. intros [Hle Hs]. split; auto.
  rewrite Forall_map. eapply Forall_impl; [|exact Hle]. simpl. intros; lia.
Qed.

End MidiFacts.

Section MidiDelay.
Context {sample : Type} `{Sample sample}.
Import MidiBuffer.

Local Abbreviation state := (LatencyAudioNode_state sample).
Local Abbreviation buffers := (AudioAndMidiBuffer sample).

(** The MIDI half of [process]. *)
Lemma LatencyAudioNode_process_midi (latency : Z) (st : state)
      (inputOutput pc : buffers) :
  let numSamples := Z.of_nat (getNumSamples (audio inputOutput)) in
  let midi1 := addEvents (storedMidi st) (midi inputOutput) 0 (-1) latency in
  midi (snd (LatencyAudioNode_process latency st inputOutput pc))
  = addEvents (midi pc) midi1 latency numSamples (- latency)
  /\ storedMidi (fst (LatencyAudioNode_process latency st inputOutput pc))
     = clear midi1 latency numSamples.
Proof.
  unfold LatencyAudioNode_process.
  destruct (AudioFifo.readAdding _ _) as [[f2 o2] ok]. simpl. auto.
Qed.

(** What the MIDI half does with the events of a block, that is with
    sorted events at offsets inside the block, when nothing is stored
    and the context holds no MIDI: every event leaves in the same call
    at the offset it came with, whatever the delay of the node, and
    nothing is kept for later. *)
Lemma LatencyAudioNode_process_midi_same_block (latency : Z) (st : state)
      (inputOutput pc : buffers) :
  storedMidi st = [] -> midi pc = [] ->
  sorted (midi inputOutput) ->
  Forall (fun e => 0 <= samplePosition e
                   < Z.of_nat (getNumSamples (audio inputOutput)))
         (midi inputOutput) ->
  midi (snd (LatencyAudioNode_process latency st inputOutput pc))
  = midi inputOutput
  /\ storedMidi (fst (LatencyAudioNode_process latency st inputOutput pc)) = [].
Proof.
  intros Hst Hpc Hs Hin.
  destruct (LatencyAudioNode_process_midi latency st inputOutput pc)
    as [Eo Es].
  rewrite Eo, Es, Hst, Hpc. clear Eo Es.
  set (n := Z.of_nat (getNumSamples (audio inputOutput))) in *.
  set (shifted := map (fun e => mkEvent (samplePosition e + latency)
                                        (message e)) (midi inputOutput)).
  assert (E1 : addEvents [] (midi inputOutput) 0 (-1) latency = shifted).
  { unfold addEvents, eventsInRange.
    rewrite dropWhile_none, takeWhile_all.
    - rewrite fold_addEvent_sorted; auto.
    - apply Forall_forall. intros e _. apply orb_true_r.
    - eapply Forall_impl; [|exact Hin]. simpl. intros e He.
      apply Z.ltb_ge. lia. }
  rewrite E1.
  assert (Hsh : Forall (fun e => latency <= samplePosition e < latency + n)
                       shifted).
  { unfold shifted. rewrite Forall_map.
    eapply Forall_impl; [|exact Hin]. simpl. intros; lia. }
  split.
  - unfold addEvents, eventsInRange.
    rewrite dropWhile_none, takeWhile_all.
    + rewrite fold_addEvent_sorted; auto.
      * simpl. unfold shifted.
        replace (fun e => mkEvent (samplePosition e + - latency) (message e))
          with (fun e => mkEvent (samplePosition e + (- latency)) (message e))
          by reflexivity.
        apply map_event_id. lia.
      * now apply sorted_shift.
    + eapply Forall_impl; [|exact Hsh]. simpl. intros e He.
      apply orb_true_iff. left. apply Z.ltb_lt. lia.
    + eapply Forall_impl; [|exact Hsh]. simpl. intros e He.
      apply Z.ltb_ge. lia.
  - unfold clear.
    rewrite takeWhile_none, (@dropWhile_none _ shifted), dropWhile_all.
    + reflexivity.
    + eapply Forall_impl; [|exact Hsh]. simpl. intros e He.
      apply Z.ltb_lt. lia.
    + eapply Forall_impl; [|exact Hsh]. simpl. intros e He.
      apply Z.ltb_ge. lia.
    + eapply Forall_impl; [|exact Hsh]. simpl. intros e He.
      apply Z.ltb_ge. lia.
Qed.

End MidiDelay.

(* ===================================================================== *)
(** ** The properties on the concrete inputs *)
(* ===================================================================== *)

(** C2.  The delay line of 3 samples, run on three blocks of 4 samples
    with a note-on at offset 1 of the first block: the note-on leaves in
    the first block, at offset 1, which is global sample 1 and not global
    sample 1 + 3 = 4, while the audio impulse of the same run, fed at
    sample 0, leaves at sample 3. *)
Theorem LatencyAudioNode_midi_is_not_delayed :
  let outs := snd (LatencyAudioNode_processAll 3 demoDelayLine demoCalls) in
  globalMidi 4 0 outs = [MidiBuffer.mkEvent 1 noteOn]
  /\ map (@midi Z) outs = [[MidiBuffer.mkEvent 1 noteOn]; []; []]
  /\ channelStream 0 (map (@audio Z) outs) = [0; 0; 0; 1; 0; 0; 0; 0; 0; 0; 0; 0].
Proof. vm_compute. repeat split; reflexivity. Qed.

(** C7, as stated, fails: with a message of an earlier block still
    pending, a block without MIDI makes [process] call triggerAsyncUpdate
    although the queue gains nothing in that call. *)
Lemma LiveMidiOutputNode_request_without_gain :
  ~ (LiveMidiOutputNode.requestsNotification
       demoLiveNode demoLiveQuietBlock demoLiveContext = true
     <-> LiveMidiOutputNode.queueGained
           demoLiveNode demoLiveQuietBlock demoLiveContext = true).
Proof. vm_compute. intros [Hreq _]. discriminate (Hreq eq_refl). Qed.


(** The MIDI of the output context is not written by [process]: the
    block brings a message, the context held none before the call and
    holds none after it, while the message is in the pending queue. *)
Lemma LiveMidiOutputNode_context_midi_not_written :
  LiveMidiOutputNode.midi demoLiveBlock = [demoMessage]
  /\ LiveMidiOutputNode.midi demoLiveContext = []
  /\ LiveMidiOutputNode.midi
       (snd (LiveMidiOutputNode.process LiveMidiOutputNode.make
                                        demoLiveBlock demoLiveContext))
     = []
  /\ LiveMidiOutputNode.pendingMessages
       (fst (LiveMidiOutputNode.process LiveMidiOutputNode.make
                                        demoLiveBlock demoLiveContext))
     = [demoMessage].
Proof. repeat split. Qed.

(** C1 on the summing node over A and B. *)
Lemma SummingAudioNode_latency_convergence_witness :
  Forall (fun n => 0 <= latencyOf n) [demoSourceA; demoSourceB]
  /\ Forall (fun n => latencyOf n = 10)
            (getDirectInputNodes
               (fst (SummingAudioNode_prepareToPlay demoInfo demoSumming 3%nat))).
Proof.
  assert (Hpos : Forall (fun n : AudioNode Z => 0 <= latencyOf n)
                        [demoSourceA; demoSourceB])
    by (repeat constructor; vm_compute; discriminate).
  split; [exact Hpos|].
  exact (proj2 (@SummingAudioNode_latency_convergence
                  Z Z_Sample demoInfo 0%nat [1%nat; 2%nat]
                  [demoSourceA; demoSourceB] 3%nat Hpos)).
Defined.

(** C4 on the summing node over A and B. *)
Lemma SummingAudioNode_property_aggregation_witness :
  Forall (fun n : AudioNode Z =>
            0 <= numberOfChannels (getAudioNodeProperties n) /\ 0 <= latencyOf n)
         [demoSourceA; demoSourceB]
  /\ maximumOf (latencyNumSamples (getAudioNodeProperties demoSumming)) [0; 10].
Proof.
  assert (Hpos : Forall (fun n : AudioNode Z =>
                           0 <= numberOfChannels (getAudioNodeProperties n)
                           /\ 0 <= latencyOf n)
                        [demoSourceA; demoSourceB])
    by (repeat constructor; vm_compute; discriminate).
  split; [exact Hpos|].
  exact (proj2 (proj2 (proj2 (@SummingAudioNode_property_aggregation
                                Z 0%nat [1%nat; 2%nat]
                                [demoSourceA; demoSourceB] Hpos)))).
Defined.

(** C10 on the summing node over A and B: B stays, A is wrapped. *)
Lemma createLatencyNodes_direct_inputs_witness :
  0 <= blockSize demoInfo
  /\ exists inserted : list (AudioNode Z),
      getDirectInputNodes
        (fst (SummingAudioNode_prepareToPlay demoInfo demoSumming 3%nat))
      = [demoSourceB] ++ inserted
      /\ Forall2 (insertedFor demoInfo 10) [demoSourceA] inserted
      /\ map getDirectInputNodes inserted = [[demoSourceA]]
      /\ Permutation ([demoSourceB] ++ flat_map getDirectInputNodes inserted)
                     [demoSourceA; demoSourceB]
      /\ Forall (delayLinePrimed demoInfo) inserted.
Proof.
  assert (Hb : 0 <= blockSize demoInfo) by (vm_compute; discriminate).
  split; [exact Hb|].
  exact (@createLatencyNodes_direct_inputs
           Z Z_Sample demoInfo 0%nat [1%nat; 2%nat]
           [demoSourceA; demoSourceB] 3%nat Hb).
Defined.

(** C6 on the delay line of 3 samples and its three blocks. *)
Lemma LatencyAudioNode_fifo_never_underflows_witness :
  0 <= 3 /\ 0 <= blockSize demoInfo
  /\ Forall (fun c => c = (true, true))
            (LatencyAudioNode_checks 3 demoDelayLine demoCalls)
  /\ channelStream 0
       (map (@audio Z)
            (snd (LatencyAudioNode_processAll 3 demoDelayLine demoCalls)))
     = [0; 0; 0; 1; 0; 0; 0; 0; 0; 0; 0; 0].
Proof.
  assert (Hl : 0 <= 3) by lia.
  assert (Hb : 0 <= blockSize demoInfo) by (vm_compute; discriminate).
  assert (Hcalls :
            Forall (fun call : AudioAndMidiBuffer Z * AudioAndMidiBuffer Z =>
                      Z.of_nat (getNumSamples (audio (fst call))) = blockSize demoInfo
                      /\ Z.of_nat (getNumSamples (audio (snd call))) = blockSize demoInfo
                      /\ getNumChannels (audio (fst call)) = Z.to_nat 1
                      /\ block_ok (audio (fst call))) demoCalls)
    by (repeat constructor).
  assert (Hc : (0 < Z.to_nat 1)%nat) by (simpl; lia).
  assert (Hctx :
            Forall (fun call : AudioAndMidiBuffer Z * AudioAndMidiBuffer Z =>
                      block_ok (audio (snd call))
                      /\ (0 < getNumChannels (audio (snd call)))%nat)
                   demoCalls)
    by (repeat constructor).
  split; [exact Hl|]. split; [exact Hb|].
  pose proof (@LatencyAudioNode_fifo_never_underflows
                Z Z_Sample demoInfo 1 3
                LatencyAudioNode_state_init demoCalls Hl Hb Hcalls)
    as (_ & _ & Hchecks & _ & _ & _ & Hstream).
  split; [exact Hchecks|].
  exact (Hstream 0%nat Hc Hctx).
Defined.

(** C3 on the delay line of 3 samples: the impulse leaves at sample 3. *)
Lemma LatencyAudioNode_delays_impulse_witness :
  sadd szero szero = (szero : Z) /\ sadd szero 1 = 1
  /\ channelStream 0
       (map (@audio Z)
            (snd (LatencyAudioNode_processAll 3 demoDelayLine demoCalls)))
     = [0; 0; 0; 1; 0; 0; 0; 0; 0; 0; 0; 0].
Proof.
  assert (H00 : sadd szero szero = (szero : Z)) by reflexivity.
  assert (H01 : sadd szero 1 = 1) by reflexivity.
  assert (Hl : 0 <= 3) by lia.
  assert (Hn : Z.of_nat 4 = blockSize demoInfo) by reflexivity.
  assert (Hins : Forall (fun i : AudioAndMidiBuffer Z =>
                           getNumSamples (audio i) = 4%nat
                           /\ getNumChannels (audio i) = Z.to_nat 1
                           /\ block_ok (audio i)) demoBlocks)
    by (repeat constructor).
  assert (Himp : forall c, (c < Z.to_nat 1)%nat ->
                   channelStream c (map (@audio Z) demoBlocks)
                   = 1 :: repeat szero (4 * length demoBlocks - 1)).
  { intros [|c] Hc; [reflexivity|]. simpl in Hc. lia. }
  assert (H0 : (0 < Z.to_nat 1)%nat) by (simpl; lia).
  split; [exact H00|]. split; [exact H01|].
  exact (proj1 (@LatencyAudioNode_delays_impulse
                  Z Z_Sample demoInfo 1 3 LatencyAudioNode_state_init
                  4%nat demoBlocks 1 H00 H01 Hl Hn Hins Himp 0%nat H0)).
Defined.


(** C5 on a stereo and a mono input mixed into a stereo context. *)
Lemma SummingAudioNode_process_accumulates_witness :
  getNumSamples (audio demoStereoContext) = 4%nat
  /\ block_ok (audio demoStereoContext)
  /\ sampleAt (audio (SummingAudioNode_process
                        demoProcessedOutput [demoSourceA; demoSourceB]
                        demoStereoContext)) 0 0
     = fold_left sadd [1; 1] 10
  /\ sampleAt (audio (SummingAudioNode_process
                        demoProcessedOutput [demoSourceA; demoSourceB]
                        demoStereoContext)) 1 0
     = fold_left sadd [2] 20.
Proof.
  assert (Hn : getNumSamples (audio demoStereoContext) = 4%nat) by reflexivity.
  assert (Hok : block_ok (audio demoStereoContext)) by (repeat constructor).
  assert (Hnodes : Forall (fun x : AudioNode Z =>
                             getNumSamples (audio (demoProcessedOutput x)) = 4%nat
                             /\ block_ok (audio (demoProcessedOutput x)))
                          [demoSourceA; demoSourceB])
    by (repeat constructor).
  assert (H02 : (0 < 2)%nat) by lia.
  assert (H12 : (1 < 2)%nat) by lia.
  assert (H04 : (0 < 4)%nat) by lia.
  pose proof (proj1 (proj2 (proj2 (@SummingAudioNode_process_accumulates
                                     Z Z_Sample demoProcessedOutput 4%nat
                                     [demoSourceA; demoSourceB]
                                     demoStereoContext Hn Hok Hnodes))))
    as Hsum.
  split; [exact Hn|]. split; [exact Hok|]. split.
  - exact (Hsum 0%nat 0%nat H02 H04).
  - exact (Hsum 1%nat 0%nat H12 H04).
Defined.

(** C7, as amended, on the first block of the bridge. *)
Lemma LiveMidiOutputNode_process_passthrough_and_wake_witness :
  block_ok (LiveMidiOutputNode.audio demoLiveContext)
  /\ block_ok (LiveMidiOutputNode.audio demoLiveBlock)
  /\ LiveMidiOutputNode.audio
       (snd (LiveMidiOutputNode.process LiveMidiOutputNode.make
                                        demoLiveBlock demoLiveContext))
     = mkBlock 2 [[7; 8]].
Proof.
  assert (Hs : getNumSamples (LiveMidiOutputNode.audio demoLiveContext)
               = getNumSamples (LiveMidiOutputNode.audio demoLiveBlock))
    by reflexivity.
  assert (Hc : getNumChannels (LiveMidiOutputNode.audio demoLiveContext)
               = getNumChannels (LiveMidiOutputNode.audio demoLiveBlock))
    by reflexivity.
  assert (Hpc : block_ok (LiveMidiOutputNode.audio demoLiveContext))
    by (repeat constructor).
  assert (Hsrc : block_ok (LiveMidiOutputNode.audio demoLiveBlock))
    by (repeat constructor).
  split; [exact Hpc|]. split; [exact Hsrc|].
  exact (proj1 (@LiveMidiOutputNode_process_passthrough_and_wake
                  Z LiveMidiOutputNode.make demoLiveBlock demoLiveContext
                  Hs Hc Hpc Hsrc)).
Defined.

(** C8 on three blocks, two of them with a message. *)
Lemma LiveMidiOutputNode_exactly_once_delivery_witness :
  LiveMidiOutputNode.listenerCalls
    (LiveMidiOutputNode.handleAsyncUpdate
       (LiveMidiOutputNode.run
          LiveMidiOutputNode.make
          [LiveMidiOutputNode.Block demoLiveBlock demoLiveContext;
           LiveMidiOutputNode.Block demoLiveQuietBlock demoLiveContext;
           LiveMidiOutputNode.Block demoLiveBlock demoLiveContext]))
  = [demoMessage; demoMessage].
Proof.
  exact (proj1 (proj2 (@LiveMidiOutputNode_exactly_once_delivery
                         Z
                         [LiveMidiOutputNode.Block demoLiveBlock demoLiveContext;
                          LiveMidiOutputNode.Block demoLiveQuietBlock demoLiveContext;
                          LiveMidiOutputNode.Block demoLiveBlock demoLiveContext]))).
Defined.

(* ===================================================================== *)
(** * Further properties *)
(* ===================================================================== *)

(** ** The latency-alignment transform: properties and ownership *)

Lemma fold_max_perm (l l' : list Z) :
  Permutation l l' -> forall a, fold_left Z.max l a = fold_left Z.max l' a.
Proof.
  induction 1 as [|x l l' _ IH|x y l|l l' l'' _ IH1 _ IH2]; intros a; simpl.
  - reflexivity.
  - apply IH.
  - f_equal. lia.
  - now rewrite IH1, IH2.
Qed.

Lemma fold_orb_perm (l l' : list bool) :
  Permutation l l' -> forall a, fold_left orb l a = fold_left orb l' a.
Proof.
  induction 1 as [|x l l' _ IH|x y l|l l' l'' _ IH1 _ IH2]; intros a; simpl.
  - reflexivity.
  - apply IH.
  - f_equal. now destruct a, x, y.
  - now rewrite IH1, IH2.
Qed.

Lemma filter_filter (A : Type) (f g : A -> bool) (l : list A) :
  filter f (filter g l) = filter (fun x => g x && f x) l.
Proof.
  induction l as [|x l IH]; simpl; auto.
  destruct (g x); simpl; [destruct (f x)|]; now rewrite IH.
Qed.

Lemma filter_all (A : Type) (f : A -> bool) (l : list A) :
  Forall (fun x => f x = true) l -> filter f l = l.
Proof. induction 1 as [|x l Hx _ IH]; simpl; [|rewrite Hx, IH]; auto. Qed.

Lemma holds_In (addresses : list ptr) (p : ptr) :
  holds addresses p = true <-> In p addresses.
Proof.
  unfold holds. rewrite existsb_exists. split.
  - intros (q & Hq & E). apply Nat.eqb_eq in E. now subst.
  - intros Hp. exists p. split; [exact Hp|apply Nat.eqb_refl].
Qed.

Lemma holds_filter_other (addresses : list ptr) (a b : ptr) :
  b <> a ->
  holds (filter (fun p => negb (Nat.eqb p a)) addresses) b = holds addresses b.
Proof.
  intros Hne. induction addresses as [|p l IH]; simpl; auto.
  destruct (Nat.eqb p a) eqn:E; simpl.
  - apply Nat.eqb_eq in E. subst.
    replace (Nat.eqb b a) with false by (symmetry; now apply Nat.eqb_neq).
    exact IH.
  - now rewrite IH.
Qed.

Lemma Forall2_impl_In (A B : Type) (P Q : A -> B -> Prop) (l : list A)
      (l' : list B) :
  (forall x y, In x l -> P x y -> Q x y) -> Forall2 P l l' -> Forall2 Q l l'.
Proof.
  intros HPQ F. induction F as [|x y l l' Hxy _ IH]; constructor.
  - apply HPQ; [now left|exact Hxy].
  - apply IH. intros x' y' Hin. apply HPQ. now right.
Qed.

Section TransformExtras.
Context {sample : Type} `{Sample sample}.

Local Abbreviation node := (AudioNode sample).

(** What the lambda getOwnedNode does to the set of owned addresses, when
    no address is owned twice: the address looked for leaves the set, and
    the result is non-null exactly if the address was in it. *)
Lemma getOwnedNode_spec (owned : list (option ptr)) (a : ptr) :
  NoDup (remove_null owned) ->
  remove_null (fst (getOwnedNode owned a))
  = filter (fun p => negb (Nat.eqb p a)) (remove_null owned)
  /\ match snd (getOwnedNode owned a) with Some _ => true | None => false end
     = holds (remove_null owned) a.
Proof.
  induction owned as [|[p|] owned IH]; intros Hnd.
  - simpl. auto.
  - cbn [getOwnedNode]. cbn [remove_null] in Hnd. inversion Hnd; subst.
    destruct (Nat.eqb p a) eqn:E.
    + apply Nat.eqb_eq in E. subst p. cbn [fst snd remove_null filter].
      rewrite Nat.eqb_refl. cbn [negb]. split.
      * symmetry. apply filter_all. apply Forall_forall. intros q Hq.
        apply negb_true_iff, Nat.eqb_neq. intros ->. contradiction.
      * unfold holds. simpl. now rewrite Nat.eqb_refl.
    + destruct (IH H3) as [E1 E2].
      destruct (getOwnedNode owned a) as [rest' found].
      cbn [fst snd remove_null filter] in *. rewrite E. cbn [negb].
      split; [now rewrite E1|].
      rewrite E2. unfold holds. simpl.
      replace (Nat.eqb a p) with false; [reflexivity|].
      symmetry. apply Nat.eqb_neq. apply Nat.eqb_neq in E. congruence.
  - cbn [getOwnedNode]. cbn [remove_null] in Hnd.
    destruct (IH Hnd) as [E1 E2].
    destruct (getOwnedNode owned a) as [rest' found].
    cbn [fst snd remove_null] in *. auto.
Qed.

(** The first loop of the transform with the ownership it leaves, for
    distinct inputs and unique_ptrs that hold distinct nodes. *)
Lemma createLatencyNodes_loop_ownership (info : PlaybackInitialisationInfo)
      (maxLatency : Z) (nodes : list node) :
  forall (owned : list (option ptr)) (toAdd : list node) (next : ptr),
  NoDup (remove_null owned) -> NoDup (map addressOf nodes) ->
  exists (owned' : list (option ptr)) (inserted : list node),
    createLatencyNodes_loop info maxLatency nodes owned toAdd next
    = (map (fun n => if atLatency maxLatency n then Some n else None) nodes,
       owned', toAdd ++ inserted, (next + length inserted)%nat)
    /\ Forall2 (fun o new =>
                  insertedFor info maxLatency o new
                  /\ ownsInput new = holds (remove_null owned) (addressOf o))
               (filter (fun n => negb (atLatency maxLatency n)) nodes)
               inserted
    /\ remove_null owned'
       = filter (fun p => negb (holds
                                  (map addressOf
                                       (filter (fun n => negb (atLatency maxLatency n))
                                               nodes)) p))
                (remove_null owned).
Proof.
  induction nodes as [|n nodes IH]; intros owned toAdd next Hown Haddr.
  - exists owned, []. simpl. rewrite app_nil_r, Nat.add_0_r.
    split; [reflexivity|]. split; [constructor|].
    symmetry. apply filter_all. now apply Forall_forall.
  - cbn [createLatencyNodes_loop map filter].
    cbn [map] in Haddr. inversion Haddr as [|a l Hnotin Haddr']; subst.
    change (maxLatency - latencyNumSamples (getAudioNodeProperties n) =? 0)
      with (atLatency maxLatency n).
    destruct (atLatency maxLatency n) eqn:Ek.
    + destruct (IH owned toAdd next Hown Haddr')
        as (owned' & inserted & E & F & O).
      rewrite E. exists owned', inserted. simpl. auto.
    + destruct (getOwnedNode_spec owned (addressOf n) Hown) as [E1 E2].
      destruct (getOwnedNode owned (addressOf n)) as [owned1 ownedNode].
      cbn [fst snd] in E1, E2.
      match goal with
      | |- context [initialise info ?x] => set (latencyNode := initialise info x)
      end.
      assert (Hown1 : NoDup (remove_null owned1))
        by (rewrite E1; now apply NoDup_filter).
      destruct (IH owned1 (toAdd ++ [latencyNode]) (S next) Hown1 Haddr')
        as (owned' & inserted & E & F & O).
      rewrite E. exists owned', (latencyNode :: inserted).
      split; [|split].
      * rewrite <- app_assoc. simpl. do 2 f_equal. lia.
      * cbn [negb]. constructor.
        -- split.
           ++ unfold latencyNode.
              destruct ownedNode; [exists next, true | exists next, false];
                reflexivity.
           ++ rewrite <- E2. unfold latencyNode. now destruct ownedNode.
        -- eapply Forall2_impl_In; [|exact F].
           intros o new Ho [Hi Hf]. split; [exact Hi|].
           rewrite Hf, E1. apply holds_filter_other.
           intros Eq. apply Hnotin. rewrite <- Eq.
           apply in_map. apply filter_In in Ho. tauto.
      * cbn [negb map]. rewrite O, E1, filter_filter.
        apply filter_ext. intros p. unfold holds at 2. simpl.
        fold (holds (map addressOf
                         (filter (fun n0 => negb (atLatency maxLatency n0)) nodes))
                    p).
        now rewrite negb_orb.
Qed.

(** After the transform every direct input is at the latency the node
    declared before, and the node still declares it. *)
Lemma prepared_aligned (info : PlaybackInitialisationInfo)
      (self : ptr) (ownedNodes : list ptr) (nodes : list node) (next : ptr) :
  let maxLatency := latencyOf (SummingAudioNode self ownedNodes nodes) in
  let prepared := fst (SummingAudioNode_prepareToPlay
                         info (SummingAudioNode self ownedNodes nodes) next) in
  Forall (fun n => latencyOf n = maxLatency) (getDirectInputNodes prepared)
  /\ latencyOf prepared = maxLatency.
Proof.
  intros maxLatency prepared.
  destruct (createLatencyNodes_nodes info self ownedNodes nodes next)
    as (inserted & E & F).
  fold maxLatency in E, F.
  assert (Hin : getDirectInputNodes prepared
                = filter (atLatency maxLatency) nodes ++ inserted).
  { unfold prepared. now rewrite prepareToPlay_direct_inputs. }
  assert (Hall : Forall (fun n => latencyOf n = maxLatency)
                        (getDirectInputNodes prepared)).
  { rewrite Hin. apply Forall_app. split.
    - apply Forall_forall. intros n Hn. apply filter_In in Hn as [_ Hk].
      now apply atLatency_true.
    - eapply insertedFor_latency; eauto. }
  split; [exact Hall|].
  assert (Hp : prepared
               = SummingAudioNode
                   self
                   (fst (fst (createLatencyNodes info self ownedNodes nodes next)))
                   (getDirectInputNodes prepared)).
  { unfold prepared, SummingAudioNode_prepareToPlay.
    destruct (createLatencyNodes info self ownedNodes nodes next)
      as [[owned' nodes'] next']. reflexivity. }
  rewrite Hp, summing_latency.
  destruct (getDirectInputNodes prepared) as [|d ds] eqn:Ed.
  - destruct nodes as [|n0 nodes0].
    + unfold maxLatency. now rewrite summing_latency.
    + exfalso. apply (f_equal (@length _)) in Hin.
      rewrite length_app in Hin. apply Forall2_length in F.
      pose proof (filter_split_Permutation (atLatency maxLatency)
                                           (n0 :: nodes0)) as P.
      apply Permutation_length in P. rewrite length_app in P.
      change (length (n0 :: nodes0)) with (S (length nodes0)) in P.
      change (@length node []) with 0%nat in Hin. lia.
  - apply fold_max_constant.
    + unfold maxLatency. rewrite summing_latency. apply fold_max_ge_init.
    + discriminate.
    + now rewrite Forall_map.
Qed.

(** A delay node made for an input declares the flags and the channel
    count of that input. *)
Lemma insertedFor_props (info : PlaybackInitialisationInfo) (maxLatency : Z)
      (A : Type) (f : bool -> bool -> Z -> A) (origs inserted : list node) :
  Forall2 (insertedFor info maxLatency) origs inserted ->
  map (fun n => let p := getAudioNodeProperties n in
                f (hasAudio p) (hasMidi p) (numberOfChannels p)) inserted
  = map (fun n => let p := getAudioNodeProperties n in
                  f (hasAudio p) (hasMidi p) (numberOfChannels p)) origs.
Proof.
  induction 1 as [|o n origs inserted (self & owned & ->) _ IH]; simpl;
    [reflexivity | f_equal; exact IH].
Qed.

End TransformExtras.

Section TransformFurther.
Context {sample : Type} `{Sample sample}.

Local Abbreviation node := (AudioNode sample).

(** The properties of a summing node do not depend on the order of its
    inputs, on which of them it owns, or on where it lives. *)
Theorem SummingAudioNode_properties_ignore_order
        (self self' : ptr) (ownedNodes ownedNodes' : list ptr)
        (nodes nodes' : list node) :
  Permutation nodes nodes' ->
  getAudioNodeProperties (SummingAudioNode self ownedNodes nodes)
  = getAudioNodeProperties (SummingAudioNode self' ownedNodes' nodes').
Proof.
  intros P. simpl. rewrite !fold_merge. simpl.
  f_equal.
  - apply fold_orb_perm. now apply Permutation_map.
  - apply fold_orb_perm. now apply Permutation_map.
  - apply fold_max_perm. now apply Permutation_map.
  - apply fold_max_perm. now apply Permutation_map.
Qed.

(** prepareToPlay leaves every property of the summing node as it was:
    the flags, the channel count and the latency it declared before the
    delay nodes were put in are the ones it declares after. *)
Theorem SummingAudioNode_prepareToPlay_keeps_properties
        (info : PlaybackInitialisationInfo)
        (self : ptr) (ownedNodes : list ptr) (nodes : list node) (next : ptr) :
  getAudioNodeProperties
    (fst (SummingAudioNode_prepareToPlay
            info (SummingAudioNode self ownedNodes nodes) next))
  = getAudioNodeProperties (SummingAudioNode self ownedNodes nodes).
Proof.
  set (original := SummingAudioNode self ownedNodes nodes).
  set (prepared := fst (SummingAudioNode_prepareToPlay info original next)).
  destruct (prepared_aligned info self ownedNodes nodes next) as [_ Hlat].
  fold original in Hlat. fold prepared in Hlat.
  destruct (createLatencyNodes_nodes info self ownedNodes nodes next)
    as (inserted & E & F).
  fold original in E, F.
  set (maxLatency := latencyOf original) in *.
  assert (Hp : prepared
               = SummingAudioNode
                   self
                   (fst (fst (createLatencyNodes info self ownedNodes nodes next)))
                   (filter (atLatency maxLatency) nodes ++ inserted)).
  { unfold prepared, original, SummingAudioNode_prepareToPlay.
    rewrite <- E.
    destruct (createLatencyNodes info self ownedNodes nodes next)
      as [[owned' nodes'] next']. reflexivity. }
  assert (Hperm : forall (A : Type) (f : bool -> bool -> Z -> A),
             Permutation
               (map (fun n => f (hasAudio (getAudioNodeProperties n))
                               (hasMidi (getAudioNodeProperties n))
                               (numberOfChannels (getAudioNodeProperties n)))
                    (filter (atLatency maxLatency) nodes ++ inserted))
               (map (fun n => f (hasAudio (getAudioNodeProperties n))
                               (hasMidi (getAudioNodeProperties n))
                               (numberOfChannels (getAudioNodeProperties n)))
                    nodes)).
  { intros A f. rewrite map_app.
    pose proof (insertedFor_props (A:=A) f F) as Ei. cbv zeta in Ei.
    rewrite Ei, <- map_app.
    apply Permutation_map, filter_split_Permutation. }
  assert (Hl : latencyNumSamples (getAudioNodeProperties prepared)
               = latencyNumSamples (getAudioNodeProperties original))
    by exact Hlat.
  revert Hl. rewrite Hp. unfold original. simpl. rewrite !fold_merge. simpl.
  intros Hl. f_equal.
  - apply fold_orb_perm. exact (Hperm bool (fun a _ _ => a)).
  - apply fold_orb_perm. exact (Hperm bool (fun _ m _ => m)).
  - apply fold_max_perm. exact (Hperm Z (fun _ _ c => c)).
  - exact Hl.
Qed.

Lemma createLatencyNodes_loop_aligned (info : PlaybackInitialisationInfo)
      (maxLatency : Z) (nodes : list node) (owned : list (option ptr))
      (toAdd : list node) (next : ptr) :
  Forall (fun n => latencyOf n = maxLatency) nodes ->
  createLatencyNodes_loop info maxLatency nodes owned toAdd next
  = (map Some nodes, owned, toAdd, next).
Proof.
  induction 1 as [|n nodes Hn _ IH]; [reflexivity|].
  cbn [createLatencyNodes_loop map].
  change (maxLatency - latencyNumSamples (getAudioNodeProperties n) =? 0)
    with (atLatency maxLatency n).
  replace (atLatency maxLatency n) with true
    by (symmetry; now apply atLatency_true).
  now rewrite IH.
Qed.

(** prepareToPlay a second time changes nothing: the inputs are aligned,
    so no node is made, no ownership moves and no address is used. *)
Theorem SummingAudioNode_prepareToPlay_idempotent
        (info info' : PlaybackInitialisationInfo)
        (self : ptr) (ownedNodes : list ptr) (nodes : list node)
        (next next' : ptr) :
  let prepared := fst (SummingAudioNode_prepareToPlay
                         info (SummingAudioNode self ownedNodes nodes) next) in
  SummingAudioNode_prepareToPlay info' prepared next' = (prepared, next').
Proof.
  intros prepared.
  destruct (prepared_aligned info self ownedNodes nodes next) as [Hall Hlat].
  fold prepared in Hall, Hlat.
  assert (Hp : prepared
               = SummingAudioNode
                   self
                   (fst (fst (createLatencyNodes info self ownedNodes nodes next)))
                   (getDirectInputNodes prepared)).
  { unfold prepared, SummingAudioNode_prepareToPlay.
    destruct (createLatencyNodes info self ownedNodes nodes next)
      as [[owned' nodes'] next'']. reflexivity. }
  set (owned1 := fst (fst (createLatencyNodes info self ownedNodes nodes next)))
    in *.
  set (nodes1 := getDirectInputNodes prepared) in *.
  rewrite Hp in Hlat. rewrite Hp.
  unfold SummingAudioNode_prepareToPlay, createLatencyNodes.
  fold (latencyOf (SummingAudioNode self owned1 nodes1)).
  rewrite createLatencyNodes_loop_aligned.
  - cbn [map]. rewrite !app_nil_r, !remove_null_map_Some. reflexivity.
  - rewrite Hlat. exact Hall.
Qed.

(** The transform only ever makes delay nodes with a positive delay: an
    input below the maximum gets a node of exactly the missing latency,
    whatever latencies the inputs declare. *)
Theorem createLatencyNodes_delays_are_positive
        (info : PlaybackInitialisationInfo)
        (self : ptr) (ownedNodes : list ptr) (nodes : list node) (next : ptr) :
  let maxLatency := latencyOf (SummingAudioNode self ownedNodes nodes) in
  let prepared := fst (SummingAudioNode_prepareToPlay
                         info (SummingAudioNode self ownedNodes nodes) next) in
  exists inserted : list node,
    getDirectInputNodes prepared
    = filter (atLatency maxLatency) nodes ++ inserted
    /\ Forall2 (fun o new => delayOf new = Some (maxLatency - latencyOf o)
                             /\ 0 < maxLatency - latencyOf o)
               (filter (fun n => negb (atLatency maxLatency n)) nodes)
               inserted.
Proof.
  intros maxLatency prepared.
  destruct (createLatencyNodes_nodes info self ownedNodes nodes next)
    as (inserted & E & F).
  fold maxLatency in E, F. exists inserted. split.
  - unfold prepared. now rewrite prepareToPlay_direct_inputs.
  - eapply Forall2_impl_In; [|exact F].
    intros o new Ho (s & ow & ->). split; [reflexivity|].
    apply filter_In in Ho as [Ho Hk].
    apply negb_true_iff in Hk. unfold atLatency in Hk. apply Z.eqb_neq in Hk.
    assert (latencyOf o <= maxLatency); [|lia].
    unfold maxLatency. rewrite summing_latency.
    pose proof (fold_max_ge_all (map latencyOf nodes) 0) as Hall.
    rewrite Forall_forall in Hall. apply Hall. now apply in_map.
Qed.

(** The ownership transfer of the transform, for distinct inputs and
    unique_ptrs that hold distinct nodes: a new delay node owns its input
    exactly if the summing node owned that input before; the summing node
    gives up the inputs it had wrapped, keeps the other nodes it owned,
    in their order, and owns every new delay node. *)
Theorem createLatencyNodes_transfers_ownership
        (info : PlaybackInitialisationInfo)
        (self : ptr) (ownedNodes : list ptr) (nodes : list node) (next : ptr) :
  NoDup ownedNodes -> NoDup (map addressOf nodes) ->
  let maxLatency := latencyOf (SummingAudioNode self ownedNodes nodes) in
  let prepared := fst (SummingAudioNode_prepareToPlay
                         info (SummingAudioNode self ownedNodes nodes) next) in
  let wrapped := filter (fun n => negb (atLatency maxLatency n)) nodes in
  exists inserted : list node,
    getDirectInputNodes prepared
    = filter (atLatency maxLatency) nodes ++ inserted
    /\ Forall2 (fun o new => getDirectInputNodes new = [o]
                             /\ ownsInput new = holds ownedNodes (addressOf o))
               wrapped inserted
    /\ ownedNodesOf prepared
       = filter (fun p => negb (holds (map addressOf wrapped) p)) ownedNodes
         ++ map addressOf inserted.
Proof.
  intros Hown Haddr maxLatency prepared wrapped.
  assert (Hown' : NoDup (remove_null (map Some ownedNodes)))
    by now rewrite remove_null_map_Some.
  destruct (createLatencyNodes_loop_ownership
              info maxLatency nodes (map Some ownedNodes) [] next Hown' Haddr)
    as (owned' & inserted & E & F & O).
  rewrite remove_null_map_Some in F, O.
  exists inserted.
  assert (Hp : SummingAudioNode_prepareToPlay
                 info (SummingAudioNode self ownedNodes nodes) next
               = (SummingAudioNode
                    self
                    (filter (fun p => negb (holds (map addressOf wrapped) p))
                            ownedNodes ++ map addressOf inserted)
                    (filter (atLatency maxLatency) nodes ++ inserted),
                  (next + length inserted)%nat)).
  { unfold SummingAudioNode_prepareToPlay, createLatencyNodes.
    fold (latencyOf (SummingAudioNode self ownedNodes nodes)).
    fold maxLatency. rewrite E. cbn [app].
    rewrite !remove_null_app, remove_null_keep, remove_null_map_Some, O.
    rewrite <- (map_map addressOf Some), remove_null_map_Some.
    reflexivity. }
  unfold prepared. rewrite Hp. cbn [fst getDirectInputNodes ownedNodesOf].
  split; [reflexivity|]. split; [|reflexivity].
  eapply Forall2_impl; [|exact F].
  intros o new [(s & ow & ->) Hf]. split; [reflexivity|exact Hf].
Qed.

End TransformFurther.

(** ** The delay line: any signal, two lines in a row *)

Section DelayFurther.
Context {sample : Type} `{Sample sample}.

Local Abbreviation state := (LatencyAudioNode_state sample).
Local Abbreviation buffers := (AudioAndMidiBuffer sample).

Lemma add_channels_lengths (dst src : list (list sample)) (n : nat) :
  Forall (fun ch => length ch = n) dst ->
  Forall (fun ch => length ch = n) (add_channels dst src).
Proof.
  intros Hd. revert src. induction Hd as [|d dst Hl Hd IH]; intros [|s src];
    simpl; constructor; auto.
  now rewrite length_add_samples.
Qed.

Lemma firstn_app_firstn (A : Type) (n : nat) (a b : list A) :
  firstn n (a ++ firstn n b) = firstn n (a ++ b).
Proof.
  rewrite !firstn_app, firstn_firstn. do 2 f_equal. lia.
Qed.

(** The shape of what a run into cleared contexts puts out. *)
Lemma processAll_shapes (latency blockSz : Z) (numChannels n : nat)
      (ins : list buffers) :
  0 <= latency -> Z.of_nat n <= blockSz ->
  Forall (fun i => getNumSamples (audio i) = n
                   /\ getNumChannels (audio i) = numChannels
                   /\ block_ok (audio i)) ins ->
  forall st : state,
    delayLineReady latency blockSz numChannels (fifo st) ->
    let outs := snd (LatencyAudioNode_processAll
                       latency st
                       (map (fun i => (i, clearedContext numChannels n)) ins)) in
    length outs = length ins
    /\ Forall (fun o => getNumSamples (audio o) = n
                        /\ getNumChannels (audio o) = numChannels
                        /\ block_ok (audio o)) outs.
Proof.
  intros Hl Hle Hins.
  induction Hins as [|i ins (Hn & Hch & Hok) _ IH]; intros st Hready.
  - simpl. auto.
  - cbn [map LatencyAudioNode_processAll fst snd].
    destruct (@process_audio _ _ latency blockSz numChannels n st i
                (clearedContext numChannels n))
      as (_ & Ea & Hready' & _); auto.
    destruct (IH _ Hready') as [IH1 IH2].
    split; [simpl; now rewrite IH1|].
    constructor; [|exact IH2].
    rewrite Ea. unfold getNumChannels, block_ok. cbn [getNumSamples channelData].
    split; [reflexivity|]. split.
    + rewrite length_add_channels. simpl. apply repeat_length.
    + apply add_channels_lengths. simpl.
      apply Forall_forall. intros ch Hin. apply repeat_spec in Hin.
      subst. apply repeat_length.
Qed.

(** What the ring holds on channel [c] after a run. *)
Lemma processAll_ring (latency blockSz : Z) (numChannels n : nat)
      (ins : list buffers) (c : nat) :
  0 <= latency -> Z.of_nat n <= blockSz -> (c < numChannels)%nat ->
  Forall (fun i => getNumSamples (audio i) = n
                   /\ getNumChannels (audio i) = numChannels
                   /\ block_ok (audio i)) ins ->
  forall (st : state) (pcs : list buffers),
    delayLineReady latency blockSz numChannels (fifo st) ->
    Forall (fun pc => getNumSamples (audio pc) = n) pcs ->
    length pcs = length ins ->
    nth c (AudioFifo.buffer
             (fifo (fst (LatencyAudioNode_processAll latency st
                                                     (combine ins pcs))))) []
    = skipn (n * length ins)
            (nth c (AudioFifo.buffer (fifo st)) []
             ++ channelStream c (map audio ins)).
Proof.
  intros Hl Hle Hc Hins.
  induction Hins as [|i ins (Hn & Hch & Hok) _ IH]; intros st pcs Hready Hpcs Hlen.
  - simpl. now rewrite Nat.mul_0_r, app_nil_r.
  - destruct pcs as [|pc pcs]; [discriminate|].
    apply Forall_cons_iff in Hpcs as [Hpc Hpcs'].
    cbn [combine LatencyAudioNode_processAll fst snd map channelStream flat_map].
    fold (channelStream c (map audio ins)).
    destruct (@process_channel _ _ latency blockSz numChannels n st i pc c)
      as (_ & Ef & _); auto.
    destruct (@process_audio _ _ latency blockSz numChannels n st i pc)
      as (_ & _ & Hready' & _); auto.
    rewrite (IH _ pcs Hready' Hpcs') by (simpl in Hlen; lia).
    rewrite Ef. cbn [length].
    destruct Hready as (_ & _ & Hlen' & Hall).
    set (F := nth c (AudioFifo.buffer (fifo st)) []).
    set (B := channel (audio i) c).
    assert (HB : length B = n).
    { unfold B, channel. apply nth_channel_length; auto.
      - unfold block_ok in Hok. now rewrite Hn in Hok.
      - unfold getNumChannels in Hch. lia. }
    assert (HF : length F = Z.to_nat latency).
    { unfold F. apply nth_channel_length; auto. lia. }
    replace (n * S (length ins))%nat with (n * length ins + n)%nat by lia.
    rewrite <- skipn_skipn, app_assoc.
    rewrite (@skipn_app_le _ n (F ++ B)) by (rewrite length_app; lia).
    reflexivity.
Qed.

(** The output stream of a prepared delay line where adding to silence
    changes nothing. *)
Lemma prepared_stream (info : PlaybackInitialisationInfo)
      (numChannels latency : Z) (st0 : state) (n : nat)
      (ins : list buffers) (c : nat) :
  (forall x : sample, sadd szero x = x) ->
  0 <= latency -> Z.of_nat n = blockSize info ->
  Forall (fun i => getNumSamples (audio i) = n
                   /\ getNumChannels (audio i) = Z.to_nat numChannels
                   /\ block_ok (audio i)) ins ->
  (c < Z.to_nat numChannels)%nat ->
  channelStream c
    (map audio
         (snd (LatencyAudioNode_processAll
                 latency
                 (LatencyAudioNode_prepareToPlay numChannels latency info st0)
                 (map (fun i => (i, clearedContext (Z.to_nat numChannels) n))
                      ins))))
  = firstn (n * length ins)
           (repeat szero (Z.to_nat latency) ++ channelStream c (map audio ins)).
Proof.
  intros Hzero Hl Hn Hins Hc.
  destruct (@prepareToPlay_ready _ _ info numChannels latency st0)
    as [Hready Hbuf]; auto; try lia.
  rewrite (@processAll_stream _ _ latency (blockSize info)
             (Z.to_nat numChannels) n ins c); auto; try lia.
  rewrite Hbuf, nth_repeat_lt by exact Hc.
  now apply map_id_ext.
Qed.

End DelayFurther.

Section DelayFurtherTheorems.
Context {sample : Type} `{Sample sample}.

Local Abbreviation state := (LatencyAudioNode_state sample).
Local Abbreviation buffers := (AudioAndMidiBuffer sample).

Lemma combine_repeat (A B : Type) (l : list A) (x : B) :
  combine l (repeat x (length l)) = map (fun a => (a, x)) l.
Proof. induction l as [|a l IH]; simpl; congruence. Qed.

(** A prepared delay line fed any signal, block after block into cleared
    contexts, where adding to silence changes nothing: on every channel
    the output so far is the silence of the delay followed by the input,
    cut to the length processed; the ring holds the rest, which is the
    last [latency] samples fed; so the output followed by the ring is the
    silence followed by the whole input: no sample is lost, repeated or
    reordered. *)
Theorem LatencyAudioNode_delays_any_signal
        (info : PlaybackInitialisationInfo) (numChannels latency : Z)
        (st0 : state) (n : nat) (ins : list buffers) (c : nat) :
  (forall x : sample, sadd szero x = x) ->
  0 <= latency -> Z.of_nat n = blockSize info ->
  Forall (fun i => getNumSamples (audio i) = n
                   /\ getNumChannels (audio i) = Z.to_nat numChannels
                   /\ block_ok (audio i)) ins ->
  (c < Z.to_nat numChannels)%nat ->
  let st := LatencyAudioNode_prepareToPlay numChannels latency info st0 in
  let r := LatencyAudioNode_processAll
             latency st
             (map (fun i => (i, clearedContext (Z.to_nat numChannels) n)) ins) in
  let fed := repeat szero (Z.to_nat latency) ++ channelStream c (map audio ins) in
  channelStream c (map audio (snd r)) = firstn (n * length ins) fed
  /\ nth c (AudioFifo.buffer (fifo (fst r))) [] = skipn (n * length ins) fed
  /\ channelStream c (map audio (snd r))
     ++ nth c (AudioFifo.buffer (fifo (fst r))) [] = fed.
Proof.
  intros Hzero Hl Hn Hins Hc st r fed.
  assert (E1 : channelStream c (map audio (snd r)) = firstn (n * length ins) fed)
    by (apply prepared_stream; auto).
  assert (E2 : nth c (AudioFifo.buffer (fifo (fst r))) []
               = skipn (n * length ins) fed).
  { destruct (@prepareToPlay_ready _ _ info numChannels latency st0)
      as [Hready Hbuf]; auto; try lia.
    fold st in Hready, Hbuf. unfold r. rewrite <- combine_repeat.
    rewrite (@processAll_ring _ _ latency (blockSize info)
               (Z.to_nat numChannels) n ins c); auto; try lia.
    - unfold fed. now rewrite Hbuf, nth_repeat_lt by exact Hc.
    - apply Forall_forall. intros pc Hpc. apply repeat_spec in Hpc.
      now subst.
    - apply repeat_length. }
  split; [exact E1|]. split; [exact E2|].
  rewrite E1, E2. apply firstn_skipn.
Qed.

(** Two delay lines in a row, the second fed what the first puts out,
    delay like one line of the sum of the two delays: as the latencies add
    up in the properties, so do the delays in the audio. *)
Theorem LatencyAudioNode_delays_add_up
        (info : PlaybackInitialisationInfo) (numChannels d1 d2 : Z)
        (st1 st2 : state) (n : nat) (ins : list buffers) (c : nat) :
  (forall x : sample, sadd szero x = x) ->
  0 <= d1 -> 0 <= d2 -> Z.of_nat n = blockSize info ->
  Forall (fun i => getNumSamples (audio i) = n
                   /\ getNumChannels (audio i) = Z.to_nat numChannels
                   /\ block_ok (audio i)) ins ->
  (c < Z.to_nat numChannels)%nat ->
  let contexts := map (fun i : buffers =>
                         (i, clearedContext (Z.to_nat numChannels) n)) in
  let outs1 := snd (LatencyAudioNode_processAll
                      d1 (LatencyAudioNode_prepareToPlay numChannels d1 info st1)
                      (contexts ins)) in
  let outs2 := snd (LatencyAudioNode_processAll
                      d2 (LatencyAudioNode_prepareToPlay numChannels d2 info st2)
                      (contexts outs1)) in
  channelStream c (map audio outs2)
  = firstn (n * length ins)
           (repeat szero (Z.to_nat (d1 + d2))
            ++ channelStream c (map audio ins)).
Proof.
  intros Hzero H1 H2 Hn Hins Hc contexts outs1 outs2.
  destruct (@prepareToPlay_ready _ _ info numChannels d1 st1)
    as [Hready1 _]; auto; try lia.
  destruct (@processAll_shapes _ _ d1 (blockSize info) (Z.to_nat numChannels)
              n ins H1 ltac:(lia) Hins _ Hready1) as [Hlen Hshape].
  unfold outs2, contexts.
  rewrite prepared_stream; auto.
  replace (length outs1) with (length ins) by (symmetry; exact Hlen).
  unfold outs1, contexts. rewrite prepared_stream; auto.
  rewrite firstn_app_firstn, app_assoc, <- repeat_app.
  do 3 f_equal. lia.
Qed.

End DelayFurtherTheorems.

(** ** MIDI: merging in the mixer, passing through the delay node *)

Section MidiFurtherFacts.
Import MidiBuffer.

Lemma addEvent_Permutation (buf : MidiBuffer.t) (m : MidiMessage) (pos : Z) :
  Permutation (addEvent buf m pos) (mkEvent pos m :: buf).
Proof.
  induction buf as [|e buf IH]; simpl; [reflexivity|].
  destruct (pos <? samplePosition e); [reflexivity|].
  rewrite IH. apply perm_swap.
Qed.

Lemma addEvent_sorted (buf : MidiBuffer.t) (m : MidiMessage) (pos : Z) :
  sorted buf -> sorted (addEvent buf m pos).
Proof.
  induction buf as [|e buf IH]; simpl; [auto|].
  intros [Hle Hs]. destruct (pos <? samplePosition e) eqn:E.
  - apply Z.ltb_lt in E. simpl. repeat split; auto.
    constructor; [lia|].
    eapply Forall_impl; [|exact Hle]. simpl. intros; lia.
  - apply Z.ltb_ge in E. simpl. split; [|now apply IH].
    eapply Permutation_Forall;
      [apply Permutation_sym, addEvent_Permutation|].
    constructor; [exact E|exact Hle].
Qed.

(** An event that belongs between two parts of the buffer goes there. *)
Lemma addEvent_between (before after : MidiBuffer.t) (m : MidiMessage)
      (pos : Z) :
  Forall (fun e => samplePosition e <= pos) before ->
  Forall (fun e => pos < samplePosition e) after ->
  addEvent (before ++ after) m pos = before ++ mkEvent pos m :: after.
Proof.
  intros Hb Ha. induction Hb as [|e before He _ IH]; simpl.
  - destruct Ha as [|s after Hs _]; simpl; [reflexivity|].
    now replace (pos <? samplePosition s) with true
      by (symmetry; apply Z.ltb_lt; lia).
  - replace (pos <? samplePosition e) with false
      by (symmetry; apply Z.ltb_ge; lia).
    now rewrite IH.
Qed.

Lemma fold_addEvent_between (delta : Z) (l after : MidiBuffer.t) :
  sorted l ->
  Forall (fun s => Forall (fun e => samplePosition e + delta
                                    < samplePosition s) l) after ->
  forall before : MidiBuffer.t,
    Forall (fun b => Forall (fun e => samplePosition b
                                      <= samplePosition e + delta) l) before ->
    fold_left (fun b e => addEvent b (message e) (samplePosition e + delta))
              l (before ++ after)
    = before
      ++ map (fun e => mkEvent (samplePosition e + delta) (message e)) l
      ++ after.
Proof.
  induction l as [|e l IH]; intros Hs Hafter before Hbefore; simpl.
  - reflexivity.
  - destruct Hs as [Hle Hs]. rewrite addEvent_between.
    + change (before ++ mkEvent (samplePosition e + delta) (message e) :: after)
        with (before ++ [mkEvent (samplePosition e + delta) (message e)] ++ after).
      rewrite app_assoc, IH; auto.
      * now rewrite <- app_assoc.
      * eapply Forall_impl; [|exact Hafter]. simpl. intros s Hs'.
        now inversion Hs'.
      * apply Forall_app. split.
        -- eapply Forall_impl; [|exact Hbefore]. simpl. intros b Hb.
           now inversion Hb.
        -- constructor; [|constructor]. simpl.
           eapply Forall_impl; [|exact Hle]. simpl. intros; lia.
    + eapply Forall_impl; [|exact Hbefore]. simpl. intros b Hb.
      now inversion Hb.
    + eapply Forall_impl; [|exact Hafter]. simpl. intros s Hs'.
      now inversion Hs'.
Qed.

Lemma takeWhile_app_stop (p : MidiEvent -> bool) (a b : MidiBuffer.t) :
  Forall (fun e => p e = true) a -> Forall (fun e => p e = false) b ->
  takeWhile p (a ++ b) = a.
Proof.
  intros Ha Hb. induction Ha as [|e a He _ IH]; simpl.
  - now apply takeWhile_none.
  - now rewrite He, IH.
Qed.

Lemma dropWhile_app_stop (p : MidiEvent -> bool) (a b : MidiBuffer.t) :
  Forall (fun e => p e = true) a -> Forall (fun e => p e = false) b ->
  dropWhile p (a ++ b) = b.
Proof.
  intros Ha Hb. induction Ha as [|e a He _ IH]; simpl.
  - now apply dropWhile_none.
  - now rewrite He.
Qed.

Lemma map_event_zero (l : MidiBuffer.t) :
  map (fun e => mkEvent (samplePosition e + 0) (message e)) l = l.
Proof.
  induction l as [|[p m] l IH]; simpl; [reflexivity|].
  now rewrite IH, Z.add_0_r.
Qed.

(** addEvents (other, 0, -1, 0) with events at positions that are not
    negative: all of them are added, and a sorted buffer stays sorted. *)
Lemma addEvents_all (buf other : MidiBuffer.t) :
  Forall (fun e => 0 <= samplePosition e) other ->
  Permutation (addEvents buf other 0 (-1) 0) (buf ++ other)
  /\ (sorted buf -> sorted (addEvents buf other 0 (-1) 0)).
Proof.
  intros Hpos. unfold addEvents, eventsInRange.
  rewrite dropWhile_none, takeWhile_all.
  - clear Hpos. revert buf. induction other as [|[p m] other IH]; intros buf.
    + simpl. rewrite app_nil_r. auto.
    + cbn [fold_left samplePosition message].
      destruct (IH (addEvent buf m (p + 0))) as [P S]. split.
      * rewrite P, addEvent_Permutation, Z.add_0_r.
        apply Permutation_middle.
      * intros Hs. apply S. now apply addEvent_sorted.
  - apply Forall_forall. intros e _. apply orb_true_r.
  - eapply Forall_impl; [|exact Hpos]. simpl. intros e He.
    apply Z.ltb_ge. lia.
Qed.

End MidiFurtherFacts.

Section MidiFurther.
Context {sample : Type} `{Sample sample}.
Import MidiBuffer.

Local Abbreviation node := (AudioNode sample).
Local Abbreviation state := (LatencyAudioNode_state sample).
Local Abbreviation buffers := (AudioAndMidiBuffer sample).

Lemma SummingAudioNode_process_midi
      (getProcessedOutput : node -> buffers) (numChannels : nat)
      (nodes : list node) (pc : buffers) :
  midi (fold_left (SummingAudioNode_addInput getProcessedOutput numChannels)
                  nodes pc)
  = fold_left (fun m x => addEvents m (midi (getProcessedOutput x)) 0 (-1) 0)
              nodes (midi pc).
Proof.
  revert pc. induction nodes as [|x nodes IH]; intros pc; [reflexivity|].
  cbn [fold_left]. now rewrite IH.
Qed.

(** The MIDI of the mixer, for inputs whose events are at positions that
    are not negative: the destination ends up with the events it had and
    every event of every input, each exactly once; and a destination that
    was ordered by position is ordered by position after the call. *)
Theorem SummingAudioNode_process_merges_midi
        (getProcessedOutput : node -> buffers)
        (nodes : list node) (pc : buffers) :
  Forall (fun x => Forall (fun e => 0 <= samplePosition e)
                          (midi (getProcessedOutput x))) nodes ->
  let out := midi (SummingAudioNode_process getProcessedOutput nodes pc) in
  Permutation out
              (midi pc ++ flat_map (fun x => midi (getProcessedOutput x)) nodes)
  /\ (sorted (midi pc) -> sorted out).
Proof.
  intros Hpos out. unfold out, SummingAudioNode_process.
  rewrite SummingAudioNode_process_midi.
  generalize (midi pc) as m. clear out.
  induction Hpos as [|x nodes Hx _ IH]; intros m.
  - simpl. rewrite app_nil_r. auto.
  - cbn [fold_left flat_map].
    destruct (addEvents_all m Hx) as [P S].
    destruct (IH (addEvents m (midi (getProcessedOutput x)) 0 (-1) 0))
      as [P' S'].
    split.
    + rewrite P', P. now rewrite app_assoc.
    + intros Hs. apply S', S, Hs.
Qed.

(** One call with events inside the block while the node stores events
    that lie at or beyond the end of the reading window: the events of the
    block leave at once, the stored ones stay where they are. *)
Lemma LatencyAudioNode_process_midi_stuck (latency : Z) (st : state)
      (inputOutput pc : buffers) :
  Forall (fun e => latency + Z.of_nat (getNumSamples (audio inputOutput))
                   <= samplePosition e) (storedMidi st) ->
  midi pc = [] ->
  sorted (midi inputOutput) ->
  Forall (fun e => 0 <= samplePosition e
                   < Z.of_nat (getNumSamples (audio inputOutput)))
         (midi inputOutput) ->
  midi (snd (LatencyAudioNode_process latency st inputOutput pc))
  = midi inputOutput
  /\ storedMidi (fst (LatencyAudioNode_process latency st inputOutput pc))
     = storedMidi st.
Proof.
  intros Hstuck Hpc Hs Hin.
  destruct (LatencyAudioNode_process_midi latency st inputOutput pc)
    as [Eo Es].
  rewrite Eo, Es, Hpc. clear Eo Es.
  set (n := Z.of_nat (getNumSamples (audio inputOutput))) in *.
  set (held := storedMidi st) in *.
  set (shifted := map (fun e => mkEvent (samplePosition e + latency)
                                        (message e)) (midi inputOutput)).
  assert (Hn : 0 <= n) by (unfold n; lia).
  assert (E1 : addEvents held (midi inputOutput) 0 (-1) latency = shifted ++ held).
  { unfold addEvents, eventsInRange.
    rewrite dropWhile_none, takeWhile_all.
    - apply (@fold_addEvent_between latency (midi inputOutput) held Hs) with (before := []).
      + eapply Forall_impl; [|exact Hstuck]. simpl. intros s Hs'.
        eapply Forall_impl; [|exact Hin]. simpl. intros; lia.
      + constructor.
    - apply Forall_forall. intros e _. apply orb_true_r.
    - eapply Forall_impl; [|exact Hin]. simpl. intros e He.
      apply Z.ltb_ge. lia. }
  rewrite E1.
  assert (Hsh : Forall (fun e => latency <= samplePosition e < latency + n)
                       shifted).
  { unfold shifted. rewrite Forall_map.
    eapply Forall_impl; [|exact Hin]. simpl. intros; lia. }
  split.
  - unfold addEvents, eventsInRange.
    rewrite dropWhile_none, takeWhile_app_stop.
    + rewrite fold_addEvent_sorted; auto.
      * simpl. unfold shifted. apply map_event_id. lia.
      * now apply sorted_shift.
    + eapply Forall_impl; [|exact Hsh]. simpl. intros e He.
      apply orb_true_iff. left. apply Z.ltb_lt. lia.
    + eapply Forall_impl; [|exact Hstuck]. simpl. intros e He.
      apply orb_false_iff. split; apply Z.ltb_ge; lia.
    + apply Forall_app. split.
      * eapply Forall_impl; [|exact Hsh]. simpl. intros e He.
        apply Z.ltb_ge. lia.
      * eapply Forall_impl; [|exact Hstuck]. simpl. intros e He.
        apply Z.ltb_ge. lia.
  - unfold clear.
    rewrite takeWhile_none, (@dropWhile_none _ (shifted ++ held)),
      dropWhile_app_stop.
    + reflexivity.
    + eapply Forall_impl; [|exact Hsh]. simpl. intros e He.
      apply Z.ltb_lt. lia.
    + eapply Forall_impl; [|exact Hstuck]. simpl. intros e He.
      apply Z.ltb_ge. lia.
    + apply Forall_app. split.
      * eapply Forall_impl; [|exact Hsh]. simpl. intros e He.
        apply Z.ltb_ge. lia.
      * eapply Forall_impl; [|exact Hstuck]. simpl. intros e He.
        apply Z.ltb_ge. lia.
    + apply Forall_app. split.
      * eapply Forall_impl; [|exact Hsh]. simpl. intros e He.
        apply Z.ltb_ge. lia.
      * eapply Forall_impl; [|exact Hstuck]. simpl. intros e He.
        apply Z.ltb_ge. lia.
Qed.

(** A run of blocks of [n] samples with events inside the blocks, over
    stored events that lie at or beyond the reading window. *)
Lemma LatencyAudioNode_processAll_midi_stuck (latency : Z) (n : nat)
      (calls : list (buffers * buffers)) :
  Forall (fun call => getNumSamples (audio (fst call)) = n
                      /\ midi (snd call) = []
                      /\ sorted (midi (fst call))
                      /\ Forall (fun e => 0 <= samplePosition e < Z.of_nat n)
                                (midi (fst call))) calls ->
  forall st : state,
    Forall (fun e => latency + Z.of_nat n <= samplePosition e) (storedMidi st) ->
    map midi (snd (LatencyAudioNode_processAll latency st calls))
    = map (fun call => midi (fst call)) calls
    /\ storedMidi (fst (LatencyAudioNode_processAll latency st calls))
       = storedMidi st.
Proof.
  induction 1 as [|[i pc] calls (Hn & Hpc & Hs & Hin) _ IH]; intros st Hst.
  - simpl. auto.
  - cbn [fst snd] in Hn, Hpc, Hs, Hin.
    destruct (@LatencyAudioNode_process_midi_stuck latency st i pc)
      as [Eo Es]; auto; try (rewrite Hn; assumption).
    cbn [LatencyAudioNode_processAll fst snd map].
    destruct (IH (fst (LatencyAudioNode_process latency st i pc))) as [E1 E2].
    + now rewrite Es.
    + now rewrite E1, E2, Eo, Es.
Qed.

(** What the delay node does with MIDI, whatever its delay: in a run of
    blocks whose events lie inside their block, every event leaves in the
    call it came in with, at the offset it came with, and the node keeps
    nothing. *)
Theorem LatencyAudioNode_midi_passes_through
        (latency : Z) (n : nat) (st : state)
        (calls : list (buffers * buffers)) :
  storedMidi st = [] ->
  Forall (fun call => getNumSamples (audio (fst call)) = n
                      /\ midi (snd call) = []
                      /\ sorted (midi (fst call))
                      /\ Forall (fun e => 0 <= samplePosition e < Z.of_nat n)
                                (midi (fst call))) calls ->
  map midi (snd (LatencyAudioNode_processAll latency st calls))
  = map (fun call => midi (fst call)) calls
  /\ storedMidi (fst (LatencyAudioNode_processAll latency st calls)) = [].
Proof.
  intros Hst Hcalls.
  destruct (@LatencyAudioNode_processAll_midi_stuck latency n calls Hcalls st)
    as [E1 E2].
  - rewrite Hst. constructor.
  - now rewrite E1, E2, Hst.
Qed.

(** Events at or beyond the end of their block are never emitted: the
    call they come in with emits nothing and stores them moved by the
    delay, and whatever blocks of that size follow, each with events of
    its own inside the block, the output carries only those, and the
    stored events stay in the node. *)
Theorem LatencyAudioNode_late_midi_is_never_emitted
        (latency : Z) (n : nat) (st : state) (lateBlock pc : buffers)
        (later : list (buffers * buffers)) :
  storedMidi st = [] -> midi pc = [] ->
  getNumSamples (audio lateBlock) = n ->
  sorted (midi lateBlock) ->
  Forall (fun e => Z.of_nat n <= samplePosition e) (midi lateBlock) ->
  Forall (fun call => getNumSamples (audio (fst call)) = n
                      /\ midi (snd call) = []
                      /\ sorted (midi (fst call))
                      /\ Forall (fun e => 0 <= samplePosition e < Z.of_nat n)
                                (midi (fst call))) later ->
  let r := LatencyAudioNode_process latency st lateBlock pc in
  let rs := LatencyAudioNode_processAll latency (fst r) later in
  let stored := map (fun e => mkEvent (samplePosition e + latency) (message e))
                    (midi lateBlock) in
  midi (snd r) = []
  /\ storedMidi (fst r) = stored
  /\ map midi (snd rs) = map (fun call => midi (fst call)) later
  /\ storedMidi (fst rs) = stored.
Proof.
  intros Hst Hpc Hn Hs Hlate Hlater r rs stored.
  destruct (LatencyAudioNode_process_midi latency st lateBlock pc) as [Eo Es].
  fold r in Eo, Es. rewrite Hst, Hpc, Hn in *.
  assert (E1 : addEvents [] (midi lateBlock) 0 (-1) latency = stored).
  { unfold addEvents, eventsInRange.
    rewrite dropWhile_none, takeWhile_all.
    - rewrite fold_addEvent_sorted; auto.
    - apply Forall_forall. intros e _. apply orb_true_r.
    - eapply Forall_impl; [|exact Hlate]. simpl. intros e He.
      apply Z.ltb_ge. lia. }
  rewrite E1 in Eo, Es.
  assert (Hsh : Forall (fun e => latency + Z.of_nat n <= samplePosition e)
                       stored).
  { unfold stored. rewrite Forall_map.
    eapply Forall_impl; [|exact Hlate]. simpl. intros; lia. }
  assert (Eo' : midi (snd r) = []).
  { rewrite Eo. unfold addEvents, eventsInRange.
    rewrite dropWhile_none, takeWhile_none; [reflexivity| |].
    - eapply Forall_impl; [|exact Hsh]. simpl. intros e He.
      apply orb_false_iff. split; apply Z.ltb_ge; lia.
    - eapply Forall_impl; [|exact Hsh]. simpl. intros e He.
      apply Z.ltb_ge. lia. }
  assert (Es' : storedMidi (fst r) = stored).
  { rewrite Es. unfold clear.
    rewrite takeWhile_none, (@dropWhile_none _ stored), dropWhile_none.
    - reflexivity.
    - eapply Forall_impl; [|exact Hsh]. simpl. intros e He.
      apply Z.ltb_ge. lia.
    - eapply Forall_impl; [|exact Hsh]. simpl. intros e He.
      apply Z.ltb_ge. lia.
    - eapply Forall_impl; [|exact Hsh]. simpl. intros e He.
      apply Z.ltb_ge. lia. }
  split; [exact Eo'|]. split; [exact Es'|].
  destruct (@LatencyAudioNode_processAll_midi_stuck latency n later Hlater (fst r))
    as [E2 E3].
  - now rewrite Es'.
  - fold rs in E2, E3. now rewrite E2, E3, Es'.
Qed.

End MidiFurther.

(** ** The delay line: a block longer than the prepared block size *)

Section OversizedBlocks.
Context {sample : Type} `{Sample sample}.
Import MidiBuffer.

Local Abbreviation state := (LatencyAudioNode_state sample).
Local Abbreviation buffers := (AudioAndMidiBuffer sample).

(** A block that is longer than the block size of the preparation does
    not fit the ring: the write is refused, and the audio of the block
    reaches neither the ring nor any output.  If the delay is shorter
    than the block the read is refused too: the ring and the audio of the
    context are left as they were and the jasserts do not all hold.
    Otherwise the read is made and no jassert fails for a block of
    the node's channels: the call takes the oldest samples of the ring,
    adds them to the audio of the context and leaves the ring that much
    shorter.  The MIDI calls are made all the same: with nothing stored
    and no MIDI in the context, the events inside the block are in the
    context after the call, and nothing is stored. *)
Theorem LatencyAudioNode_oversized_block_is_dropped
        (latency blockSz : Z) (numChannels n : nat)
        (st : state) (inputOutput pc : buffers) :
  0 <= latency ->
  delayLineReady latency blockSz numChannels (fifo st) ->
  getNumSamples (audio inputOutput) = n ->
  blockSz < Z.of_nat n ->
  getNumSamples (audio pc) = n ->
  let r := LatencyAudioNode_process latency st inputOutput pc in
  fst (AudioFifo.write (fifo st) (audio inputOutput)) = fifo st
  /\ (latency < Z.of_nat n ->
      fifo (fst r) = fifo st
      /\ audio (snd r) = audio pc
      /\ LatencyAudioNode_process_readOk st inputOutput pc = false
      /\ LatencyAudioNode_process_asserts st inputOutput pc = false)
  /\ (Z.of_nat n <= latency ->
      AudioFifo.buffer (fifo (fst r))
      = map (skipn n) (AudioFifo.buffer (fifo st))
      /\ AudioFifo.numReady (fifo (fst r)) = latency - Z.of_nat n
      /\ audio (snd r)
         = mkBlock n (add_channels (channelData (audio pc))
                                   (map (firstn n)
                                        (AudioFifo.buffer (fifo st))))
      /\ LatencyAudioNode_process_readOk st inputOutput pc = true
      /\ (getNumChannels (audio inputOutput) = numChannels ->
          LatencyAudioNode_process_asserts st inputOutput pc = true))
  /\ (storedMidi st = [] -> midi pc = [] ->
      sorted (midi inputOutput) ->
      Forall (fun e => 0 <= samplePosition e < Z.of_nat n)
             (midi inputOutput) ->
      midi (snd r) = midi inputOutput /\ storedMidi (fst r) = []).
Proof.
  intros Hl (Ht & Hr & Hlen & Hch) Hn Hbig Hpc r.
  assert (Hw : fst (AudioFifo.write (fifo st) (audio inputOutput)) = fifo st).
  { unfold AudioFifo.write. rewrite Hn.
    destruct (Z.of_nat n <=? 0); [reflexivity|].
    unfold AudioFifo.getFreeSpace. rewrite Ht, Hr.
    replace (latency + blockSz + 1 - latency - 1 <? Z.of_nat n) with true
      by (symmetry; apply Z.ltb_lt; lia).
    reflexivity. }
  split; [exact Hw|]. split; [|split].
  - intros Hshort.
    assert (Hrd : AudioFifo.readAdding (fifo st) (audio pc)
                  = (fifo st, audio pc, false)).
    { unfold AudioFifo.readAdding. rewrite Hpc, Hr.
      replace (Z.of_nat n <=? 0) with false by (symmetry; apply Z.leb_gt; lia).
      replace (latency <? Z.of_nat n) with true
        by (symmetry; apply Z.ltb_lt; lia).
      reflexivity. }
    unfold r, LatencyAudioNode_process, LatencyAudioNode_process_readOk,
      LatencyAudioNode_process_asserts.
    rewrite Hw, Hrd. cbn [fst snd fifo audio].
    repeat split.
    unfold AudioFifo.getNumReady. rewrite Hr, Hpc.
    replace (Z.of_nat n <=? latency) with false
      by (symmetry; apply Z.leb_gt; lia).
    now rewrite !andb_false_r.
  - intros Hlong.
    unfold r, LatencyAudioNode_process, LatencyAudioNode_process_readOk,
      LatencyAudioNode_process_asserts.
    rewrite Hw.
    rewrite readAdding_enough by (rewrite Hpc, Hr; lia).
    rewrite Hpc, Hr, Hn.
    cbn [fst snd fifo audio AudioFifo.buffer AudioFifo.numReady].
    split; [reflexivity|]. split; [reflexivity|]. split; [reflexivity|].
    split; [reflexivity|].
    intros Hc. unfold AudioFifo.getNumChannels, AudioFifo.getNumReady.
    rewrite Hlen, Hc, Hr, !Nat.eqb_refl.
    replace (Z.of_nat n <=? latency) with true
      by (symmetry; apply Z.leb_le; lia).
    reflexivity.
  - intros Hst Hpm Hs Hin.
    destruct (@LatencyAudioNode_process_midi_stuck
                _ _ latency st inputOutput pc) as [Eo Es].
    + rewrite Hst. constructor.
    + exact Hpm.
    + exact Hs.
    + now rewrite Hn.
    + fold r in Eo, Es. now rewrite Eo, Es.
Qed.

End OversizedBlocks.

(** ** The monitoring bridge: runs of the handler with nothing pending *)

Section LiveMidiFurther.
Context {sample : Type} `{Sample sample}.
Import LiveMidiOutputNode.

Local Abbreviation step := (LiveMidiOutputNode.step sample).

(** After any trace of blocks and services, running handleAsyncUpdate
    once delivers what is pending, and running it again, any number of
    times, calls no listener: nothing is delivered twice and both queues
    stay empty. *)
Theorem LiveMidiOutputNode_handler_reruns_deliver_nothing
        (trace : list step) (k : nat) :
  let n := Nat.iter (S k) handleAsyncUpdate (run make trace) in
  listenerCalls n = injected trace
  /\ pendingMessages n = []
  /\ dispatchingMessages n = [].
Proof.
  induction k as [|k IH].
  - destruct (bridge_inv_run trace bridge_inv_make) as (Hd & Hall & _).
    simpl in Hall. cbn [Nat.iter nat_rect]. unfold handleAsyncUpdate; simpl.
    rewrite fold_left_snoc. auto.
  - change (Nat.iter (S (S k)) handleAsyncUpdate (run make trace))
      with (handleAsyncUpdate
              (Nat.iter (S k) handleAsyncUpdate (run make trace))).
    cbv zeta in IH |- *.
    set (m := Nat.iter (S k) handleAsyncUpdate (run make trace)) in *.
    destruct IH as (Hc & Hp & Hd).
    unfold handleAsyncUpdate; cbn [listenerCalls pendingMessages
                                   dispatchingMessages].
    rewrite fold_left_snoc, Hp, Hd, app_nil_r. auto.
Qed.

End LiveMidiFurther.

(** ** The shared data of EditFileOperations *)

Section SharedDataFacts.
Import EditFileOperations.

Lemma cleanUp_in_use (c : SharedEditFileDataCache) :
  Forall (fun en => (2 <= use_count en)%nat) c -> cleanUp c = c.
Proof.
  intros Hc. apply filter_all. eapply Forall_impl; [|exact Hc].
  simpl. intros en Hen. apply negb_true_iff, Nat.eqb_neq. lia.
Qed.

Lemma reset_edits (c : SharedEditFileDataCache) (e : ptr) :
  map edit (reset c e) = map edit c.
Proof.
  induction c as [|en c IH]; simpl; [reflexivity|].
  destruct (Nat.eqb (edit en) e); simpl; congruence.
Qed.

Lemma get_edits (c : SharedEditFileDataCache) (e : ptr) :
  (In e (map edit c) /\ map edit (get c e) = map edit c)
  \/ (~ In e (map edit c) /\ map edit (get c e) = map edit c ++ [e]).
Proof.
  induction c as [|en c IH]; simpl.
  - right. auto.
  - destruct (Nat.eqb (edit en) e) eqn:E.
    + apply Nat.eqb_eq in E. left. simpl. auto.
    + apply Nat.eqb_neq in E. simpl.
      destruct IH as [[Hin Em]|[Hout Em]]; [left|right]; rewrite Em;
        split; auto; tauto.
Qed.

Lemma holders_absent (c : SharedEditFileDataCache) (e : ptr) :
  ~ In e (map edit c) -> holders c e = 0%nat.
Proof.
  induction c as [|en c IH]; simpl; [reflexivity|].
  intros Hout. destruct (Nat.eqb (edit en) e) eqn:E.
  - apply Nat.eqb_eq in E. tauto.
  - apply IH. tauto.
Qed.

Lemma cleanUp_edits_subset (c : SharedEditFileDataCache) (e : ptr) :
  In e (map edit (cleanUp c)) -> In e (map edit c).
Proof.
  unfold cleanUp. intros Hin. apply in_map_iff in Hin as (en & E & Hen).
  apply filter_In in Hen as [Hen _]. rewrite <- E. now apply in_map.
Qed.

Lemma cleanUp_keeps_one_per_edit (c : SharedEditFileDataCache) :
  NoDup (map edit c) -> NoDup (map edit (cleanUp c)).
Proof.
  induction c as [|en c IH]; intros Hone; [constructor|].
  apply NoDup_cons_iff in Hone as [Hfresh Hone].
  change (cleanUp (en :: c))
    with (if negb (Nat.eqb (use_count en) 1)
          then en :: cleanUp c else cleanUp c).
  destruct (negb (Nat.eqb (use_count en) 1)); [|exact (IH Hone)].
  apply NoDup_cons; [|exact (IH Hone)].
  intros Hkept. exact (Hfresh (cleanUp_edits_subset c (edit en) Hkept)).
Qed.

End SharedDataFacts.

Section SharedDataTheorems.
Import EditFileOperations.

(** Making a SharedDataPimpl for an edit and destroying it again leaves
    the shared cache exactly as it was, whether the edit already had its
    Data in the cache or not, provided every cached Data was in use. *)
Theorem SharedDataPimpl_construct_destroy
        (cache : SharedEditFileDataCache) (e : ptr) :
  Forall (fun en => (2 <= use_count en)%nat) cache ->
  SharedDataPimpl_destroy (SharedDataPimpl_construct cache e) e = cache.
Proof.
  unfold SharedDataPimpl_destroy, SharedDataPimpl_construct.
  induction 1 as [|en cache Hen Hc IH]; simpl.
  - rewrite Nat.eqb_refl. reflexivity.
  - destruct (Nat.eqb (edit en) e) eqn:E; simpl; rewrite E.
    + change (cleanUp (mkEntry (edit en) (use_count en) :: cache)
              = en :: cache).
      rewrite cleanUp_in_use.
      * now destruct en.
      * constructor; [exact Hen|exact Hc].
    + unfold cleanUp in *. simpl.
      replace (Nat.eqb (use_count en) 1) with false
        by (symmetry; apply Nat.eqb_neq; lia).
      simpl. now rewrite IH.
Qed.

(** The cache keeps one Data per edit, each held by at least one pimpl,
    through every construction and destruction of a pimpl; a
    construction adds one holder to the Data of its edit and a
    destruction takes one away, and neither changes how many pimpls hold
    the Data of another edit. *)
Theorem SharedEditFileDataCache_counts_holders
        (cache : SharedEditFileDataCache) (e : ptr) :
  cache_ok cache ->
  cache_ok (SharedDataPimpl_construct cache e)
  /\ cache_ok (SharedDataPimpl_destroy cache e)
  /\ holders (SharedDataPimpl_construct cache e) e = S (holders cache e)
  /\ holders (SharedDataPimpl_destroy cache e) e = Nat.pred (holders cache e)
  /\ (forall e', e' <> e ->
        holders (SharedDataPimpl_construct cache e) e' = holders cache e'
        /\ holders (SharedDataPimpl_destroy cache e) e' = holders cache e').
Proof.
  unfold SharedDataPimpl_destroy, SharedDataPimpl_construct.
  intros [Hnd Hc].
  assert (Hget : Forall (fun en => (2 <= use_count en)%nat) (get cache e)).
  { clear Hnd. induction Hc as [|en cache Hen Hc IH]; simpl.
    - constructor; [simpl; lia|constructor].
    - destruct (Nat.eqb (edit en) e); constructor; simpl; auto; lia. }
  assert (Hreset : Forall (fun en => (1 <= use_count en)%nat) (reset cache e)).
  { clear Hnd Hget.
    induction Hc as [|en cache Hen Hc IH]; simpl; [constructor|].
    destruct (Nat.eqb (edit en) e); constructor; simpl; try lia.
    - eapply Forall_impl; [|exact Hc]. simpl. intros; lia.
    - exact IH. }
  split; [|split; [|split; [|split]]].
  - split; [|exact Hget].
    destruct (get_edits cache e) as [[_ ->]|[Hout ->]]; [exact Hnd|].
    apply NoDup_app; [exact Hnd|constructor; [auto|constructor]|].
    intros x Hx [<-|[]]. contradiction.
  - split.
    + apply cleanUp_keeps_one_per_edit. now rewrite reset_edits.
    + unfold cleanUp. apply Forall_forall. intros en Hen.
      apply filter_In in Hen as [Hen Hne].
      rewrite Forall_forall in Hreset. specialize (Hreset en Hen).
      apply negb_true_iff, Nat.eqb_neq in Hne. lia.
  - clear Hnd Hget Hreset. induction Hc as [|en cache Hen Hc IH]; simpl.
    + now rewrite Nat.eqb_refl.
    + destruct (Nat.eqb (edit en) e) eqn:E; simpl; rewrite E; [lia|exact IH].
  - clear Hget Hreset. induction Hc as [|en cache Hen Hc IH]; simpl.
    + reflexivity.
    + simpl in Hnd. inversion Hnd as [|? ? Hnotin Hnd']; subst.
      destruct (Nat.eqb (edit en) e) eqn:E.
      * apply Nat.eqb_eq in E. unfold cleanUp. cbn [filter use_count].
        destruct (Nat.eqb (Nat.pred (use_count en)) 1) eqn:E1; cbn [negb].
        -- apply Nat.eqb_eq in E1. rewrite E1. simpl.
           apply holders_absent. intros Hin.
           apply cleanUp_edits_subset in Hin. congruence.
        -- simpl. rewrite E. now rewrite Nat.eqb_refl.
      * unfold cleanUp in *. cbn [filter].
        replace (Nat.eqb (use_count en) 1) with false
          by (symmetry; apply Nat.eqb_neq; lia).
        cbn [negb holders]. rewrite E. now apply IH.
  - intros e' Hne. clear Hget Hreset Hnd.
    split; induction Hc as [|en cache Hen Hc IH]; simpl.
    + replace (Nat.eqb e e') with false
        by (symmetry; apply Nat.eqb_neq; congruence).
      reflexivity.
    + destruct (Nat.eqb (edit en) e) eqn:E; simpl.
      * apply Nat.eqb_eq in E.
        replace (Nat.eqb (edit en) e') with false
          by (symmetry; apply Nat.eqb_neq; congruence).
        reflexivity.
      * now rewrite IH.
    + reflexivity.
    + pose proof (cleanUp_in_use Hc) as Hkeep. unfold cleanUp in *.
      destruct (Nat.eqb (edit en) e) eqn:E.
      * apply Nat.eqb_eq in E.
        assert (E' : Nat.eqb (edit en) e' = false)
          by (apply Nat.eqb_neq; congruence).
        cbn [filter use_count]. rewrite Hkeep.
        destruct (negb (Nat.eqb (Nat.pred (use_count en)) 1));
          cbn [holders edit]; rewrite ?E'; reflexivity.
      * cbn [filter].
        replace (Nat.eqb (use_count en) 1) with false
          by (symmetry; apply Nat.eqb_neq; lia).
        cbn [negb holders]. now rewrite IH.
Qed.

End SharedDataTheorems.

(** ** Writing the edit to a file *)

Section WriteTheorems.
Import EditFileOperations.

Local Ltac settle_write :=
  cbn; repeat split; intros;
  repeat match goal with
         | Hx : _ /\ _ |- _ => destruct Hx
         | Hx : _ \/ _ |- _ => destruct Hx
         | Hx : False |- _ => destruct Hx
         end;
  try discriminate; try reflexivity; auto 10.

(** writeToFile returns true only on the XML path, when the file is
    writable, is no directory, the XML was created and its writing
    succeeded; timeOfLastSave is set exactly when it returns true; the
    quick binary version only queues the tree for the writer thread, and
    only for a writable file that is no directory; and nothing is written
    or queued for a file that is a directory or cannot be written. *)
Theorem writeToFile_result (answers : WriteAnswers)
        (writeQuickBinaryVersion : bool) :
  let r := writeToFile answers writeQuickBinaryVersion in
  fst r = negb writeQuickBinaryVersion
          && hasWriteAccess answers && negb (isDirectory answers)
          && xmlCreated answers && xmlWritten answers
  /\ (In SetTimeOfLastSave (snd r) <-> fst r = true)
  /\ (In QueueTreeWrite (snd r) <->
      writeQuickBinaryVersion = true /\ hasWriteAccess answers = true
      /\ isDirectory answers = false)
  /\ (In WriteXml (snd r) <->
      writeQuickBinaryVersion = false /\ hasWriteAccess answers = true
      /\ isDirectory answers = false /\ xmlCreated answers = true).
Proof.
  destruct answers as [[] [] [] [] []], writeQuickBinaryVersion;
    settle_write.
Qed.

(** saveTempVersion (false) returns true exactly when the edit has not
    changed since it was saved: for a changed edit it queues the quick
    binary write (if the temp file can be written) and returns false, and
    it never sets timeOfLastSave. saveTempVersion (true) writes the XML
    whatever the edit says and returns what the writing returned. *)
Theorem saveTempVersion_result (answers : WriteAnswers)
        (hasChangedSinceSaved : bool) :
  let unforced := saveTempVersion answers hasChangedSinceSaved false in
  let forced := saveTempVersion answers hasChangedSinceSaved true in
  fst unforced = negb hasChangedSinceSaved
  /\ ~ In SetTimeOfLastSave (snd unforced)
  /\ (In QueueTreeWrite (snd unforced) <->
      hasChangedSinceSaved = true /\ hasWriteAccess answers = true
      /\ isDirectory answers = false)
  /\ forced = writeToFile answers false
  /\ fst forced = hasWriteAccess answers && negb (isDirectory answers)
                  && xmlCreated answers && xmlWritten answers.
Proof.
  destruct answers as [[] [] [] [] []], hasChangedSinceSaved;
    settle_write; intros Hin; cbn in Hin;
    repeat match goal with
           | Hx : _ \/ _ |- _ => destruct Hx
           | Hx : False |- _ => destruct Hx
           end; discriminate.
Qed.

End WriteTheorems.

(** ** The further properties on concrete inputs *)

(** The properties of the summing node over A and B do not depend on the
    order of A and B. *)
Lemma SummingAudioNode_properties_ignore_order_witness :
  Permutation [demoSourceA; demoSourceB] [demoSourceB; demoSourceA]
  /\ getAudioNodeProperties demoSumming
     = getAudioNodeProperties
         (SummingAudioNode_owning 0%nat [demoSourceB; demoSourceA]).
Proof.
  assert (Hp : Permutation [demoSourceA; demoSourceB]
                           [demoSourceB; demoSourceA])
    by apply perm_swap.
  split; [exact Hp|].
  exact (@SummingAudioNode_properties_ignore_order
           Z 0%nat 0%nat [1%nat; 2%nat] [2%nat; 1%nat]
           [demoSourceA; demoSourceB] [demoSourceB; demoSourceA] Hp).
Defined.

(** Preparing the summing node over A and B hands A over to the inserted
    delay and keeps B. *)
Lemma createLatencyNodes_transfers_ownership_witness :
  NoDup [1%nat; 2%nat]
  /\ NoDup (map (@addressOf Z) [demoSourceA; demoSourceB])
  /\ exists inserted : list (AudioNode Z),
      getDirectInputNodes
        (fst (SummingAudioNode_prepareToPlay demoInfo demoSumming 3%nat))
      = [demoSourceB] ++ inserted
      /\ Forall2 (fun o new => getDirectInputNodes new = [o]
                               /\ ownsInput new
                                  = holds [1%nat; 2%nat] (addressOf o))
                 [demoSourceA] inserted
      /\ ownedNodesOf
           (fst (SummingAudioNode_prepareToPlay demoInfo demoSumming 3%nat))
         = [2%nat] ++ map (@addressOf Z) inserted.
Proof.
  assert (Ho : NoDup [1%nat; 2%nat]).
  { repeat constructor; simpl; intuition lia. }
  assert (Hn : NoDup (map (@addressOf Z) [demoSourceA; demoSourceB]))
    by exact Ho.
  split; [exact Ho|]. split; [exact Hn|].
  exact (@createLatencyNodes_transfers_ownership
           Z Z_Sample demoInfo 0%nat [1%nat; 2%nat]
           [demoSourceA; demoSourceB] 3%nat Ho Hn).
Defined.

(** The delay line of 3 samples on the samples 1 to 8: five of them have
    left after two blocks and three are still in the ring. *)
Lemma LatencyAudioNode_delays_any_signal_witness :
  (forall x : Z, sadd szero x = x)
  /\ channelStream 0
       (map (@audio Z)
            (snd (LatencyAudioNode_processAll 3 demoDelayLine
                    (map (fun i => (i, clearedContext 1 4))
                         demoSignalBlocks))))
     = [0; 0; 0; 1; 2; 3; 4; 5]
  /\ nth 0 (AudioFifo.buffer
              (fifo (fst (LatencyAudioNode_processAll 3 demoDelayLine
                            (map (fun i => (i, clearedContext 1 4))
                                 demoSignalBlocks))))) []
     = [6; 7; 8].
Proof.
  assert (H0x : forall x : Z, sadd szero x = x) by (intros x; reflexivity).
  assert (Hl : 0 <= 3) by lia.
  assert (Hn : Z.of_nat 4 = blockSize demoInfo) by reflexivity.
  assert (Hins : Forall (fun i : AudioAndMidiBuffer Z =>
                           getNumSamples (audio i) = 4%nat
                           /\ getNumChannels (audio i) = Z.to_nat 1
                           /\ block_ok (audio i)) demoSignalBlocks)
    by (repeat constructor).
  assert (Hc : (0 < Z.to_nat 1)%nat) by (simpl; lia).
  split; [exact H0x|].
  pose proof (@LatencyAudioNode_delays_any_signal
                Z Z_Sample demoInfo 1 3 LatencyAudioNode_state_init
                4%nat demoSignalBlocks 0%nat H0x Hl Hn Hins Hc)
    as (Hout & Hring & _).
  split; [exact Hout|exact Hring].
Defined.

(** A delay line of 3 samples followed by one of 2 samples delays the
    samples 1 to 8 by 5. *)
Lemma LatencyAudioNode_delays_add_up_witness :
  (forall x : Z, sadd szero x = x)
  /\ channelStream 0
       (map (@audio Z)
            (snd (LatencyAudioNode_processAll 2
                    (LatencyAudioNode_prepareToPlay
                       1 2 demoInfo LatencyAudioNode_state_init)
                    (map (fun i => (i, clearedContext 1 4))
                         (snd (LatencyAudioNode_processAll 3 demoDelayLine
                                 (map (fun i => (i, clearedContext 1 4))
                                      demoSignalBlocks)))))))
     = [0; 0; 0; 0; 0; 1; 2; 3].
Proof.
  assert (H0x : forall x : Z, sadd szero x = x) by (intros x; reflexivity).
  assert (H1 : 0 <= 3) by lia.
  assert (H2 : 0 <= 2) by lia.
  assert (Hn : Z.of_nat 4 = blockSize demoInfo) by reflexivity.
  assert (Hins : Forall (fun i : AudioAndMidiBuffer Z =>
                           getNumSamples (audio i) = 4%nat
                           /\ getNumChannels (audio i) = Z.to_nat 1
                           /\ block_ok (audio i)) demoSignalBlocks)
    by (repeat constructor).
  assert (Hc : (0 < Z.to_nat 1)%nat) by (simpl; lia).
  split; [exact H0x|].
  exact (@LatencyAudioNode_delays_add_up
           Z Z_Sample demoInfo 1 3 2
           LatencyAudioNode_state_init LatencyAudioNode_state_init
           4%nat demoSignalBlocks 0%nat H0x H1 H2 Hn Hins Hc).
Defined.

(** The delay line prepared for blocks of 4 samples, given a block of 6
    with a note: the audio of the block is not taken into the ring and
    nothing comes out, the note is passed on. *)
Lemma LatencyAudioNode_oversized_block_is_dropped_witness :
  delayLineReady 3 4 1 (fifo demoDelayLine)
  /\ 4 < Z.of_nat 6
  /\ fifo (fst (LatencyAudioNode_process 3 demoDelayLine demoOversizedBlock
                                         (clearedContext 1 6)))
     = fifo demoDelayLine
  /\ audio (snd (LatencyAudioNode_process 3 demoDelayLine demoOversizedBlock
                                          (clearedContext 1 6)))
     = silentBlock 1 6
  /\ midi (snd (LatencyAudioNode_process 3 demoDelayLine demoOversizedBlock
                                         (clearedContext 1 6)))
     = [MidiBuffer.mkEvent 1 noteOn].
Proof.
  assert (Hl : 0 <= 3) by lia.
  assert (Hr : delayLineReady 3 4 1 (fifo demoDelayLine))
    by (repeat split; repeat constructor).
  assert (Hi : getNumSamples (audio demoOversizedBlock) = 6%nat)
    by reflexivity.
  assert (Hb : 4 < Z.of_nat 6) by (simpl; lia).
  assert (Hp : getNumSamples (audio (clearedContext (sample:=Z) 1 6)) = 6%nat)
    by reflexivity.
  assert (Hlt : 3 < Z.of_nat 6) by (simpl; lia).
  assert (Hst : storedMidi demoDelayLine = []) by reflexivity.
  assert (Hpm : midi (clearedContext (sample:=Z) 1 6) = []) by reflexivity.
  assert (Hs : MidiBuffer.sorted (midi demoOversizedBlock))
    by (repeat constructor).
  assert (Hin : Forall (fun e => 0 <= MidiBuffer.samplePosition e < Z.of_nat 6)
                       (midi demoOversizedBlock))
    by (repeat constructor; vm_compute; discriminate).
  split; [exact Hr|]. split; [exact Hb|].
  pose proof (@LatencyAudioNode_oversized_block_is_dropped
                Z Z_Sample 3 4 1%nat 6%nat demoDelayLine
                demoOversizedBlock (clearedContext 1 6)
                Hl Hr Hi Hb Hp) as (_ & Hshort & _ & Hmidi).
  destruct (Hshort Hlt) as (Hfifo & Haudio & _).
  destruct (Hmidi Hst Hpm Hs Hin) as (Hout & _).
  split; [exact Hfifo|]. split; [exact Haudio|exact Hout].
Defined.

(** The summing node over A and B merges their notes with the note of the
    context, ordered by offset. *)
Lemma SummingAudioNode_process_merges_midi_witness :
  Forall (fun x : AudioNode Z =>
            Forall (fun e => 0 <= MidiBuffer.samplePosition e)
                   (midi (demoMidiOutput x)))
         [demoSourceA; demoSourceB]
  /\ Permutation
       (midi (SummingAudioNode_process demoMidiOutput
                [demoSourceA; demoSourceB] demoMidiContext))
       [MidiBuffer.mkEvent 1 noteOn; MidiBuffer.mkEvent 2 noteOn;
        MidiBuffer.mkEvent 0 noteOn]
  /\ MidiBuffer.sorted
       (midi (SummingAudioNode_process demoMidiOutput
                [demoSourceA; demoSourceB] demoMidiContext)).
Proof.
  assert (Hpos : Forall (fun x : AudioNode Z =>
                          Forall (fun e => 0 <= MidiBuffer.samplePosition e)
                                 (midi (demoMidiOutput x)))
                        [demoSourceA; demoSourceB])
    by (repeat constructor; vm_compute; discriminate).
  assert (Hs : MidiBuffer.sorted (midi demoMidiContext))
    by (repeat constructor).
  split; [exact Hpos|].
  pose proof (@SummingAudioNode_process_merges_midi
                Z Z_Sample demoMidiOutput [demoSourceA; demoSourceB]
                demoMidiContext Hpos) as (Hperm & Hsorted).
  split; [exact Hperm|exact (Hsorted Hs)].
Defined.

(** The delay line of 3 samples passes the note of the first block on in
    the first block, at its own offset. *)
Lemma LatencyAudioNode_midi_passes_through_witness :
  storedMidi demoDelayLine = []
  /\ map (@midi Z)
         (snd (LatencyAudioNode_processAll 3 demoDelayLine demoCalls))
     = [[MidiBuffer.mkEvent 1 noteOn]; []; []]
  /\ storedMidi (fst (LatencyAudioNode_processAll 3 demoDelayLine demoCalls))
     = [].
Proof.
  assert (Hst : storedMidi demoDelayLine = []) by reflexivity.
  assert (Hcalls :
            Forall (fun call : AudioAndMidiBuffer Z * AudioAndMidiBuffer Z =>
                      getNumSamples (audio (fst call)) = 4%nat
                      /\ midi (snd call) = []
                      /\ MidiBuffer.sorted (midi (fst call))
                      /\ Forall (fun e =>
                                   0 <= MidiBuffer.samplePosition e
                                     < Z.of_nat 4)
                                (midi (fst call)))
                   demoCalls)
    by (repeat constructor; vm_compute; discriminate).
  split; [exact Hst|].
  exact (@LatencyAudioNode_midi_passes_through
           Z Z_Sample 3 4%nat demoDelayLine demoCalls Hst Hcalls).
Defined.

(** The note stamped at offset 5 of a block of 4 samples is stored at
    offset 8 and is still there after three more blocks, none of which
    carries it. *)
Lemma LatencyAudioNode_late_midi_is_never_emitted_witness :
  Forall (fun e => Z.of_nat 4 <= MidiBuffer.samplePosition e)
         (midi demoLateBlock)
  /\ midi (snd (LatencyAudioNode_process 3 demoDelayLine demoLateBlock
                                         (clearedContext 1 4))) = []
  /\ map (@midi Z)
         (snd (LatencyAudioNode_processAll 3
                 (fst (LatencyAudioNode_process 3 demoDelayLine demoLateBlock
                                                (clearedContext 1 4)))
                 demoCalls))
     = [[MidiBuffer.mkEvent 1 noteOn]; []; []]
  /\ storedMidi
       (fst (LatencyAudioNode_processAll 3
               (fst (LatencyAudioNode_process 3 demoDelayLine demoLateBlock
                                              (clearedContext 1 4)))
               demoCalls))
     = [MidiBuffer.mkEvent 8 noteOn].
Proof.
  assert (Hst : storedMidi demoDelayLine = []) by reflexivity.
  assert (Hpc : midi (clearedContext (sample:=Z) 1 4) = []) by reflexivity.
  assert (Hn : getNumSamples (audio demoLateBlock) = 4%nat) by reflexivity.
  assert (Hs : MidiBuffer.sorted (midi demoLateBlock))
    by (repeat constructor).
  assert (Hlate : Forall (fun e => Z.of_nat 4 <= MidiBuffer.samplePosition e)
                         (midi demoLateBlock))
    by (repeat constructor; vm_compute; discriminate).
  assert (Hcalls :
            Forall (fun call : AudioAndMidiBuffer Z * AudioAndMidiBuffer Z =>
                      getNumSamples (audio (fst call)) = 4%nat
                      /\ midi (snd call) = []
                      /\ MidiBuffer.sorted (midi (fst call))
                      /\ Forall (fun e =>
                                   0 <= MidiBuffer.samplePosition e
                                     < Z.of_nat 4)
                                (midi (fst call)))
                   demoCalls)
    by (repeat constructor; vm_compute; discriminate).
  split; [exact Hlate|].
  pose proof (@LatencyAudioNode_late_midi_is_never_emitted
                Z Z_Sample 3 4%nat demoDelayLine demoLateBlock
                (clearedContext 1 4) demoCalls
                Hst Hpc Hn Hs Hlate Hcalls) as (Hout & _ & Hlater & Hstored).
  split; [exact Hout|]. split; [exact Hlater|exact Hstored].
Defined.

(** A pimpl for the edit at 9, and one for an edit that is not cached,
    made and destroyed again: the cache is as before. *)
Lemma SharedDataPimpl_construct_destroy_witness :
  Forall (fun en => (2 <= EditFileOperations.use_count en)%nat) demoCache
  /\ EditFileOperations.SharedDataPimpl_destroy
       (EditFileOperations.SharedDataPimpl_construct demoCache 9%nat) 9%nat
     = demoCache.
Proof.
  assert (Hc : Forall (fun en => (2 <= EditFileOperations.use_count en)%nat)
                      demoCache)
    by (repeat constructor).
  split; [exact Hc|].
  exact (@SharedDataPimpl_construct_destroy demoCache 9%nat Hc).
Defined.

(** Destroying the only pimpl of the edit at 7 leaves it without holders
    and the edit at 9 with its two. *)
Lemma SharedEditFileDataCache_counts_holders_witness :
  EditFileOperations.cache_ok demoCache
  /\ EditFileOperations.holders
       (EditFileOperations.SharedDataPimpl_destroy demoCache 7%nat) 7%nat
     = Nat.pred (EditFileOperations.holders demoCache 7%nat)
  /\ EditFileOperations.cache_ok
       (EditFileOperations.SharedDataPimpl_destroy demoCache 7%nat).
Proof.
  assert (Hc : EditFileOperations.cache_ok demoCache).
  { split; [|repeat constructor].
    repeat constructor; simpl; intuition lia. }
  split; [exact Hc|].
  pose proof (@SharedEditFileDataCache_counts_holders demoCache 7%nat Hc)
    as (_ & Hok & _ & Hh & _).
  split; [exact Hh|exact Hok].
Defined.
